(** * ace-sidebar: the incremental content-addressed indexing engine

    A shallow embedding of the indexing core of [src/extension.ts]
    (class [IndexManager] and the helpers next to it) and the properties
    the design document states about it.

    Conventions of the embedding.

    - A JavaScript string is a Rocq [string]; each [ascii] is read as one
      code unit in the range U+0000..U+00FF.  The UTF-8 encoder below is the
      standard one restricted to that range.
    - A JavaScript array is a [list].  A [Set] is the list of its members in
      insertion order (what iteration and spreading observe); a [Map] and a
      plain object used as a dictionary are association lists in insertion
      order.  Dictionary keys here are project-relative file paths and
      digests; keys that JavaScript would reorder (canonical array indices)
      or find on [Object.prototype] are outside the model.
    - The persisted document is a value of type [Document]; writing it is
      assumed to succeed (a failing write raises in the source and commits
      nothing the model could describe).
    - Everything the engine obtains from outside (the answer of the remote
      store to a batch, the verdict of the ignore filter on a path, the
      outcome of each attempt of a request) is an explicit argument. *)

From Stdlib Require Import List String Ascii NArith Arith Bool Lia.
From Stdlib Require Import DecimalString DecimalNat.
Import ListNotations.

Local Open Scope string_scope.
Local Open Scope list_scope.
Local Open Scope nat_scope.

(** String concatenation, written apart from list concatenation. *)
Infix "+++" := String.append (right associativity, at level 60).

(* ================================================================== *)
(** * JavaScript strings, sets and dictionaries *)
(* ================================================================== *)

Module Js.

(** [Math.ceil(a / b)] on natural numbers, for [b >= 1]. *)
Definition ceilDiv (a b : nat) : nat :=
  if Nat.eqb (a mod b) 0 then a / b else S (a / b).

(** [arr.slice(start, end)]. *)
Definition slice {A} (l : list A) (start stop : nat) : list A :=
  firstn (stop - start) (skipn start l).

(** Template-literal rendering of a non-negative integer. *)
Definition ofNat (n : nat) : string :=
  NilZero.string_of_uint (Nat.to_uint n).

(** [arr.join('')]. *)
Definition join (l : list string) : string := String.concat "" l.

(** [s.startsWith(p)]. *)
Definition startsWith (p s : string) : bool := String.prefix p s.

(** [s.includes(p)]. *)
Fixpoint includes (p s : string) : bool :=
  String.prefix p s ||
  match s with
  | EmptyString => false
  | String _ s' => includes p s'
  end.

(** [set.has(x)] and [arr.includes(x)] on strings. *)
Definition has (x : string) (s : list string) : bool :=
  existsb (String.eqb x) s.

(** [set.add(x)]: a member keeps its place, a new one goes last. *)
Definition add (s : list string) (x : string) : list string :=
  if has x s then s else s ++ [x].

(** [new Set(arr)]. *)
Definition mkSet (l : list string) : list string :=
  fold_left add l [].

(** Dictionaries with string keys, in insertion order. *)
Definition dict (V : Type) : Type := list (string * V).

Fixpoint get {V} (d : dict V) (k : string) : option V :=
  match d with
  | [] => None
  | (k', v) :: d' => if String.eqb k k' then Some v else get d' k
  end.

(** [d[k] = v] and [map.set(k, v)]: an existing key keeps its place. *)
Fixpoint set {V} (d : dict V) (k : string) (v : V) : dict V :=
  match d with
  | [] => [(k, v)]
  | (k', v') :: d' =>
      if String.eqb k k' then (k', v) :: d' else (k', v') :: set d' k v
  end.

(** [delete d[k]]. *)
Fixpoint remove {V} (d : dict V) (k : string) : dict V :=
  match d with
  | [] => []
  | (k', v') :: d' =>
      if String.eqb k k' then d' else (k', v') :: remove d' k
  end.

(** [Object.keys(d)], [Object.values(d)] and [map.keys()]. *)
Definition keys {V} (d : dict V) : list string := map fst d.
Definition values {V} (d : dict V) : list V := map snd d.

End Js.

(* ================================================================== *)
(** * SHA-256 (the digest [crypto.createHash('sha256')] computes) *)
(* ================================================================== *)

Module Sha256.

Local Open Scope N_scope.

Definition mask32 : N := 0xFFFFFFFF.
Definition add32 (a b : N) : N := N.land (a + b) mask32.
Definition rotr (n x : N) : N :=
  N.lor (N.shiftr x n) (N.land (N.shiftl x (32 - n)) mask32).
Definition not32 (x : N) : N := N.lxor x mask32.

Definition Ch (x y z : N) : N :=
  N.lxor (N.land x y) (N.land (not32 x) z).
Definition Maj (x y z : N) : N :=
  N.lxor (N.lxor (N.land x y) (N.land x z)) (N.land y z).
Definition Sigma0 (x : N) : N :=
  N.lxor (N.lxor (rotr 2 x) (rotr 13 x)) (rotr 22 x).
Definition Sigma1 (x : N) : N :=
  N.lxor (N.lxor (rotr 6 x) (rotr 11 x)) (rotr 25 x).
Definition sigma0 (x : N) : N :=
  N.lxor (N.lxor (rotr 7 x) (rotr 18 x)) (N.shiftr x 3).
Definition sigma1 (x : N) : N :=
  N.lxor (N.lxor (rotr 17 x) (rotr 19 x)) (N.shiftr x 10).

(** The round constants and the initial state are fractional parts of
    roots of the first primes: 32 bits of the cube roots of the first 64
    primes, and of the square roots of the first 8. *)
Definition isPrime (n : N) : bool :=
  forallb (fun d => negb (n mod N.of_nat d =? 0))
          (seq 2 (N.to_nat n - 2)).

Definition primes : list N :=
  filter isPrime (map N.of_nat (seq 2 310)).

(** The integer cube root, one bit at a time from bit [bits - 1] down. *)
Fixpoint cubeRoot (bits : nat) (n r : N) : N :=
  match bits with
  | O => r
  | S bits' =>
      let r' := r + N.shiftl 1 (N.of_nat bits') in
      cubeRoot bits' n (if r' * r' * r' <=? n then r' else r)
  end.

Definition K : list N :=
  Eval vm_compute in
    map (fun p => N.land (cubeRoot 36 (N.shiftl p 96) 0) mask32) primes.

(** The eight working words. *)
Record state : Type := State {
  h0 : N; h1 : N; h2 : N; h3 : N; h4 : N; h5 : N; h6 : N; h7 : N
}.

Definition rootBits (p : N) : N :=
  N.land (N.sqrt (N.shiftl p 64)) mask32.

Definition init : state :=
  Eval vm_compute in
    match map rootBits primes with
    | a :: b :: c :: d :: e :: f :: g :: h :: _ => State a b c d e f g h
    | _ => State 0 0 0 0 0 0 0 0
    end.

(** Padding: a 1 bit, zeros up to 56 modulo 64, the bit length on 8 bytes. *)
Definition be64 (n : N) : list N :=
  map (fun i => N.land (N.shiftr n (8 * i)) 0xFF) [7; 6; 5; 4; 3; 2; 1; 0].

Definition pad (msg : list N) : list N :=
  let len := N.of_nat (List.length msg) in
  let zeros := N.to_nat ((119 - len mod 64) mod 64) in
  msg ++ [0x80] ++ repeat 0 zeros ++ be64 (8 * len).

(** Big-endian 32-bit words of a block. *)
Fixpoint words (n : nat) (bs : list N) : list N :=
  match n, bs with
  | S n', a :: b :: c :: d :: bs' =>
      (N.shiftl a 24 + N.shiftl b 16 + N.shiftl c 8 + d) :: words n' bs'
  | _, _ => []
  end.

(** Message schedule; [rev_ws] holds W[t-1], W[t-2], ... *)
Fixpoint schedule (n : nat) (rev_ws : list N) : list N :=
  match n with
  | O => rev rev_ws
  | S n' =>
      let w := add32 (add32 (sigma1 (nth 1 rev_ws 0)) (nth 6 rev_ws 0))
                     (add32 (sigma0 (nth 14 rev_ws 0)) (nth 15 rev_ws 0)) in
      schedule n' (w :: rev_ws)
  end.

Definition round (s : state) (kw : N * N) : state :=
  let '(k, w) := kw in
  let t1 := add32 (add32 (add32 (h7 s) (Sigma1 (h4 s)))
                         (add32 (Ch (h4 s) (h5 s) (h6 s)) k)) w in
  let t2 := add32 (Sigma0 (h0 s)) (Maj (h0 s) (h1 s) (h2 s)) in
  State (add32 t1 t2) (h0 s) (h1 s) (h2 s)
        (add32 (h3 s) t1) (h4 s) (h5 s) (h6 s).

Definition compress (s : state) (block : list N) : state :=
  let ws := schedule 48 (rev (words 16 block)) in
  let r := fold_left round (combine K ws) s in
  State (add32 (h0 s) (h0 r)) (add32 (h1 s) (h1 r))
        (add32 (h2 s) (h2 r)) (add32 (h3 s) (h3 r))
        (add32 (h4 s) (h4 r)) (add32 (h5 s) (h5 r))
        (add32 (h6 s) (h6 r)) (add32 (h7 s) (h7 r)).

Fixpoint blocks (n : nat) (s : state) (bs : list N) : state :=
  match n with
  | O => s
  | S n' => blocks n' (compress s (firstn 64 bs)) (skipn 64 bs)
  end.

Definition hash (msg : list N) : state :=
  let p := pad msg in
  blocks (List.length p / 64) init p.

(** Lowercase hexadecimal rendering. *)
Definition hexDigit (n : N) : ascii :=
  nth (N.to_nat n)
      (list_ascii_of_string "0123456789abcdef") "0"%char.

Definition hex8 (w : N) : string :=
  string_of_list_ascii
    (map (fun i => hexDigit (N.land (N.shiftr w (4 * i)) 0xF))
         [7; 6; 5; 4; 3; 2; 1; 0]).

Definition hex (s : state) : string :=
  hex8 (h0 s) +++ hex8 (h1 s) +++ hex8 (h2 s) +++ hex8 (h3 s) +++
  hex8 (h4 s) +++ hex8 (h5 s) +++ hex8 (h6 s) +++ hex8 (h7 s).

End Sha256.

(* ================================================================== *)
(** * The blob hasher *)
(* ================================================================== *)

(** UTF-8 encoding of a string of code units below U+0100. *)
Definition utf8_char (c : ascii) : list N :=
  let n := N_of_ascii c in
  if (n <? 128)%N then [n]
  else [N.lor 0xC0 (N.shiftr n 6); N.lor 0x80 (N.land n 0x3F)]%N.

Fixpoint utf8 (s : string) : list N :=
  match s with
  | EmptyString => []
  | String c s' => utf8_char c ++ utf8 s'
  end.

(** The hash object of [crypto]: the bytes fed so far. *)
Module Hash.

Definition t : Type := list N.
Definition createHash : t := [].
Definition update (h : t) (data : string) : t := h ++ utf8 data.
Definition digest (h : t) : string := Sha256.hex (Sha256.hash h).

End Hash.

(** [calculateBlobName(filePath, content)]. *)
Definition calculateBlobName (filePath content : string) : string :=
  let hash := Hash.createHash in
  let hash := Hash.update hash filePath in
  let hash := Hash.update hash content in
  Hash.digest hash.

Example sha256_abc :
  Hash.digest (Hash.update Hash.createHash "abc") =
  "ba7816bf8f01cfea414140de5dae2223b00361a396177a9cb410ff61f20015ad".
Proof. vm_compute. reflexivity. Qed.

Example sha256_empty :
  calculateBlobName "" "" =
  "e3b0c44298fc1c149afbf4c8996fb92427ae41e4649b934ca495991b7852b855".
Proof. vm_compute. reflexivity. Qed.

Example sha256_two_blocks :
  calculateBlobName "abcdbcdecdefdefgefghfghighijhijk"
                    "ijkljklmklmnlmnomnopnopq" =
  "248d6a61d20638b8e5c026930c3e6039a33ce45964ff2167f6ecedd419db06c1".
Proof. vm_compute. reflexivity. Qed.

(* ------------------------------------------------------------------ *)
(** ** Properties of the blob hasher *)
(* ------------------------------------------------------------------ *)

Section StringFacts.

Lemma length_append (a b : string) :
  String.length (a +++ b) = String.length a + String.length b.
Proof. induction a as [|c a IH]; simpl; [reflexivity | now rewrite IH]. Qed.

Lemma append_nil_r (a : string) : a +++ "" = a.
Proof. induction a as [|c a IH]; simpl; [reflexivity | now rewrite IH]. Qed.

Lemma append_assoc (a b c : string) : (a +++ b) +++ c = a +++ (b +++ c).
Proof. induction a as [|x a IH]; simpl; [reflexivity | now rewrite IH]. Qed.

Lemma list_of_append (a b : string) :
  list_ascii_of_string (a +++ b) =
  list_ascii_of_string a ++ list_ascii_of_string b.
Proof. induction a as [|x a IH]; simpl; [reflexivity | now rewrite IH]. Qed.

End StringFacts.

Definition hexDigits : list ascii := list_ascii_of_string "0123456789abcdef".

(** A string of lowercase hexadecimal digits. *)
Definition lowerHex (s : string) : Prop :=
  Forall (fun c => In c hexDigits) (list_ascii_of_string s).

Lemma hexDigit_in (n : N) : In (Sha256.hexDigit n) hexDigits.
Proof.
  unfold Sha256.hexDigit.
  destruct (nth_in_or_default (N.to_nat n) hexDigits "0"%char) as [H | H].
  - exact H.
  - fold hexDigits. rewrite H. simpl. auto.
Qed.

Lemma hex8_length (w : N) : String.length (Sha256.hex8 w) = 8.
Proof. reflexivity. Qed.

Lemma hex8_lower (w : N) : lowerHex (Sha256.hex8 w).
Proof.
  unfold lowerHex, Sha256.hex8.
  rewrite list_ascii_of_string_of_list_ascii.
  apply Forall_map, Forall_forall. intros i _. apply hexDigit_in.
Qed.

Lemma lowerHex_append (a b : string) :
  lowerHex a -> lowerHex b -> lowerHex (a +++ b).
Proof.
  unfold lowerHex. intros Ha Hb. rewrite list_of_append.
  apply Forall_app; split; assumption.
Qed.

Lemma hex_length (s : Sha256.state) : String.length (Sha256.hex s) = 64.
Proof.
  unfold Sha256.hex. repeat rewrite length_append.
  repeat rewrite hex8_length. reflexivity.
Qed.

Lemma hex_lower (s : Sha256.state) : lowerHex (Sha256.hex s).
Proof.
  unfold Sha256.hex. repeat apply lowerHex_append; apply hex8_lower.
Qed.

(** The encoder is a prefix code: the first character and the rest of the
    bytes can be read back. *)
Definition utf8_uncons (bs : list N) : option (ascii * list N) :=
  match bs with
  | [] => None
  | b1 :: r =>
      if (b1 <? 128)%N then Some (ascii_of_N b1, r)
      else match r with
           | [] => None
           | b2 :: r' =>
               Some (ascii_of_N (N.lor (N.shiftl (N.land b1 3) 6)
                                       (N.land b2 0x3F)), r')
           end
  end.

Lemma utf8_uncons_char (c : ascii) (r : list N) :
  utf8_uncons (utf8_char c ++ r) = Some (c, r).
Proof.
  destruct c as [[] [] [] [] [] [] [] []]; reflexivity.
Qed.

Lemma utf8_append (a b : string) : utf8 (a +++ b) = (utf8 a ++ utf8 b).
Proof.
  induction a as [|c a IH]; simpl; [reflexivity|].
  now rewrite IH, app_assoc.
Qed.

Lemma utf8_inj (a b : string) : utf8 a = utf8 b -> a = b.
Proof.
  revert b. induction a as [|c a IH]; intros [|d b] H; simpl in H.
  - reflexivity.
  - apply (f_equal utf8_uncons) in H.
    rewrite utf8_uncons_char in H. discriminate.
  - apply (f_equal utf8_uncons) in H.
    rewrite utf8_uncons_char in H. discriminate.
  - apply (f_equal utf8_uncons) in H.
    rewrite !utf8_uncons_char in H. injection H as -> H.
    f_equal. now apply IH.
Qed.

(** Two different byte strings with one digest. *)
Definition collision (x y : list N) : Prop :=
  x <> y /\ Hash.digest x = Hash.digest y.

(** The digest is the SHA-256 of the path bytes followed by the content
    bytes: the two [update] calls feed one stream. *)
Lemma calculateBlobName_stream (p c : string) :
  calculateBlobName p c = Hash.digest (utf8 p ++ utf8 c).
Proof. reflexivity. Qed.

(** C7, as stated, fails: with no separator between path and content the
    pairs ("ab", "c") and ("a", "bc") are different and feed the same bytes
    to the hash, so they have the same digest. *)
Lemma C7_distinct_pairs_same_digest :
  ("ab", "c") <> ("a", "bc") /\
  calculateBlobName "ab" "c" = calculateBlobName "a" "bc".
Proof. split; [discriminate | reflexivity]. Qed.

(** C7, amended: [calculateBlobName p c] is the 64-character lowercase
    hexadecimal SHA-256 of the UTF-8 bytes of [p] followed by those of [c],
    with no separator; and, up to SHA-256 collisions, two pairs whose
    concatenations [p +++ c] differ have different digests (equal digests
    give equal concatenations, not equal pairs). *)
Theorem C7_calculateBlobName_digest (p1 c1 p2 c2 : string)
  (Hfree : ~ collision (utf8 p1 ++ utf8 c1) (utf8 p2 ++ utf8 c2)) :
  calculateBlobName p1 c1 =
    Sha256.hex (Sha256.hash (utf8 p1 ++ utf8 c1)) /\
  String.length (calculateBlobName p1 c1) = 64 /\
  lowerHex (calculateBlobName p1 c1) /\
  (p1 +++ c1 <> p2 +++ c2 ->
   calculateBlobName p1 c1 <> calculateBlobName p2 c2).
Proof.
  split; [reflexivity|]. split; [apply hex_length|].
  split; [apply hex_lower|].
  intros Hne Heq. apply Hfree. split.
  - intros Hb. apply Hne. apply utf8_inj. now rewrite !utf8_append.
  - rewrite <- !calculateBlobName_stream. exact Heq.
Qed.

Lemma C7_calculateBlobName_digest_witness :
  calculateBlobName "a.ts" "x" <> calculateBlobName "a.ts" "y".
Proof.
  refine (proj2 (proj2 (proj2
    (C7_calculateBlobName_digest "a.ts" "x" "a.ts" "y" _))) _).
  - intros [_ H]. vm_compute in H. discriminate.
  - discriminate.
Defined.

(* ================================================================== *)
(** * The content splitter *)
(* ================================================================== *)

Record Blob : Type := mkBlob {
  path : string;
  content : string;
  sourcePath : string
}.

Definition LF : ascii := "010"%char.
Definition CR : ascii := "013"%char.

(** The scanning loop of [splitFileContent].  [line] is
    [content.substring(start, i)] and [rest] is the content from index [i]
    on; a line is pushed with its terminator, and a last line without one is
    pushed when [start < content.length]. *)
Fixpoint scanLines (line rest : string) : list string :=
  match rest with
  | EmptyString => if String.eqb line "" then [] else [line]
  | String c rest' =>
      if Ascii.eqb c LF then
        (line +++ String c "") :: scanLines "" rest'
      else if Ascii.eqb c CR then
        match rest' with
        | String c' rest'' =>
            if Ascii.eqb c' LF then
              (line +++ String c (String c' "")) :: scanLines "" rest''
            else (line +++ String c "") :: scanLines "" rest'
        | EmptyString => (line +++ String c "") :: scanLines "" rest'
        end
      else scanLines (line +++ String c "") rest'
  end.

Section Splitter.

(** [this.maxLinesPerBlob]; the source loops for ever on 0, so the model is
    meant for values of at least 1. *)
Variable maxLinesPerBlob : nat.

Definition splitFileContent (filePath content : string) : list Blob :=
  let lines := scanLines "" content in
  let totalLines := List.length lines in
  if totalLines <=? maxLinesPerBlob then
    [mkBlob filePath content filePath]
  else
    let numChunks := Js.ceilDiv totalLines maxLinesPerBlob in
    map (fun chunkIdx =>
           let startLine := chunkIdx * maxLinesPerBlob in
           let endLine := Nat.min (startLine + maxLinesPerBlob) totalLines in
           let chunkLines := Js.slice lines startLine endLine in
           let chunkContent := Js.join chunkLines in
           let chunkPath :=
             filePath +++ "#chunk" +++ Js.ofNat (chunkIdx + 1) +++
             "of" +++ Js.ofNat numChunks in
           mkBlob chunkPath chunkContent filePath)
        (seq 0 numChunks).

End Splitter.

Definition lines10 : string :=
  Js.join (repeat ("x" +++ String LF "") 10).

Example split_small :
  splitFileContent 800 "a.py" lines10 = [mkBlob "a.py" lines10 "a.py"].
Proof. reflexivity. Qed.

Example split_1700 :
  map path (splitFileContent 800 "b.py"
              (Js.join (repeat ("x" +++ String LF "") 1700))) =
  ["b.py#chunk1of3"; "b.py#chunk2of3"; "b.py#chunk3of3"].
Proof. vm_compute. reflexivity. Qed.

Definition mixed : string :=
  "a" +++ String CR (String LF ("b" +++ String CR ("c" +++ String LF "d"))).

Example split_terminators :
  map content (splitFileContent 2 "f" mixed) =
  ["a" +++ String CR (String LF ("b" +++ String CR ""));
   "c" +++ String LF "d"].
Proof. reflexivity. Qed.

(* ------------------------------------------------------------------ *)
(** ** Lines *)
(* ------------------------------------------------------------------ *)

Definition isBreak (c : ascii) : bool := Ascii.eqb c LF || Ascii.eqb c CR.

Fixpoint noBreak (s : string) : bool :=
  match s with
  | EmptyString => true
  | String c s' => negb (isBreak c) && noBreak s'
  end.

(** The first line starts with a line feed. *)
Definition headLF (ls : list string) : bool :=
  match ls with
  | String c _ :: _ => Ascii.eqb c LF
  | _ => false
  end.

(** A list of lines as a line-accurate split produces them: every line is a
    run of non-terminator characters followed by one of the terminators
    LF, CR LF or a lone CR (one not followed by LF), except that the last
    line may be a non-empty run with no terminator. *)
Inductive lineSplit : list string -> Prop :=
| split_nil : lineSplit []
| split_last body :
    noBreak body = true -> body <> "" -> lineSplit [body]
| split_lf body ls :
    noBreak body = true -> lineSplit ls ->
    lineSplit ((body +++ String LF "") :: ls)
| split_crlf body ls :
    noBreak body = true -> lineSplit ls ->
    lineSplit ((body +++ String CR (String LF "")) :: ls)
| split_cr body ls :
    noBreak body = true -> lineSplit ls -> headLF ls = false ->
    lineSplit ((body +++ String CR "") :: ls).

Lemma string_pair_ind (P : string -> Prop) :
  P "" ->
  (forall c, P (String c "")) ->
  (forall c d r, P r -> P (String d r) -> P (String c (String d r))) ->
  forall s, P s.
Proof.
  intros H0 H1 H2 s.
  assert (H : P s /\ forall c, P (String c s)).
  { induction s as [|d r [IHr IHd]].
    - split; [exact H0 | exact H1].
    - split; [apply IHd | intros c; apply H2; [exact IHr | apply IHd]]. }
  exact (proj1 H).
Qed.

Lemma join_cons (x : string) (xs : list string) :
  Js.join (x :: xs) = x +++ Js.join xs.
Proof.
  unfold Js.join. destruct xs as [|y ys]; simpl.
  - now rewrite append_nil_r.
  - reflexivity.
Qed.

Lemma join_app (xs ys : list string) :
  Js.join (xs ++ ys) = Js.join xs +++ Js.join ys.
Proof.
  induction xs as [|x xs IH]; [reflexivity|].
  rewrite <- app_comm_cons, !join_cons, IH, append_assoc. reflexivity.
Qed.

Lemma join_concat (ls : list (list string)) :
  Js.join (List.concat ls) = Js.join (map Js.join ls).
Proof.
  induction ls as [|l ls IH]; [reflexivity|].
  simpl. now rewrite join_app, join_cons, IH.
Qed.

Lemma noBreak_snoc (s : string) (c : ascii) :
  noBreak s = true -> isBreak c = false ->
  noBreak (s +++ String c "") = true.
Proof.
  intros Hs Hc. induction s as [|d s IH]; simpl in *.
  - now rewrite Hc.
  - apply andb_true_iff in Hs as [Hd Hs]. rewrite Hd. simpl. now apply IH.
Qed.

Lemma eqb_LF (c : ascii) : Ascii.eqb c LF = true -> c = LF.
Proof. apply Ascii.eqb_eq. Qed.

Lemma eqb_CR (c : ascii) : Ascii.eqb c CR = true -> c = CR.
Proof. apply Ascii.eqb_eq. Qed.

(** A non-empty pending line is the start of the first line pushed. *)
Lemma scanLines_head (rest : string) :
  forall c line, headLF (scanLines (String c line) rest) = Ascii.eqb c LF.
Proof.
  induction rest as [| a | a b r IHr IHb] using string_pair_ind;
    intros c line.
  - reflexivity.
  - simpl. destruct (Ascii.eqb a LF); [reflexivity|].
    destruct (Ascii.eqb a CR); reflexivity.
  - change (scanLines (String c line) (String a (String b r))) with
      (if Ascii.eqb a LF then
         (String c line +++ String a "") :: scanLines "" (String b r)
       else if Ascii.eqb a CR then
         if Ascii.eqb b LF then
           (String c line +++ String a (String b "")) :: scanLines "" r
         else (String c line +++ String a "") :: scanLines "" (String b r)
       else scanLines (String c line +++ String a "") (String b r)).
    destruct (Ascii.eqb a LF); [reflexivity|].
    destruct (Ascii.eqb a CR).
    + destruct (Ascii.eqb b LF); reflexivity.
    + apply (IHb c (line +++ String a "")).
Qed.

Lemma scanLines_headLF_fresh (b : ascii) (r : string) :
  Ascii.eqb b LF = false -> headLF (scanLines "" (String b r)) = false.
Proof.
  intros Hb. simpl. rewrite Hb.
  destruct (Ascii.eqb b CR).
  - destruct r as [|c' r']; [exact Hb|].
    destruct (Ascii.eqb c' LF); simpl; exact Hb.
  - change ("" +++ String b "") with (String b "").
    rewrite scanLines_head. exact Hb.
Qed.

(** The scan splits the pending line followed by the rest of the content
    into lines, and loses nothing. *)
Lemma scanLines_spec (rest : string) :
  forall line, noBreak line = true ->
    lineSplit (scanLines line rest) /\
    Js.join (scanLines line rest) = line +++ rest.
Proof.
  induction rest as [| a | a b r IHr IHb] using string_pair_ind;
    intros line Hline.
  - simpl. destruct (String.eqb line "") eqn:E.
    + apply String.eqb_eq in E. subst. split; [constructor | reflexivity].
    + apply String.eqb_neq in E. split; [now constructor|].
      now rewrite append_nil_r.
  - simpl. destruct (Ascii.eqb a LF) eqn:Ea.
    + apply eqb_LF in Ea. subst a.
      split; [apply split_lf; [assumption | constructor]|].
      reflexivity.
    + destruct (Ascii.eqb a CR) eqn:Eb.
      * apply eqb_CR in Eb. subst a.
        split; [apply split_cr; [assumption | constructor | reflexivity]|].
        reflexivity.
      * assert (Hn : noBreak (line +++ String a "") = true).
        { apply noBreak_snoc; [assumption|].
          unfold isBreak. now rewrite Ea, Eb. }
        destruct (String.eqb (line +++ String a "") "") eqn:E.
        -- apply String.eqb_eq in E. destruct line; discriminate.
        -- apply String.eqb_neq in E. split; [now constructor|].
           reflexivity.
  - change (scanLines line (String a (String b r))) with
      (if Ascii.eqb a LF then
         (line +++ String a "") :: scanLines "" (String b r)
       else if Ascii.eqb a CR then
         if Ascii.eqb b LF then
           (line +++ String a (String b "")) :: scanLines "" r
         else (line +++ String a "") :: scanLines "" (String b r)
       else scanLines (line +++ String a "") (String b r)).
    destruct (Ascii.eqb a LF) eqn:Ea.
    + apply eqb_LF in Ea. subst a.
      destruct (IHb "" eq_refl) as [Hs Hj].
      split; [now apply split_lf|].
      rewrite join_cons, Hj, append_assoc. reflexivity.
    + destruct (Ascii.eqb a CR) eqn:Eb.
      * apply eqb_CR in Eb. subst a.
        destruct (Ascii.eqb b LF) eqn:Ec.
        -- apply eqb_LF in Ec. subst b.
           destruct (IHr "" eq_refl) as [Hs Hj].
           split; [now apply split_crlf|].
           rewrite join_cons, Hj, append_assoc. reflexivity.
        -- destruct (IHb "" eq_refl) as [Hs Hj].
           split.
           ++ apply split_cr; [assumption | assumption |].
              now apply scanLines_headLF_fresh.
           ++ rewrite join_cons, Hj, append_assoc. reflexivity.
      * assert (Hn : noBreak (line +++ String a "") = true).
        { apply noBreak_snoc; [assumption|].
          unfold isBreak. now rewrite Ea, Eb. }
        destruct (IHb _ Hn) as [Hs Hj].
        split; [assumption|].
        rewrite Hj, append_assoc. reflexivity.
Qed.

(* ------------------------------------------------------------------ *)
(** ** Chunks *)
(* ------------------------------------------------------------------ *)

Lemma firstn_add {A} (a b : nat) (l : list A) :
  firstn (a + b) l = firstn a l ++ firstn b (skipn a l).
Proof.
  revert l. induction a as [|a IH]; intros l; [reflexivity|].
  destruct l as [|x l]; simpl.
  - now rewrite firstn_nil.
  - now rewrite IH.
Qed.

Lemma slice_chunk {A} (l : list A) (a m : nat) :
  Js.slice l a (Nat.min (a + m) (List.length l)) = firstn m (skipn a l).
Proof.
  unfold Js.slice.
  assert (Hlen : List.length (skipn a l) = List.length l - a)
    by apply length_skipn.
  destruct (Nat.le_gt_cases m (List.length (skipn a l))) as [H | H].
  - f_equal. lia.
  - replace (Nat.min (a + m) (List.length l) - a)
      with (List.length (skipn a l)) by lia.
    rewrite firstn_all. symmetry. apply firstn_all2. lia.
Qed.

Lemma slice_In {A} (l : list A) (start stop : nat) (x : A) :
  In x (Js.slice l start stop) -> In x l.
Proof.
  unfold Js.slice. intros H.
  rewrite <- (firstn_skipn start l). apply in_or_app. right.
  rewrite <- (firstn_skipn (stop - start) (skipn start l)).
  apply in_or_app. now left.
Qed.

Lemma chunks_concat {A} (l : list A) (m n : nat) :
  List.concat
    (map (fun i => Js.slice l (i * m) (Nat.min (i * m + m) (List.length l)))
         (seq 0 n)) =
  firstn (n * m) l.
Proof.
  induction n as [|n IH]; [reflexivity|].
  rewrite seq_S, map_app, concat_app, IH. simpl.
  rewrite app_nil_r, slice_chunk.
  replace (m + n * m) with (n * m + m) by lia.
  now rewrite firstn_add.
Qed.

Lemma ceilDiv_bounds (t m : nat) :
  1 <= m -> t <= Js.ceilDiv t m * m /\ Js.ceilDiv t m * m < t + m.
Proof.
  intros Hm. unfold Js.ceilDiv.
  pose proof (Nat.div_mod_eq t m) as Hd.
  pose proof (Nat.mod_upper_bound t m ltac:(lia)) as Hu.
  destruct (Nat.eqb (t mod m) 0) eqn:E.
  - apply Nat.eqb_eq in E. nia.
  - apply Nat.eqb_neq in E. nia.
Qed.

Lemma nth_error_map_seq {A} (f : nat -> A) (n i : nat) :
  i < n -> nth_error (map f (seq 0 n)) i = Some (f i).
Proof.
  intros Hi. rewrite nth_error_map.
  rewrite (nth_error_nth' (seq 0 n) 0) by now rewrite length_seq.
  simpl. now rewrite seq_nth.
Qed.

Lemma splitFileContent_join (m : nat) (p c : string) :
  1 <= m -> Js.join (map content (splitFileContent m p c)) = c.
Proof.
  intros Hm. unfold splitFileContent.
  destruct (scanLines_spec c "" eq_refl) as [_ Hj]. simpl in Hj.
  destruct (List.length (scanLines "" c) <=? m); [reflexivity|].
  rewrite map_map. simpl.
  rewrite <- (map_map _ Js.join), <- join_concat, chunks_concat.
  rewrite firstn_all2; [exact Hj|].
  apply (ceilDiv_bounds (List.length (scanLines "" c)) m Hm).
Qed.

(** C2: for a threshold of at least 1, [splitFileContent] is a function of
    its inputs; the content is cut into lines that keep their terminators
    (LF, CR LF, lone CR) and a last fragment without one; with at most
    [maxLinesPerBlob] lines there is exactly one blob, with path [p] and
    content [c]; otherwise there are ceil(totalLines / maxLinesPerBlob)
    blobs, blob [i] (from 0) being named [p#chunk{i+1}of{n}] and holding
    lines [i * max] up to [min (i * max + max) totalLines]; in both cases
    the contents concatenated in order give back [c]. *)
Theorem C2_splitFileContent (maxLinesPerBlob : nat) (p c : string)
  (Hmax : 1 <= maxLinesPerBlob) :
  let lines := scanLines "" c in
  let total := List.length lines in
  let n := Js.ceilDiv total maxLinesPerBlob in
  let blobs := splitFileContent maxLinesPerBlob p c in
  lineSplit lines /\ Js.join lines = c /\
  (forall p' c', p' = p -> c' = c ->
     splitFileContent maxLinesPerBlob p' c' = blobs) /\
  (total <= maxLinesPerBlob -> blobs = [mkBlob p c p]) /\
  (maxLinesPerBlob < total ->
     (total <= n * maxLinesPerBlob /\
      n * maxLinesPerBlob < total + maxLinesPerBlob) /\
     List.length blobs = n /\
     forall i, i < n ->
       nth_error blobs i =
       Some (mkBlob
               (p +++ "#chunk" +++ Js.ofNat (i + 1) +++ "of" +++ Js.ofNat n)
               (Js.join (Js.slice lines (i * maxLinesPerBlob)
                           (Nat.min (i * maxLinesPerBlob + maxLinesPerBlob)
                                    total)))
               p)) /\
  Js.join (map content blobs) = c /\
  Forall (fun b => sourcePath b = p) blobs.
Proof.
  intros lines total n blobs.
  destruct (scanLines_spec c "" eq_refl) as [Hs Hj]. simpl in Hj.
  split; [exact Hs|]. split; [exact Hj|].
  split; [now intros p' c' -> ->|].
  split.
  { intros Hle. subst blobs. unfold splitFileContent.
    fold lines. fold total.
    apply Nat.leb_le in Hle. now rewrite Hle. }
  split.
  { intros Hlt. subst blobs. unfold splitFileContent.
    fold lines. fold total. fold n.
    apply Nat.leb_gt in Hlt. rewrite Hlt.
    split; [apply ceilDiv_bounds; exact Hmax|].
    split; [now rewrite length_map, length_seq|].
    intros i Hi. now rewrite nth_error_map_seq. }
  split; [now apply splitFileContent_join|].
  subst blobs. unfold splitFileContent.
  destruct (List.length (scanLines "" c) <=? maxLinesPerBlob).
  - now repeat constructor.
  - apply Forall_map, Forall_forall. now intros.
Qed.

Lemma C2_splitFileContent_witness :
  1 <= 2 /\
  Js.join (map content (splitFileContent 2 "f.ts" mixed)) = mixed.
Proof.
  split; [lia|].
  refine (proj1 (proj2 (proj2 (proj2 (proj2 (proj2
    (C2_splitFileContent 2 "f.ts" mixed _))))))).
  lia.
Defined.

(* ================================================================== *)
(** * The ignore filter *)
(* ================================================================== *)

(** The part of JavaScript's regular expressions that [matchPattern] can
    produce from a pattern without further syntax characters: literal
    characters, [.] and [.*].  [compile] is [new RegExp("^" + src + "$")]
    and gives [None] on a source outside this part. *)
Module RegExp.

Inductive item : Type :=
| Lit (c : ascii)
| Dot
| DotStar.

Definition syntaxChars : string := "^$\.*+?()[]{}|".

Definition isSyntaxChar (c : ascii) : bool :=
  existsb (Ascii.eqb c) (list_ascii_of_string syntaxChars).

Fixpoint compile (src : string) : option (list item) :=
  match src with
  | EmptyString => Some []
  | String c rest =>
      if Ascii.eqb c "." then
        match rest with
        | String c' rest' =>
            if Ascii.eqb c' "*" then option_map (cons DotStar) (compile rest')
            else option_map (cons Dot) (compile rest)
        | EmptyString => option_map (cons Dot) (compile rest)
        end
      else if isSyntaxChar c then None
      else option_map (cons (Lit c)) (compile rest)
  end.

(** [.] matches any character but a line terminator. *)
Definition dotMatches (c : ascii) : bool :=
  negb (Ascii.eqb c LF || Ascii.eqb c CR).

(** Does the whole of [s] match the items (the expression is anchored at
    both ends)? *)
Fixpoint matches (items : list item) (s : string) : bool :=
  match items with
  | [] => String.eqb s ""
  | Lit c :: items' =>
      match s with
      | String d s' => Ascii.eqb c d && matches items' s'
      | EmptyString => false
      end
  | Dot :: items' =>
      match s with
      | String d s' => dotMatches d && matches items' s'
      | EmptyString => false
      end
  | DotStar :: items' =>
      (fix star (s : string) : bool :=
         matches items' s ||
         match s with
         | String d s' => dotMatches d && star s'
         | EmptyString => false
         end) s
  end.

End RegExp.

(** [s.replace(/c/g, by)] for a single character [c]. *)
Fixpoint replaceAll (c : ascii) (by_ : string) (s : string) : string :=
  match s with
  | EmptyString => EmptyString
  | String d s' =>
      if Ascii.eqb d c then by_ +++ replaceAll c by_ s'
      else String d (replaceAll c by_ s')
  end.

(** [matchPattern(str, pattern)]; [None] when the expression built from the
    pattern is outside the modelled part of the syntax. *)
Definition matchPattern (str pattern : string) : option bool :=
  let regexPattern := replaceAll "?" "." (replaceAll "*" ".*" pattern) in
  match RegExp.compile regexPattern with
  | Some regex => Some (RegExp.matches regex str)
  | None => None
  end.

(** [s.split('/')]. *)
Fixpoint splitSlash (cur s : string) : list string :=
  match s with
  | EmptyString => [cur]
  | String c s' =>
      if Ascii.eqb c "/" then cur :: splitSlash "" s'
      else splitSlash (cur +++ String c "") s'
  end.

(** The loop over the parts of a path for one pattern, then the whole
    path; [Some true] stands for [return true]. *)
Fixpoint anyPart (pattern : string) (parts : list string) : option bool :=
  match parts with
  | [] => Some false
  | part :: parts' =>
      match matchPattern part pattern with
      | Some true => Some true
      | Some false => anyPart pattern parts'
      | None => None
      end
  end.

Fixpoint anyPattern (pathStr : string) (pathParts : list string)
    (patterns : list string) : option bool :=
  match patterns with
  | [] => Some false
  | pattern :: patterns' =>
      match anyPart pattern pathParts with
      | Some true => Some true
      | Some false =>
          match matchPattern pathStr pattern with
          | Some true => Some true
          | Some false => anyPattern pathStr pathParts patterns'
          | None => None
          end
      | None => None
      end
  end.

(** [shouldExclude(filePath, gitignoreSpec)] on the project-relative path
    [pathStr]; [ignored] is the answer of the ignore-file rules (false when
    there is no ignore file). *)
Definition shouldExclude (excludePatterns : list string)
    (pathStr : string) (ignored : bool) : option bool :=
  if ignored then Some true
  else
    let pathParts := splitSlash "" pathStr in
    anyPattern pathStr pathParts excludePatterns.

(** The glob semantics of the design document: [*] matches any run of
    characters, [?] exactly one character, any other character itself,
    and the whole string must match. *)
Fixpoint globMatch (pattern s : string) : bool :=
  match pattern with
  | EmptyString => String.eqb s ""
  | String c pattern' =>
      if Ascii.eqb c "*" then
        (fix star (s : string) : bool :=
           globMatch pattern' s ||
           match s with
           | String _ s' => star s'
           | EmptyString => false
           end) s
      else if Ascii.eqb c "?" then
        match s with
        | String _ s' => globMatch pattern' s'
        | EmptyString => false
        end
      else
        match s with
        | String d s' => Ascii.eqb c d && globMatch pattern' s'
        | EmptyString => false
        end
  end.

(** A path is excluded, in the document's words, when a segment or the
    whole relative path matches one of the patterns as a glob. *)
Definition globExcluded (excludePatterns : list string) (pathStr : string)
    : bool :=
  existsb (fun pattern =>
             existsb (globMatch pattern) (splitSlash "" pathStr) ||
             globMatch pattern pathStr)
          excludePatterns.

Example match_node_modules :
  shouldExclude ["node_modules"; "*.pyc"] "web/node_modules/x.js" false
  = Some true.
Proof. reflexivity. Qed.

Example match_pyc :
  shouldExclude ["node_modules"; "*.pyc"] "pkg/mod.pyc" false = Some true.
Proof. reflexivity. Qed.

Example match_none :
  shouldExclude ["node_modules"; "*.pyc"] "pkg/mod.py" false = Some false.
Proof. reflexivity. Qed.

(* ------------------------------------------------------------------ *)
(** ** Where the filter agrees with glob matching *)
(* ------------------------------------------------------------------ *)











(** C9 at the failing input: with the pattern [*.so] the directory [iso]
    and everything below it is excluded, although no segment and not the
    whole path matches [*.so] as a glob: the [.] of the pattern reaches the
    regular expression unescaped and matches any character. *)
Theorem C9_dot_matches_any_character :
  matchPattern "iso" "*.so" = Some true /\
  shouldExclude ["*.so"] "iso/readme.md" false = Some true /\
  globExcluded ["*.so"] "iso/readme.md" = false.
Proof. repeat split. Qed.

(* ================================================================== *)
(** * The retry policy *)
(* ================================================================== *)

Module Retry.

(** What [retryRequest] reads of a caught error: [error.code],
    [error.response?.status] and the message. *)
Record RequestError : Type := mkError {
  code : option string;
  status : option nat;
  message : string
}.

(** The message of the error thrown to the caller.  The translated texts
    are fixed user-facing sentences of the source; [Original m] is the
    message of the caught error, unchanged. *)
Inductive Message : Type :=
| TokenInvalid          (* after a 401: the token is invalid or expired *)
| AccessDenied          (* after a 403: the token may have been disabled *)
| CertificateFailure    (* certificate validation failed *)
| CannotConnect         (* ECONNREFUSED: cannot connect to the server *)
| ConnectTimeout        (* ETIMEDOUT: the connection timed out *)
| CannotResolve         (* ENOTFOUND: cannot resolve the server address *)
| AllRetriesFailed      (* 'All retries failed' *)
| Original (m : string).

Inductive Event : Type :=
| Invoke (attempt : nat)     (* [await fn()] *)
| Wait (ms : nat).           (* [await sleep(ms)] *)

Section Policy.

Variable T : Type.

(** What the [attempt]-th call of [fn] does. *)
Inductive Outcome : Type :=
| Resolved (v : T)
| Rejected (e : RequestError).

Record Run : Type := mkRun {
  result : T + Message;
  trace : list Event
}.

Definition codeIs (e : RequestError) (c : string) : bool :=
  match code e with
  | Some c' => String.eqb c' c
  | None => false
  end.

Definition statusIs (e : RequestError) (n : nat) : bool :=
  match status e with
  | Some s => s =? n
  | None => false
  end.

Definition isCertificateError (e : RequestError) : bool :=
  codeIs e "UNABLE_TO_VERIFY_LEAF_SIGNATURE" ||
  codeIs e "CERT_HAS_EXPIRED" ||
  codeIs e "ERR_TLS_CERT_ALTNAME_INVALID" ||
  Js.includes "certificate" (message e) ||
  Js.includes "altnames" (message e).

Definition isRetryable (e : RequestError) : bool :=
  codeIs e "ECONNREFUSED" ||
  codeIs e "ETIMEDOUT" ||
  codeIs e "ENOTFOUND" ||
  match status e with
  | Some s => 500 <=? s
  | None => false
  end.

Definition friendlyMessage (e : RequestError) : Message :=
  if codeIs e "ECONNREFUSED" then CannotConnect
  else if codeIs e "ETIMEDOUT" then ConnectTimeout
  else if codeIs e "ENOTFOUND" then CannotResolve
  else Original (message e).

Definition emit (ev : Event) (r : Run) : Run :=
  mkRun (result r) (ev :: trace r).

Variable fn : nat -> Outcome.
Variable maxRetries : nat.
Variable retryDelay : nat.

(** The [for] loop with [remaining] iterations left, at index [attempt]. *)
Fixpoint retryLoop (remaining attempt : nat)
    (lastError : option RequestError) : Run :=
  match remaining with
  | O =>
      mkRun (inr (match lastError with
                  | Some e => Original (message e)
                  | None => AllRetriesFailed
                  end)) []
  | S remaining' =>
      emit (Invoke attempt)
        match fn attempt with
        | Resolved v => mkRun (inl v) []
        | Rejected e =>
            if statusIs e 401 then mkRun (inr TokenInvalid) []
            else if statusIs e 403 then mkRun (inr AccessDenied) []
            else if isCertificateError e then
              mkRun (inr CertificateFailure) []
            else if negb (isRetryable e) || (attempt =? maxRetries - 1) then
              mkRun (inr (friendlyMessage e)) []
            else
              let waitTime := retryDelay * Nat.pow 2 attempt in
              emit (Wait waitTime)
                   (retryLoop remaining' (S attempt) (Some e))
        end
  end.

Definition retryRequest : Run := retryLoop maxRetries 0 None.

(** The wait that comes right before the call of index [k], if any. *)
Fixpoint delayBefore (k : nat) (tr : list Event) : option nat :=
  match tr with
  | Wait ms :: ((Invoke j :: _) as tr') =>
      if j =? k then Some ms else delayBefore k tr'
  | _ :: tr' => delayBefore k tr'
  | [] => None
  end.

(** The classes of failures, in the order the source tests them. *)
Definition authRejected (e : RequestError) : bool := statusIs e 401.
Definition authDenied (e : RequestError) : bool :=
  negb (statusIs e 401) && statusIs e 403.
Definition certificate (e : RequestError) : bool :=
  negb (statusIs e 401) && negb (statusIs e 403) && isCertificateError e.
Definition transient (e : RequestError) : bool :=
  negb (statusIs e 401) && negb (statusIs e 403) &&
  negb (isCertificateError e) && isRetryable e.
Definition unexpected (e : RequestError) : bool :=
  negb (statusIs e 401) && negb (statusIs e 403) &&
  negb (isCertificateError e) && negb (isRetryable e).

(** The calls and waits of [k] transient failures in a row. *)
Definition backoff (k : nat) : list Event :=
  flat_map (fun j => [Invoke j; Wait (retryDelay * Nat.pow 2 j)]) (seq 0 k).

End Policy.

Arguments Resolved {T} v.
Arguments Rejected {T} e.
Arguments mkRun {T} result trace.
Arguments result {T} r.
Arguments trace {T} r.
Arguments retryRequest {T} fn maxRetries retryDelay.
Arguments retryLoop {T} fn maxRetries retryDelay remaining attempt lastError.
Arguments backoff retryDelay k : assert.

Definition refused : RequestError :=
  mkError (Some "ECONNREFUSED") None "connect ECONNREFUSED 127.0.0.1:443".
Definition unavailable : RequestError :=
  mkError (Some "ERR_BAD_RESPONSE") (Some 503)
          "Request failed with status code 503".

Example retry_then_success :
  retryRequest (fun k => if k <? 2 then Rejected refused else Resolved 7)
               3 1000 =
  mkRun (inl 7) [Invoke 0; Wait 1000; Invoke 1; Wait 2000; Invoke 2].
Proof. reflexivity. Qed.

(* ------------------------------------------------------------------ *)
(** ** Properties of the retry policy *)
(* ------------------------------------------------------------------ *)

Lemma backoff_length (retryDelay k : nat) :
  List.length (backoff retryDelay k) = 2 * k.
Proof.
  unfold backoff.
  enough (H : forall s,
    List.length
      (flat_map (fun j => [Invoke j; Wait (retryDelay * Nat.pow 2 j)])
                (seq s k)) = 2 * k) by apply H.
  induction k as [|k IH]; intros s; [reflexivity|].
  cbn [seq flat_map app List.length]. rewrite IH. lia.
Qed.

Section PolicyFacts.

Context {T : Type}.
Variable fn : nat -> Outcome T.
Variable maxRetries retryDelay : nat.

Definition prepend (evs : list Event) (r : Run T) : Run T :=
  mkRun (result r) (evs ++ trace r).

Lemma prepend_nil (r : Run T) : prepend [] r = r.
Proof. now destruct r. Qed.

Lemma prepend_app (a b : list Event) (r : Run T) :
  prepend (a ++ b) r = prepend a (prepend b r).
Proof. unfold prepend. simpl. now rewrite app_assoc. Qed.

Lemma transient_inv (e : RequestError) :
  transient e = true ->
  statusIs e 401 = false /\ statusIs e 403 = false /\
  isCertificateError e = false /\ isRetryable e = true.
Proof.
  unfold transient. intros H.
  repeat (apply andb_true_iff in H as [H ?]).
  repeat split; try assumption; now apply negb_true_iff.
Qed.

(** One transient failure with attempts left: a call, the wait, and the
    loop again at the next index. *)
Lemma retryLoop_transient (remaining attempt : nat) lastError e :
  fn attempt = Rejected e -> transient e = true ->
  S attempt < maxRetries ->
  retryLoop fn maxRetries retryDelay (S remaining) attempt lastError =
  prepend [Invoke attempt; Wait (retryDelay * Nat.pow 2 attempt)]
    (retryLoop fn maxRetries retryDelay remaining (S attempt) (Some e)).
Proof.
  intros Hfn Ht Hlt. apply transient_inv in Ht as (H1 & H2 & H3 & H4).
  simpl. rewrite Hfn, H1, H2, H3, H4. simpl.
  replace (attempt =? maxRetries - 1) with false
    by (symmetry; apply Nat.eqb_neq; lia).
  reflexivity.
Qed.

(** [k] transient failures in a row, starting at index [attempt]. *)
Lemma retryLoop_backoff (k : nat) :
  forall remaining attempt lastError,
    attempt + k < maxRetries ->
    k <= remaining ->
    (forall j, j < k ->
       exists e, fn (attempt + j) = Rejected e /\ transient e = true) ->
    exists lastError',
      retryLoop fn maxRetries retryDelay remaining attempt lastError =
      prepend
        (flat_map (fun j => [Invoke j; Wait (retryDelay * Nat.pow 2 j)])
                  (seq attempt k))
        (retryLoop fn maxRetries retryDelay (remaining - k) (attempt + k)
                   lastError').
Proof.
  induction k as [|k IH]; intros remaining attempt lastError Hlt Hle Hprev.
  - exists lastError. simpl.
    now rewrite prepend_nil, Nat.sub_0_r, Nat.add_0_r.
  - destruct remaining as [|remaining]; [lia|].
    destruct (Hprev 0 ltac:(lia)) as (e & Hfn & Ht).
    rewrite Nat.add_0_r in Hfn.
    rewrite (retryLoop_transient _ _ _ e Hfn Ht) by lia.
    destruct (IH remaining (S attempt) (Some e)) as (le' & Heq).
    + lia.
    + lia.
    + intros j Hj. destruct (Hprev (S j) ltac:(lia)) as (e' & He' & Ht').
      exists e'. split; [|exact Ht'].
      now replace (S attempt + j) with (attempt + S j) by lia.
    + exists le'. rewrite Heq.
      replace (S attempt + k) with (attempt + S k) by lia.
      simpl. unfold prepend. simpl. reflexivity.
Qed.

Lemma retryRequest_backoff (k : nat) :
  k < maxRetries ->
  (forall j, j < k -> exists e, fn j = Rejected e /\ transient e = true) ->
  exists lastError,
    retryRequest fn maxRetries retryDelay =
    prepend (backoff retryDelay k)
      (retryLoop fn maxRetries retryDelay (S (maxRetries - S k)) k lastError).
Proof.
  intros Hk Hprev.
  destruct (retryLoop_backoff k maxRetries 0 None) as (le & Heq);
    [lia | lia | exact Hprev |].
  exists le. unfold retryRequest. rewrite Heq. unfold backoff. simpl.
  now replace (maxRetries - k) with (S (maxRetries - S k)) by lia.
Qed.

End PolicyFacts.

Definition alwaysRefused : nat -> Outcome unit :=
  fun _ => Rejected refused.
Definition alwaysUnavailable : nat -> Outcome unit :=
  fun _ => Rejected unavailable.

(** C8, as stated, fails on two points.  With three attempts, a delay of
    1000 and a server that always refuses the connection, there is no wait
    before attempt 0, the wait before attempt 1 is 1000 and the one before
    attempt 2 is 2000, not [1000 * 2^k]; and when every attempt gets a 503
    the error thrown after the last one carries the original message, not
    a translated one. *)
Lemma C8_delay_and_message_counterexample :
  delayBefore 0 (trace (retryRequest alwaysRefused 3 1000)) = None /\
  delayBefore 1 (trace (retryRequest alwaysRefused 3 1000)) = Some 1000 /\
  1000 <> 1000 * Nat.pow 2 1 /\
  delayBefore 2 (trace (retryRequest alwaysRefused 3 1000)) = Some 2000 /\
  2000 <> 1000 * Nat.pow 2 2 /\
  isRetryable unavailable = true /\
  retryRequest alwaysUnavailable 3 1000 =
  mkRun (inr (Original "Request failed with status code 503"))
        [Invoke 0; Wait 1000; Invoke 1; Wait 2000; Invoke 2].
Proof. simpl. repeat split; try reflexivity; discriminate. Qed.

(** C8, amended.  Suppose the calls of index [0 .. k-1] all failed with a
    transient error (connection refused, timeout, name not found or a
    status of 500 and more, and none of the fatal classes) and [k] is
    within [maxRetries].  Then call [k] is made after the calls and waits
    of [backoff]: no wait before call 0, and a wait of [retryDelay * 2^j]
    after failed call [j].  If call [k] succeeds its value is returned.  If
    it fails with status 401, status 403 or a certificate error, the
    translated message is thrown at once and [fn] is not called again.  If
    it fails with an error of no known class, the original message is
    thrown at once.  If it fails with a transient error on the last
    attempt, the thrown message is the translated one for ECONNREFUSED,
    ETIMEDOUT and ENOTFOUND and the original one otherwise (a 5xx status);
    before the last attempt, the policy waits [retryDelay * 2^k] and makes
    call [k + 1]. *)
Theorem C8_retryRequest_classification {T : Type}
  (fn : nat -> Outcome T) (maxRetries retryDelay k : nat)
  (Hk : k < maxRetries)
  (Hprev : forall j, j < k ->
             exists e, fn j = Rejected e /\ transient e = true) :
  let run := retryRequest fn maxRetries retryDelay in
  let here := backoff retryDelay k ++ [Invoke k] in
  (forall v, fn k = Resolved v -> run = mkRun (inl v) here) /\
  (forall e, fn k = Rejected e ->
     (authRejected e = true -> run = mkRun (inr TokenInvalid) here) /\
     (authDenied e = true -> run = mkRun (inr AccessDenied) here) /\
     (certificate e = true -> run = mkRun (inr CertificateFailure) here) /\
     (unexpected e = true -> run = mkRun (inr (Original (message e))) here) /\
     (transient e = true -> S k = maxRetries ->
        run = mkRun (inr (friendlyMessage e)) here /\
        (codeIs e "ECONNREFUSED" = true -> friendlyMessage e = CannotConnect) /\
        (codeIs e "ECONNREFUSED" = false -> codeIs e "ETIMEDOUT" = true ->
           friendlyMessage e = ConnectTimeout) /\
        (codeIs e "ECONNREFUSED" = false -> codeIs e "ETIMEDOUT" = false ->
         codeIs e "ENOTFOUND" = true -> friendlyMessage e = CannotResolve) /\
        (codeIs e "ECONNREFUSED" = false -> codeIs e "ETIMEDOUT" = false ->
         codeIs e "ENOTFOUND" = false ->
           friendlyMessage e = Original (message e))) /\
     (transient e = true -> S k < maxRetries ->
        firstn (2 * k + 3) (trace run) =
        here ++ [Wait (retryDelay * Nat.pow 2 k); Invoke (S k)])).
Proof.
  intros run here.
  destruct (retryRequest_backoff fn maxRetries retryDelay k Hk Hprev)
    as (le & Hrun).
  fold run in Hrun.
  pose proof (backoff_length retryDelay k) as Hlen.
  split.
  { intros v Hv. rewrite Hrun. simpl. rewrite Hv. reflexivity. }
  intros e He. rewrite Hrun.
  unfold authRejected, authDenied, certificate, unexpected.
  repeat split.
  - intros H. simpl. now rewrite He, H.
  - intros H. apply andb_true_iff in H as [H1 H2].
    apply negb_true_iff in H1. simpl. now rewrite He, H1, H2.
  - intros H. repeat (apply andb_true_iff in H as [H ?]).
    repeat match goal with
           | X : negb _ = true |- _ => apply negb_true_iff in X
           end.
    simpl. rewrite He.
    repeat match goal with X : _ = _ |- _ => rewrite X end. reflexivity.
  - intros H. repeat (apply andb_true_iff in H as [H ?]).
    repeat match goal with
           | X : negb _ = true |- _ => apply negb_true_iff in X
           end.
    simpl. rewrite He.
    assert (Hf : friendlyMessage e = Original (message e)).
    { unfold friendlyMessage. unfold isRetryable in *.
      repeat match goal with
             | X : _ || _ = false |- _ => apply orb_false_iff in X as [X ?]
             end.
      repeat match goal with X : codeIs _ _ = _ |- _ => rewrite X end.
      reflexivity. }
    repeat match goal with X : statusIs _ _ = _ |- _ => rewrite X end.
    repeat match goal with X : isCertificateError _ = _ |- _ => rewrite X end.
    repeat match goal with X : isRetryable _ = _ |- _ => rewrite X end.
    simpl. now rewrite Hf.
  - apply transient_inv in H as (H1 & H2 & H3 & H4).
    simpl. rewrite He, H1, H2, H3, H4. simpl.
    replace (k =? maxRetries - 1) with true
      by (symmetry; apply Nat.eqb_eq; lia).
    reflexivity.
  - intros Hc. unfold friendlyMessage. now rewrite Hc.
  - intros H1 H2. unfold friendlyMessage. now rewrite H1, H2.
  - intros H1 H2 H3. unfold friendlyMessage. now rewrite H1, H2, H3.
  - intros H1 H2 H3. unfold friendlyMessage. now rewrite H1, H2, H3.
  - intros Ht Hlt.
    rewrite (retryLoop_transient fn maxRetries retryDelay _ _ _ e He Ht Hlt).
    destruct (maxRetries - S k) as [|r] eqn:Er; [lia|].
    cbn [retryLoop]. unfold prepend, emit. cbn [trace result].
    subst here. rewrite <- app_assoc. cbn [app].
    rewrite firstn_app, Hlen.
    rewrite firstn_all2 by lia.
    replace (2 * k + 3 - 2 * k) with 3 by lia. reflexivity.
Qed.

Lemma C8_retryRequest_classification_witness :
  retryRequest (T := unit) (fun _ => Rejected refused) 3 1000 =
  mkRun (inr CannotConnect)
        [Invoke 0; Wait 1000; Invoke 1; Wait 2000; Invoke 2].
Proof.
  assert (Hk : 2 < 3) by lia.
  assert (Hprev : forall j, j < 2 ->
            exists e, (fun _ : nat => @Rejected unit refused) j = Rejected e /\
                      transient e = true).
  { intros j _. exists refused. split; reflexivity. }
  pose proof (C8_retryRequest_classification
                (T := unit) (fun _ => Rejected refused) 3 1000 2 Hk Hprev)
    as H.
  destruct H as [_ H].
  destruct (H refused eq_refl) as (_ & _ & _ & _ & Hlast & _).
  destruct (Hlast eq_refl eq_refl) as [Hrun _].
  exact Hrun.
Defined.

End Retry.

(* ================================================================== *)
(** * The index store and the reconciler *)
(* ================================================================== *)

Record IndexStore : Type := mkStore {
  version : nat;
  blob_names : list string;
  file_map : Js.dict (list string)
}.

(** The backing document of the store as [loadIndexStore] tells the cases
    apart: absent, unreadable, the legacy bare array, or the current
    shape. *)
Inductive Document : Type :=
| Missing
| Malformed
| Legacy (names : list string)
| Stored (store : IndexStore).

Definition loadIndexStore (doc : Document) : IndexStore :=
  match doc with
  | Missing => mkStore 1 [] []
  | Malformed => mkStore 1 [] []
  | Legacy names => mkStore 1 names []
  | Stored store => store
  end.

Record Stats : Type := mkStats {
  total_blobs : nat;
  existing_blobs : nat;
  new_blobs : nat
}.

Record IndexResult : Type := mkResult {
  status : string;
  message : string;
  stats : option Stats
}.

(** [result.stats?.new_blobs]. *)
Definition new_blobs_of (r : IndexResult) : option nat :=
  option_map new_blobs (stats r).

(** What an operation returns: its result and the store it handed to
    [saveIndexStore], if it got that far. *)
Definition Outcome : Type := IndexResult * option IndexStore.

(** The document after an operation. *)
Definition documentAfter (doc : Document) (o : Outcome) : Document :=
  match snd o with
  | Some store => Stored store
  | None => doc
  end.

Definition collectBlobNames (fileMap : Js.dict (list string)) : list string :=
  fold_left (fun names hashes => fold_left Js.add hashes names)
            (Js.values fileMap) [].

(** [reason || fallback]. *)
Definition orElse (reason fallback : string) : string :=
  if String.eqb reason "" then fallback else reason.

Definition removeFileFromIndex (relativePath reason : string)
    (doc : Document) : Outcome :=
  let store := loadIndexStore doc in
  match Js.get (file_map store) relativePath with
  | None => (mkResult "skipped" (orElse reason "File not indexed") None, None)
  | Some _ =>
      let nextFileMap := Js.remove (file_map store) relativePath in
      let nextStore :=
        mkStore 1 (collectBlobNames nextFileMap) nextFileMap in
      (mkResult "success" (orElse reason "Index updated") None,
       Some nextStore)
  end.

(** What [retryRequest] of one [batch-upload] call comes to: it throws, or
    it returns a body whose [blob_names] (an absent one reads as empty) is
    the list given. *)
Inductive Response : Type :=
| Threw
| Returned (names : list string).

(** The remote store: its answer to batch [batchIdx] (from 0) with the
    blobs sent. *)
Definition Server : Type := nat -> list (option Blob) -> Response.

(** The check of the names returned for a batch against the expected ones:
    not empty, as many distinct names, and every expected one returned. *)
Definition verifyBatch (expectedBatchNames batchBlobNames : list string)
    : bool :=
  if List.length batchBlobNames =? 0 then false
  else
    let expectedSet := Js.mkSet expectedBatchNames in
    let returnedSet := Js.mkSet batchBlobNames in
    if negb (List.length expectedSet =? List.length returnedSet) then false
    else forallb (fun hash => Js.has hash returnedSet) expectedSet.

Section Reconciler.

Variable batchSize : nat.
Variable maxLinesPerBlob : nat.

(** The batch of index [batchIdx]: the blobs sent and the names expected. *)
Definition batchOf {A} (l : list A) (total batchIdx : nat) : list A :=
  let startIdx := batchIdx * batchSize in
  let endIdx := Nat.min (startIdx + batchSize) total in
  Js.slice l startIdx endIdx.

(** The names a batch adds to [uploadedBlobNames]; [None] when the batch
    fails (the call threw, nothing was returned, or the names differ). *)
Definition uploadBatch (server : Server)
    (blobsToUpload : list (option Blob)) (hashesToUpload : list string)
    (batchIdx : nat) : option (list string) :=
  let total := List.length blobsToUpload in
  let batchBlobs := batchOf blobsToUpload total batchIdx in
  let expectedBatchNames := batchOf hashesToUpload total batchIdx in
  match server batchIdx batchBlobs with
  | Threw => None
  | Returned batchBlobNames =>
      if verifyBatch expectedBatchNames batchBlobNames
      then Some batchBlobNames else None
  end.

(** The upload loop: [uploadedBlobNames] and [failedBatches] (numbered
    from 1) after all batches. *)
Definition uploadAll (server : Server)
    (blobsToUpload : list (option Blob)) (hashesToUpload : list string)
    : list string * list nat :=
  let totalBatches := Js.ceilDiv (List.length blobsToUpload) batchSize in
  fold_left
    (fun (st : list string * list nat) batchIdx =>
       match uploadBatch server blobsToUpload hashesToUpload batchIdx with
       | Some batchBlobNames => (fst st ++ batchBlobNames, snd st)
       | None => (fst st, snd st ++ [batchIdx + 1])
       end)
    (seq 0 totalBatches) ([], []).

(** One step of the hashing loop of [indexProject]. *)
Definition hashBlob (st : Js.dict Blob * Js.dict (list string)) (blob : Blob)
    : Js.dict Blob * Js.dict (list string) :=
  let '(blobHashMap, nextFileMap) := st in
  let blobHash := calculateBlobName (path blob) (content blob) in
  let blobHashMap := Js.set blobHashMap blobHash blob in
  let nextFileMap :=
    match Js.get nextFileMap (sourcePath blob) with
    | None => Js.set nextFileMap (sourcePath blob) []
    | Some _ => nextFileMap
    end in
  let hashes :=
    match Js.get nextFileMap (sourcePath blob) with
    | Some hashes => hashes
    | None => []
    end in
  (blobHashMap, Js.set nextFileMap (sourcePath blob) (hashes ++ [blobHash])).

(** The filtering loop of [indexProject]. *)
Definition filterFileMap (availableBlobNames : list string)
    (nextFileMap : Js.dict (list string)) : Js.dict (list string) :=
  fold_left
    (fun filteredFileMap filePath =>
       let hashes :=
         filter (fun hash => Js.has hash availableBlobNames)
                match Js.get nextFileMap filePath with
                | Some hashes => hashes
                | None => []
                end in
       if 0 <? List.length hashes
       then Js.set filteredFileMap filePath hashes
       else filteredFileMap)
    (Js.keys nextFileMap) [].

(** The candidate digests of a run and their partition against the loaded
    store: [allBlobHashes], [existingHashes] and [newHashes]. *)
Definition hashAll (blobs : list Blob)
    : Js.dict Blob * Js.dict (list string) :=
  fold_left hashBlob blobs ([], []).

Definition allBlobHashesOf (blobs : list Blob) : list string :=
  Js.mkSet (Js.keys (fst (hashAll blobs))).

Definition existingHashesOf (blobs : list Blob) (store : IndexStore)
    : list string :=
  let existingBlobNames := Js.mkSet (blob_names store) in
  Js.mkSet (filter (fun hash => Js.has hash existingBlobNames)
                   (allBlobHashesOf blobs)).

Definition newHashesOf (blobs : list Blob) (store : IndexStore)
    : list string :=
  let existingBlobNames := Js.mkSet (blob_names store) in
  filter (fun hash => negb (Js.has hash existingBlobNames))
         (allBlobHashesOf blobs).

Definition blobsToUploadOf (blobs : list Blob) (store : IndexStore)
    : list (option Blob) :=
  map (fun hash => Js.get (fst (hashAll blobs)) hash)
      (newHashesOf blobs store).

(** [indexProject] on the blobs [collectFiles] returned. *)
Definition indexProject (blobs : list Blob) (doc : Document)
    (server : Server) : Outcome :=
  if List.length blobs =? 0 then
    (mkResult "error" "No text files found in project" None, None)
  else
    let store := loadIndexStore doc in
    let nextFileMap := snd (hashAll blobs) in
    let existingHashes := existingHashesOf blobs store in
    let newHashes := newHashesOf blobs store in
    let blobsToUpload := blobsToUploadOf blobs store in
    let '(uploadedBlobNames, failedBatches) :=
      if 0 <? List.length blobsToUpload
      then uploadAll server blobsToUpload newHashes
      else ([], []) in
    if (0 <? List.length blobsToUpload) &&
       (List.length uploadedBlobNames =? 0) &&
       (List.length existingHashes =? 0)
    then
      (mkResult "error" "All batches failed on first indexing" None, None)
    else
      let availableBlobNames :=
        Js.mkSet (existingHashes ++ uploadedBlobNames) in
      let filteredFileMap := filterFileMap availableBlobNames nextFileMap in
      let nextStore := mkStore 1 availableBlobNames filteredFileMap in
      let message :=
        "Indexed " +++ Js.ofNat (List.length availableBlobNames) +++
        " blobs (existing: " +++ Js.ofNat (List.length existingHashes) +++
        ", new: " +++ Js.ofNat (List.length uploadedBlobNames) +++ ")" in
      (mkResult
         (if List.length failedBatches =? 0
          then "success" else "partial_success")
         message
         (Some (mkStats (List.length availableBlobNames)
                        (List.length existingHashes)
                        (List.length uploadedBlobNames))),
       Some nextStore).

(** [collectFiles] on the files the walk keeps (regular, inside the root,
    not excluded, of an allowed extension, readable), in walk order, each
    with its relative path and decoded content. *)
Definition collectFiles (files : list (string * string)) : list Blob :=
  flat_map (fun f => splitFileContent maxLinesPerBlob (fst f) (snd f)) files.

(** What [indexFile] finds out about the file it is given: the path
    relative to the root, the verdict of the ignore filter, whether the
    extension is allowed, whether a regular file is there, and its decoded
    content. *)
Record FileInfo : Type := mkFileInfo {
  relative : string;
  excluded : bool;
  allowed : bool;
  isFile : bool;
  text : string
}.

(** [toRelativePath]. *)
Definition toRelativePath (relativePath : string) : option string :=
  if Js.startsWith ".." relativePath then None else Some relativePath.

(** [a.length === b.length && a.every((h, i) => h === b[i])]. *)
Definition sameHashes (a b : list string) : bool :=
  (List.length a =? List.length b) &&
  forallb (fun p => String.eqb (fst p) (snd p)) (combine a b).

(** The digests of the blobs of one file, [nextHashes], and the map from
    digest to blob. *)
Definition hashFile (fileBlobs : list Blob)
    : Js.dict Blob * list string :=
  fold_left
    (fun (st : Js.dict Blob * list string) blob =>
       let blobHash := calculateBlobName (path blob) (content blob) in
       (Js.set (fst st) blobHash blob, snd st ++ [blobHash]))
    fileBlobs ([], []).

Definition hashesToUploadOf (nextHashes : list string) (store : IndexStore)
    : list string :=
  let existingBlobNames := Js.mkSet (blob_names store) in
  filter (fun hash => negb (Js.has hash existingBlobNames)) nextHashes.

(** [hashesToUpload.map(h => blobHashMap.get(h)!).filter(Boolean)]. *)
Definition presentBlobs (blobHashMap : Js.dict Blob)
    (hashesToUpload : list string) : list (option Blob) :=
  filter (fun b => match b with Some _ => true | None => false end)
         (map (fun hash => Js.get blobHashMap hash) hashesToUpload).

Definition indexFile (file : FileInfo) (doc : Document) (server : Server)
    : Outcome :=
  match toRelativePath (relative file) with
  | None => (mkResult "skipped" "File is outside project root" None, None)
  | Some relativePath =>
    if String.eqb relativePath "" then
      (mkResult "skipped" "File is outside project root" None, None)
    else if excluded file then
      removeFileFromIndex relativePath "File excluded from index" doc
    else if negb (allowed file) then
      removeFileFromIndex relativePath "File extension not indexed" doc
    else if negb (isFile file) then
      removeFileFromIndex relativePath "File not found" doc
    else
      let fileBlobs :=
        splitFileContent maxLinesPerBlob relativePath (text file) in
      let '(blobHashMap, nextHashes) := hashFile fileBlobs in
      let store := loadIndexStore doc in
      let previousHashes :=
        match Js.get (file_map store) relativePath with
        | Some hashes => hashes
        | None => []
        end in
      if sameHashes previousHashes nextHashes then
        (mkResult "success" "No changes detected" None, None)
      else
        let hashesToUpload := hashesToUploadOf nextHashes store in
        let blobsToUpload := presentBlobs blobHashMap hashesToUpload in
        let failedBatches :=
          if 0 <? List.length blobsToUpload
          then snd (uploadAll server blobsToUpload hashesToUpload)
          else [] in
        if 0 <? List.length failedBatches then
          (mkResult "error" "File indexing failed" None, None)
        else
          let nextFileMap := Js.set (file_map store) relativePath nextHashes in
          let nextStore :=
            mkStore 1 (collectBlobNames nextFileMap) nextFileMap in
          (mkResult "success" ("Indexed file " +++ relativePath) None,
           Some nextStore)
  end.

End Reconciler.

(* ------------------------------------------------------------------ *)
(** ** Sets and dictionaries *)
(* ------------------------------------------------------------------ *)

Section JsFacts.

Lemma has_In (x : string) (s : list string) :
  Js.has x s = true <-> In x s.
Proof.
  unfold Js.has. rewrite existsb_exists. split.
  - intros (y & Hy & E). apply String.eqb_eq in E. now subst.
  - intros H. exists x. split; [exact H | apply String.eqb_refl].
Qed.

Lemma has_false (x : string) (s : list string) :
  Js.has x s = false <-> ~ In x s.
Proof.
  rewrite <- has_In. destruct (Js.has x s); split; intros; congruence.
Qed.

Lemma add_In (s : list string) (x y : string) :
  In y (Js.add s x) <-> In y s \/ y = x.
Proof.
  unfold Js.add. destruct (Js.has x s) eqn:E.
  - apply has_In in E. split; [auto | intros [H | ->]; assumption].
  - rewrite in_app_iff. simpl. intuition.
Qed.

Lemma add_NoDup (s : list string) (x : string) :
  NoDup s -> NoDup (Js.add s x).
Proof.
  intros Hs. unfold Js.add. destruct (Js.has x s) eqn:E; [exact Hs|].
  apply has_false in E.
  apply NoDup_app; [exact Hs | repeat constructor; auto |].
  intros a Ha [-> | []]. contradiction.
Qed.

Lemma fold_add_In (l s : list string) (y : string) :
  In y (fold_left Js.add l s) <-> In y s \/ In y l.
Proof.
  revert s. induction l as [|x l IH]; intros s; simpl.
  - intuition.
  - rewrite IH, add_In. intuition.
Qed.

Lemma fold_add_NoDup (l s : list string) :
  NoDup s -> NoDup (fold_left Js.add l s).
Proof.
  revert s. induction l as [|x l IH]; intros s Hs; simpl; [exact Hs|].
  apply IH, add_NoDup, Hs.
Qed.

Lemma fold_add_fresh (l s : list string) :
  NoDup (s ++ l) -> fold_left Js.add l s = s ++ l.
Proof.
  revert s. induction l as [|x l IH]; intros s H; simpl.
  - now rewrite app_nil_r.
  - assert (Hx : Js.has x s = false).
    { apply has_false. intros Hin.
      apply NoDup_remove_2 in H. apply H, in_or_app. now left. }
    unfold Js.add at 2. rewrite Hx.
    rewrite IH; rewrite <- app_assoc; [reflexivity | exact H].
Qed.

Lemma mkSet_In (l : list string) (y : string) : In y (Js.mkSet l) <-> In y l.
Proof. unfold Js.mkSet. rewrite fold_add_In. simpl. intuition. Qed.

Lemma mkSet_NoDup (l : list string) : NoDup (Js.mkSet l).
Proof. apply fold_add_NoDup. constructor. Qed.

Lemma mkSet_fresh (l : list string) : NoDup l -> Js.mkSet l = l.
Proof. intros H. unfold Js.mkSet. now rewrite fold_add_fresh. Qed.

Lemma mkSet_nil (l : list string) : Js.mkSet l = [] <-> l = [].
Proof.
  split; [|now intros ->].
  intros H. destruct l as [|x l]; [reflexivity|].
  assert (Hx : In x (Js.mkSet (x :: l))) by (apply mkSet_In; now left).
  rewrite H in Hx. destruct Hx.
Qed.

Context {V : Type}.

Lemma get_set_same (d : Js.dict V) (k : string) (v : V) :
  Js.get (Js.set d k v) k = Some v.
Proof.
  induction d as [|[k' v'] d IH]; simpl.
  - now rewrite String.eqb_refl.
  - destruct (String.eqb k k') eqn:E; simpl; rewrite E;
      [reflexivity | exact IH].
Qed.

Lemma get_set_other (d : Js.dict V) (k k' : string) (v : V) :
  k' <> k -> Js.get (Js.set d k v) k' = Js.get d k'.
Proof.
  intros Hne. induction d as [|[k0 v0] d IH]; simpl.
  - apply String.eqb_neq in Hne. now rewrite Hne.
  - destruct (String.eqb k k0) eqn:E; simpl.
    + apply String.eqb_eq in E. subst k0.
      apply String.eqb_neq in Hne. now rewrite Hne.
    + destruct (String.eqb k' k0); [reflexivity | exact IH].
Qed.

Lemma get_In (d : Js.dict V) (k : string) (v : V) :
  Js.get d k = Some v -> In (k, v) d.
Proof.
  induction d as [|[k' v'] d IH]; simpl; [discriminate|].
  destruct (String.eqb k k') eqn:E.
  - apply String.eqb_eq in E. intros [= ->]. subst. now left.
  - intros H. right. now apply IH.
Qed.

Lemma get_None (d : Js.dict V) (k : string) :
  Js.get d k = None <-> ~ In k (Js.keys d).
Proof.
  induction d as [|[k' v'] d IH]; simpl; [intuition|].
  destruct (String.eqb k k') eqn:E.
  - apply String.eqb_eq in E. subst. split; [discriminate | intuition].
  - apply String.eqb_neq in E. rewrite IH. intuition congruence.
Qed.

Lemma In_get (d : Js.dict V) (k : string) (v : V) :
  NoDup (Js.keys d) -> In (k, v) d -> Js.get d k = Some v.
Proof.
  induction d as [|[k' v'] d IH]; simpl; [intuition|].
  intros Hnd [[= -> ->] | Hin].
  - now rewrite String.eqb_refl.
  - inversion Hnd as [|? ? Hk' Hnd']; subst.
    destruct (String.eqb k k') eqn:E.
    + apply String.eqb_eq in E. subst k'. exfalso. apply Hk'.
      apply (in_map fst) in Hin. exact Hin.
    + now apply IH.
Qed.

Lemma set_In (d : Js.dict V) (k : string) (v : V) :
  In (k, v) (Js.set d k v).
Proof.
  induction d as [|[k' v'] d IH]; simpl; [now left|].
  destruct (String.eqb k k') eqn:E.
  - apply String.eqb_eq in E. subst. now left.
  - now right.
Qed.

Lemma set_In_inv (d : Js.dict V) (k k' : string) (v v' : V) :
  In (k', v') (Js.set d k v) -> (k', v') = (k, v) \/ In (k', v') d.
Proof.
  induction d as [|[k0 v0] d IH]; simpl.
  - intros [H | []]. left. now symmetry.
  - destruct (String.eqb k k0) eqn:E.
    + apply String.eqb_eq in E. subst k0.
      intros [H | H]; [left; now symmetry | right; now right].
    + intros [H | H]; [right; now left|].
      destruct (IH H) as [H' | H']; [now left | right; now right].
Qed.

Lemma set_In_other (d : Js.dict V) (k k' : string) (v v' : V) :
  k' <> k -> In (k', v') d -> In (k', v') (Js.set d k v).
Proof.
  intros Hne. induction d as [|[k0 v0] d IH]; simpl; [intuition|].
  destruct (String.eqb k k0) eqn:E.
  - apply String.eqb_eq in E. subst k0.
    intros [[= <- <-] | H]; [congruence | now right].
  - intros [H | H]; [now left | right; now apply IH].
Qed.

Lemma set_keys (d : Js.dict V) (k : string) (v : V) :
  Js.keys (Js.set d k v) =
  if Js.has k (Js.keys d) then Js.keys d else Js.keys d ++ [k].
Proof.
  induction d as [|[k0 v0] d IH]; [reflexivity|].
  unfold Js.keys, Js.has in *. simpl.
  destruct (String.eqb k k0) eqn:E; simpl; [reflexivity|].
  rewrite IH. now destruct (existsb (String.eqb k) (map fst d)).
Qed.

Lemma set_fresh (d : Js.dict V) (k : string) (v : V) :
  ~ In k (Js.keys d) -> Js.set d k v = d ++ [(k, v)].
Proof.
  induction d as [|[k0 v0] d IH]; simpl; [reflexivity|].
  intros H. destruct (String.eqb k k0) eqn:E.
  - apply String.eqb_eq in E. subst. intuition.
  - rewrite IH; [reflexivity | intuition].
Qed.

Lemma set_keys_NoDup (d : Js.dict V) (k : string) (v : V) :
  NoDup (Js.keys d) -> NoDup (Js.keys (Js.set d k v)).
Proof.
  intros H. rewrite set_keys. fold (Js.add (Js.keys d) k).
  now apply add_NoDup.
Qed.

Lemma set_keys_In (d : Js.dict V) (k k' : string) (v : V) :
  In k' (Js.keys (Js.set d k v)) <-> In k' (Js.keys d) \/ k' = k.
Proof. rewrite set_keys. fold (Js.add (Js.keys d) k). apply add_In. Qed.

End JsFacts.

Lemma collectBlobNames_In (fileMap : Js.dict (list string)) (d : string) :
  In d (collectBlobNames fileMap) <->
  exists f hashes, In (f, hashes) fileMap /\ In d hashes.
Proof.
  unfold collectBlobNames, Js.values.
  assert (H : forall names,
    In d (fold_left (fun names hashes => fold_left Js.add hashes names)
                    (map snd fileMap) names) <->
    In d names \/ exists f hashes, In (f, hashes) fileMap /\ In d hashes).
  { induction fileMap as [|[f hs] fm IH]; intros names; simpl.
    - split; [auto | intros [H | (f & hs & [] & _)]; exact H].
    - rewrite IH, fold_add_In. split.
      + intros [[H | H] | (f' & hs' & Hin & Hd)].
        * now left.
        * right. exists f, hs. split; [now left | exact H].
        * right. exists f', hs'. split; [now right | exact Hd].
      + intros [H | (f' & hs' & [[= <- <-] | Hin] & Hd)].
        * left. now left.
        * left. now right.
        * right. exists f', hs'. now split. }
  rewrite H. simpl. intuition.
Qed.

(* ------------------------------------------------------------------ *)
(** ** The hashing loop *)
(* ------------------------------------------------------------------ *)

(** The digest of a blob. *)
Definition digestOf (blob : Blob) : string :=
  calculateBlobName (path blob) (content blob).

Definition getOr (d : Js.dict (list string)) (k : string) : list string :=
  match Js.get d k with
  | Some hashes => hashes
  | None => []
  end.

Lemma set_set {V} (d : Js.dict V) (k : string) (v v' : V) :
  Js.set (Js.set d k v) k v' = Js.set d k v'.
Proof.
  induction d as [|[k0 v0] d IH]; simpl.
  - now rewrite String.eqb_refl.
  - destruct (String.eqb k k0) eqn:E; simpl; rewrite E; [reflexivity|].
    now rewrite IH.
Qed.

Lemma hashBlob_fst hm fm blob :
  fst (hashBlob (hm, fm) blob) = Js.set hm (digestOf blob) blob.
Proof. reflexivity. Qed.

Lemma hashBlob_snd hm fm blob :
  snd (hashBlob (hm, fm) blob) =
  Js.set fm (sourcePath blob) (getOr fm (sourcePath blob) ++ [digestOf blob]).
Proof.
  unfold hashBlob, getOr. cbn [snd].
  destruct (Js.get fm (sourcePath blob)) eqn:E.
  - now rewrite E.
  - now rewrite get_set_same, set_set.
Qed.

Lemma hashAll_snoc (blobs : list Blob) (blob : Blob) :
  hashAll (blobs ++ [blob]) = hashBlob (hashAll blobs) blob.
Proof. unfold hashAll. now rewrite fold_left_app. Qed.

(** What the two maps hold after the loop. *)
Record hashed (blobs : list Blob)
    (hm : Js.dict Blob) (fm : Js.dict (list string)) : Prop := {
  hashed_keys : forall d,
    In d (Js.keys hm) <-> exists b, In b blobs /\ digestOf b = d;
  hashed_entry : forall f hashes,
    In (f, hashes) fm ->
    hashes <> [] /\
    forall d, In d hashes ->
      exists b, In b blobs /\ sourcePath b = f /\ digestOf b = d;
  hashed_blob : forall b,
    In b blobs ->
    exists hashes,
      Js.get fm (sourcePath b) = Some hashes /\ In (digestOf b) hashes;
  hashed_nodup : NoDup (Js.keys fm)
}.

Lemma hashAll_hashed (blobs : list Blob) :
  hashed blobs (fst (hashAll blobs)) (snd (hashAll blobs)).
Proof.
  induction blobs as [|blob blobs IH] using rev_ind.
  - split; simpl.
    + intros d. split; [intros [] | intros (b & [] & _)].
    + intros f hashes [].
    + intros b [].
    + constructor.
  - rewrite hashAll_snoc. destruct (hashAll blobs) as [hm fm].
    rewrite hashBlob_fst, hashBlob_snd. cbn [fst snd] in IH.
    destruct IH as [Hk He Hb Hn].
    split.
    + intros d. rewrite set_keys_In, Hk. split.
      * intros [(b & Hin & Hd) | ->].
        -- exists b. split; [apply in_or_app; now left | exact Hd].
        -- exists blob. split; [apply in_or_app; right; now left | reflexivity].
      * intros (b & Hin & Hd). apply in_app_or in Hin as [Hin | [-> | []]].
        -- left. now exists b.
        -- right. now symmetry.
    + intros f hashes Hin. apply set_In_inv in Hin as [[= -> ->] | Hin].
      * split; [now destruct (getOr fm (sourcePath blob))|].
        intros d Hd. apply in_app_or in Hd as [Hd | [<- | []]].
        -- unfold getOr in Hd.
           destruct (Js.get fm (sourcePath blob)) as [old|] eqn:E;
             [|destruct Hd].
           apply get_In in E. destruct (He _ _ E) as [_ Hall].
           destruct (Hall d Hd) as (b & Hb1 & Hb2 & Hb3).
           exists b. split; [apply in_or_app; now left | now split].
        -- exists blob.
           split; [apply in_or_app; right; now left | now split].
      * destruct (He _ _ Hin) as [Hne Hall]. split; [exact Hne|].
        intros d Hd. destruct (Hall d Hd) as (b & Hb1 & Hb2 & Hb3).
        exists b. split; [apply in_or_app; now left | now split].
    + intros b Hin. apply in_app_or in Hin as [Hin | [<- | []]].
      * destruct (Hb b Hin) as (hashes & Hg & Hd).
        destruct (string_dec (sourcePath b) (sourcePath blob)) as [E | E].
        -- rewrite E, get_set_same. eexists. split; [reflexivity|].
           apply in_or_app. left. unfold getOr. rewrite <- E, Hg. exact Hd.
        -- rewrite get_set_other by exact E. now exists hashes.
      * rewrite get_set_same. eexists. split; [reflexivity|].
        apply in_or_app. right. now left.
    + now apply set_keys_NoDup.
Qed.

Lemma allBlobHashes_In (blobs : list Blob) (d : string) :
  In d (allBlobHashesOf blobs) <-> exists b, In b blobs /\ digestOf b = d.
Proof.
  unfold allBlobHashesOf. rewrite mkSet_In.
  apply (hashed_keys _ _ _ (hashAll_hashed blobs)).
Qed.

Lemma allBlobHashes_NoDup (blobs : list Blob) :
  NoDup (allBlobHashesOf blobs).
Proof. apply mkSet_NoDup. Qed.

Lemma existingHashes_In blobs store d :
  In d (existingHashesOf blobs store) <->
  In d (allBlobHashesOf blobs) /\ In d (blob_names store).
Proof.
  unfold existingHashesOf.
  now rewrite mkSet_In, filter_In, has_In, mkSet_In.
Qed.

Lemma newHashes_In blobs store d :
  In d (newHashesOf blobs store) <->
  In d (allBlobHashesOf blobs) /\ ~ In d (blob_names store).
Proof.
  unfold newHashesOf.
  now rewrite filter_In, negb_true_iff, has_false, mkSet_In.
Qed.

(* ------------------------------------------------------------------ *)
(** ** The filtering loop *)
(* ------------------------------------------------------------------ *)

Section Filtering.

Variable available : list string.
Variable nextFileMap : Js.dict (list string).

(** The digests of a file that are available, in order. *)
Definition kept (filePath : string) : list string :=
  filter (fun hash => Js.has hash available) (getOr nextFileMap filePath).

Definition keepFile (filtered : Js.dict (list string)) (filePath : string)
    : Js.dict (list string) :=
  if 0 <? List.length (kept filePath)
  then Js.set filtered filePath (kept filePath)
  else filtered.

Lemma filterFileMap_fold :
  filterFileMap available nextFileMap =
  fold_left keepFile (Js.keys nextFileMap) [].
Proof. reflexivity. Qed.

Lemma kept_nonempty (filePath : string) :
  (0 <? List.length (kept filePath)) = true <-> kept filePath <> [].
Proof.
  rewrite Nat.ltb_lt. destruct (kept filePath); simpl; split;
    intros; try lia; congruence.
Qed.

Lemma keepFile_fold_inv (ks : list string) :
  forall acc,
    (forall k v, In (k, v) acc -> v = kept k /\ v <> []) ->
    NoDup (Js.keys acc) ->
    (forall k v, In (k, v) (fold_left keepFile ks acc) ->
                 (In k ks \/ In k (Js.keys acc)) /\ v = kept k /\ v <> []) /\
    (forall k, In k ks -> kept k <> [] ->
               In (k, kept k) (fold_left keepFile ks acc)) /\
    (forall k v, In (k, v) acc -> In (k, v) (fold_left keepFile ks acc)) /\
    NoDup (Js.keys (fold_left keepFile ks acc)).
Proof.
  induction ks as [|k0 ks IH]; intros acc Hacc Hnd; simpl.
  - repeat split; try tauto.
    + right. apply (in_map fst) in H. exact H.
    + now apply Hacc in H.
    + now apply Hacc in H.
  - assert (Hacc' : forall k v, In (k, v) (keepFile acc k0) ->
                                v = kept k /\ v <> []).
    { intros k v. unfold keepFile.
      destruct (0 <? List.length (kept k0)) eqn:E; [|apply Hacc].
      intros Hin. apply set_In_inv in Hin as [[= -> ->] | Hin].
      - split; [reflexivity | now apply kept_nonempty].
      - now apply Hacc. }
    assert (Hnd' : NoDup (Js.keys (keepFile acc k0))).
    { unfold keepFile. destruct (0 <? List.length (kept k0)); [|exact Hnd].
      now apply set_keys_NoDup. }
    assert (Hmono : forall k v, In (k, v) acc -> In (k, v) (keepFile acc k0)).
    { intros k v Hin. unfold keepFile.
      destruct (0 <? List.length (kept k0)) eqn:E; [|exact Hin].
      destruct (string_dec k k0) as [-> | Hne].
      - destruct (Hacc _ _ Hin) as [-> _]. apply set_In.
      - now apply set_In_other. }
    destruct (IH (keepFile acc k0) Hacc' Hnd') as (I1 & I2 & I3 & I4).
    repeat split.
    + destruct (I1 k v H) as [[Hk | Hk] _]; [left; now right|].
      unfold keepFile in Hk.
      destruct (0 <? List.length (kept k0)); [|now right].
      apply set_keys_In in Hk as [Hk | ->]; [now right | left; now left].
    + now apply I1 in H.
    + now apply I1 in H.
    + intros k [<- | Hk] Hne; [|now apply I2].
      apply I3. unfold keepFile.
      apply kept_nonempty in Hne. rewrite Hne. apply set_In.
    + intros k v Hin. now apply I3, Hmono.
    + exact I4.
Qed.

Lemma filterFileMap_In (k : string) (v : list string) :
  In (k, v) (filterFileMap available nextFileMap) ->
  In k (Js.keys nextFileMap) /\ v = kept k /\ v <> [].
Proof.
  rewrite filterFileMap_fold. intros H.
  destruct (keepFile_fold_inv (Js.keys nextFileMap) [])
    as (I1 & _); [intros ? ? [] | constructor |].
  destruct (I1 k v H) as [[Hk | []] Hv]. now split.
Qed.

Lemma filterFileMap_keeps (k : string) :
  In k (Js.keys nextFileMap) -> kept k <> [] ->
  In (k, kept k) (filterFileMap available nextFileMap).
Proof.
  rewrite filterFileMap_fold. intros Hk Hne.
  destruct (keepFile_fold_inv (Js.keys nextFileMap) [])
    as (_ & I2 & _); [intros ? ? [] | constructor |].
  now apply I2.
Qed.

Lemma filterFileMap_NoDup :
  NoDup (Js.keys (filterFileMap available nextFileMap)).
Proof.
  rewrite filterFileMap_fold.
  destruct (keepFile_fold_inv (Js.keys nextFileMap) [])
    as (_ & _ & _ & I4); [intros ? ? [] | constructor |].
  exact I4.
Qed.

(** The entry of a file after filtering: its available digests in order,
    and no entry when there is none. *)
Lemma filterFileMap_get (k : string) :
  Js.get (filterFileMap available nextFileMap) k =
  if 0 <? List.length (kept k) then Some (kept k) else None.
Proof.
  destruct (0 <? List.length (kept k)) eqn:E.
  - apply In_get; [apply filterFileMap_NoDup|].
    apply filterFileMap_keeps; [|now apply kept_nonempty].
    destruct (in_dec string_dec k (Js.keys nextFileMap)) as [H | H];
      [exact H|].
    apply get_None in H. apply kept_nonempty in E.
    exfalso. apply E. unfold kept, getOr. now rewrite H.
  - destruct (Js.get (filterFileMap available nextFileMap) k) as [v|] eqn:G;
      [|reflexivity].
    apply get_In, filterFileMap_In in G as (_ & -> & Hne).
    apply kept_nonempty in Hne. congruence.
Qed.

End Filtering.

(** When every digest is available the filter changes nothing. *)
Lemma filterFileMap_all (available : list string)
    (fm : Js.dict (list string)) :
  NoDup (Js.keys fm) ->
  (forall f hashes, In (f, hashes) fm ->
     hashes <> [] /\ forall d, In d hashes -> In d available) ->
  filterFileMap available fm = fm.
Proof.
  intros Hnd Hall. rewrite filterFileMap_fold.
  assert (Hkept : forall f hashes, In (f, hashes) fm ->
            kept available fm f = hashes).
  { intros f hashes Hin. unfold kept, getOr.
    rewrite (In_get _ _ _ Hnd Hin).
    apply forallb_filter_id, forallb_forall.
    intros d Hd. apply has_In. now apply (Hall f hashes Hin). }
  assert (H : forall l acc,
    NoDup (Js.keys acc ++ Js.keys l) ->
    (forall f hashes, In (f, hashes) l -> In (f, hashes) fm) ->
    fold_left (keepFile available fm) (Js.keys l) acc = acc ++ l).
  { induction l as [|[f hashes] l IH]; intros acc Hn Hsub; simpl.
    - now rewrite app_nil_r.
    - assert (Hin : In (f, hashes) fm) by (apply Hsub; now left).
      unfold keepFile at 2. rewrite (Hkept f hashes Hin).
      destruct (Hall f hashes Hin) as [Hne _].
      replace (0 <? List.length hashes) with true
        by (symmetry; apply Nat.ltb_lt; destruct hashes;
            [congruence | simpl; lia]).
      rewrite set_fresh.
      + rewrite IH.
        * now rewrite <- app_assoc.
        * unfold Js.keys in *. rewrite map_app, <- app_assoc. exact Hn.
        * intros f' h' H'. apply Hsub. now right.
      + simpl in Hn. apply NoDup_remove_2 in Hn.
        intros Hf. apply Hn, in_or_app. now left. }
  apply (H fm []); [exact Hnd | auto].
Qed.

(* ------------------------------------------------------------------ *)
(** ** The upload loop *)
(* ------------------------------------------------------------------ *)

(** A batch is accepted only with a non-empty answer that names exactly
    the expected digests. *)
Lemma verifyBatch_true (expected returned : list string) :
  verifyBatch expected returned = true ->
  returned <> [] /\ forall d, In d returned <-> In d expected.
Proof.
  unfold verifyBatch.
  destruct returned as [|r0 returned]; [discriminate|].
  cbn [List.length Nat.eqb].
  destruct (List.length (Js.mkSet expected) =?
            List.length (Js.mkSet (r0 :: returned))) eqn:E;
    [|discriminate].
  cbn [negb]. intros Hall. split; [discriminate|].
  apply Nat.eqb_eq in E. rewrite forallb_forall in Hall.
  assert (Hsub : incl (Js.mkSet expected) (Js.mkSet (r0 :: returned))).
  { intros d Hd. apply has_In. now apply Hall. }
  assert (Hsup : incl (Js.mkSet (r0 :: returned)) (Js.mkSet expected)).
  { apply NoDup_length_incl; [apply mkSet_NoDup | lia | exact Hsub]. }
  intros d. rewrite <- (mkSet_In (r0 :: returned)), <- (mkSet_In expected).
  split; [apply Hsup | apply Hsub].
Qed.

Section Upload.

Variable batchSize : nat.
Variable server : Server.
Variable blobsToUpload : list (option Blob).
Variable hashesToUpload : list string.

Let attempt := uploadBatch batchSize server blobsToUpload hashesToUpload.

Definition uploadStep (st : list string * list nat) (batchIdx : nat)
    : list string * list nat :=
  match attempt batchIdx with
  | Some batchBlobNames => (fst st ++ batchBlobNames, snd st)
  | None => (fst st, snd st ++ [batchIdx + 1])
  end.

Lemma uploadAll_fold :
  uploadAll batchSize server blobsToUpload hashesToUpload =
  fold_left uploadStep
    (seq 0 (Js.ceilDiv (List.length blobsToUpload) batchSize)) ([], []).
Proof. reflexivity. Qed.

Lemma uploadStep_fold (ks : list nat) :
  forall st,
    (forall d, In d (fst (fold_left uploadStep ks st)) <->
       In d (fst st) \/
       exists k names, In k ks /\ attempt k = Some names /\ In d names) /\
    (forall n, In n (snd (fold_left uploadStep ks st)) <->
       In n (snd st) \/ exists k, In k ks /\ attempt k = None /\ n = k + 1).
Proof.
  induction ks as [|k ks IH]; intros st; simpl.
  - split; intros x; split; auto.
    + intros [H | (? & ? & [] & _)]. exact H.
    + intros [H | (? & [] & _)]. exact H.
  - destruct (IH (uploadStep st k)) as [I1 I2]. split.
    + intros d. rewrite I1. unfold uploadStep.
      destruct (attempt k) as [names|] eqn:E; cbn [fst].
      * rewrite in_app_iff. split.
        -- intros [[H | H] | (k' & n' & Hk & Ha & Hd)].
           ++ now left.
           ++ right. exists k, names. auto.
           ++ right. exists k', n'. auto.
        -- intros [H | (k' & n' & [<- | Hk] & Ha & Hd)].
           ++ left. now left.
           ++ left. right. congruence.
           ++ right. exists k', n'. auto.
      * split.
        -- intros [H | (k' & n' & Hk & Ha & Hd)]; [now left|].
           right. exists k', n'. auto.
        -- intros [H | (k' & n' & [<- | Hk] & Ha & Hd)]; [now left | |].
           ++ congruence.
           ++ right. exists k', n'. auto.
    + intros n. rewrite I2. unfold uploadStep.
      destruct (attempt k) as [names|] eqn:E; cbn [snd].
      * split.
        -- intros [H | (k' & Hk & Ha & Hn)]; [now left|].
           right. exists k'. auto.
        -- intros [H | (k' & [<- | Hk] & Ha & Hn)]; [now left | |].
           ++ congruence.
           ++ right. exists k'. auto.
      * rewrite in_app_iff. split.
        -- intros [[H | [<- | []]] | (k' & Hk & Ha & Hn)].
           ++ now left.
           ++ right. exists k. auto.
           ++ right. exists k'. auto.
        -- intros [H | (k' & [<- | Hk] & Ha & Hn)].
           ++ left. now left.
           ++ left. right. left. now symmetry.
           ++ right. exists k'. auto.
Qed.

Definition totalBatches : nat :=
  Js.ceilDiv (List.length blobsToUpload) batchSize.

(** [uploadedBlobNames] holds the names returned for the accepted
    batches. *)
Lemma uploaded_In (d : string) :
  In d (fst (uploadAll batchSize server blobsToUpload hashesToUpload)) <->
  exists k names,
    k < totalBatches /\ attempt k = Some names /\ In d names.
Proof.
  rewrite uploadAll_fold.
  destruct (uploadStep_fold (seq 0 totalBatches) ([], [])) as [I1 _].
  fold totalBatches. rewrite I1. cbn [fst]. split.
  - intros [[] | (k & names & Hk & Ha & Hd)].
    exists k, names. apply in_seq in Hk. repeat split; [lia | auto | auto].
  - intros (k & names & Hk & Ha & Hd). right. exists k, names.
    repeat split; auto. apply in_seq. lia.
Qed.

(** [failedBatches] holds the numbers of the batches that failed. *)
Lemma failed_In (n : nat) :
  In n (snd (uploadAll batchSize server blobsToUpload hashesToUpload)) <->
  exists k, k < totalBatches /\ attempt k = None /\ n = k + 1.
Proof.
  rewrite uploadAll_fold.
  destruct (uploadStep_fold (seq 0 totalBatches) ([], [])) as [_ I2].
  fold totalBatches. rewrite I2. cbn [snd]. split.
  - intros [[] | (k & Hk & Ha & Hn)].
    exists k. apply in_seq in Hk. repeat split; [lia | auto | auto].
  - intros (k & Hk & Ha & Hn). right. exists k.
    repeat split; auto. apply in_seq. lia.
Qed.

Lemma attempt_names (k : nat) (names : list string) :
  attempt k = Some names ->
  names <> [] /\
  forall d, In d names <->
    In d (batchOf batchSize hashesToUpload (List.length blobsToUpload) k).
Proof.
  unfold attempt, uploadBatch.
  destruct (server k _) as [|returned]; [discriminate|].
  destruct (verifyBatch _ returned) eqn:E; [|discriminate].
  intros [= <-]. now apply verifyBatch_true.
Qed.

Lemma batchOf_incl {A} (l : list A) (total k : nat) (x : A) :
  In x (batchOf batchSize l total k) -> In x l.
Proof.
  unfold batchOf. apply slice_In.
Qed.

(** Every uploaded name is one of the digests to upload. *)
Lemma uploaded_expected (d : string) :
  In d (fst (uploadAll batchSize server blobsToUpload hashesToUpload)) ->
  In d hashesToUpload.
Proof.
  intros H. apply uploaded_In in H as (k & names & _ & Ha & Hd).
  apply attempt_names in Ha as [_ Ha]. apply Ha in Hd.
  now apply batchOf_incl in Hd.
Qed.

(** Nothing was uploaded exactly when every batch failed. *)
Lemma uploaded_nil :
  fst (uploadAll batchSize server blobsToUpload hashesToUpload) = [] <->
  forall k, k < totalBatches -> attempt k = None.
Proof.
  split.
  - intros H k Hk. destruct (attempt k) as [names|] eqn:E; [|reflexivity].
    destruct (attempt_names k names E) as [Hne _].
    destruct names as [|d names]; [congruence|].
    assert (Hd : In d (fst (uploadAll batchSize server blobsToUpload
                                      hashesToUpload))).
    { apply uploaded_In. exists k, (d :: names). repeat split; auto.
      now left. }
    rewrite H in Hd. destruct Hd.
  - intros H.
    destruct (fst (uploadAll batchSize server blobsToUpload hashesToUpload))
      as [|d l] eqn:E; [reflexivity|].
    assert (Hd : In d (fst (uploadAll batchSize server blobsToUpload
                                      hashesToUpload)))
      by (rewrite E; now left).
    apply uploaded_In in Hd as (k & names & Hk & Ha & _).
    rewrite (H k Hk) in Ha. discriminate.
Qed.

(** No batch is listed as failed exactly when every batch was accepted. *)
Lemma failed_nil :
  snd (uploadAll batchSize server blobsToUpload hashesToUpload) = [] <->
  forall k, k < totalBatches -> attempt k <> None.
Proof.
  split.
  - intros H k Hk E.
    assert (Hn : In (k + 1) (snd (uploadAll batchSize server blobsToUpload
                                            hashesToUpload)))
      by (apply failed_In; now exists k).
    rewrite H in Hn. destruct Hn.
  - intros H.
    destruct (snd (uploadAll batchSize server blobsToUpload hashesToUpload))
      as [|n l] eqn:E; [reflexivity|].
    assert (Hn : In n (snd (uploadAll batchSize server blobsToUpload
                                      hashesToUpload)))
      by (rewrite E; now left).
    apply failed_In in Hn as (k & Hk & Ha & _).
    now apply H in Hk.
Qed.

(** With batches of at least one blob, the batches cover the digests to
    upload. *)
Lemma batches_cover (d : string) :
  1 <= batchSize ->
  List.length hashesToUpload = List.length blobsToUpload ->
  In d hashesToUpload ->
  exists k, k < totalBatches /\
    In d (batchOf batchSize hashesToUpload (List.length blobsToUpload) k).
Proof.
  intros Hb Hlen Hd.
  pose proof (chunks_concat hashesToUpload batchSize totalBatches) as Hc.
  rewrite firstn_all2 in Hc
    by (unfold totalBatches; rewrite <- Hlen;
        apply (ceilDiv_bounds _ _ Hb)).
  rewrite <- Hc in Hd. apply in_concat in Hd as (chunk & Hin & Hd).
  apply in_map_iff in Hin as (k & <- & Hk). apply in_seq in Hk.
  exists k. split; [lia|]. unfold batchOf. now rewrite <- Hlen.
Qed.

End Upload.

(* ------------------------------------------------------------------ *)
(** ** Full-project reindex *)
(* ------------------------------------------------------------------ *)

Section Project.

Variable batchSize : nat.
Variable blobs : list Blob.
Variable doc : Document.
Variable server : Server.

Let store := loadIndexStore doc.

(** The outcome of the upload stage of the run (nothing when there is
    nothing to upload). *)
Definition uploadOf : list string * list nat :=
  if 0 <? List.length (blobsToUploadOf blobs store)
  then uploadAll batchSize server (blobsToUploadOf blobs store)
                 (newHashesOf blobs store)
  else ([], []).

Definition availableOf : list string :=
  Js.mkSet (existingHashesOf blobs store ++ fst uploadOf).

(** The run refuses to commit: there was something to upload, nothing was
    uploaded and no candidate digest was in the store. *)
Definition refuses : bool :=
  (0 <? List.length (blobsToUploadOf blobs store)) &&
  (List.length (fst uploadOf) =? 0) &&
  (List.length (existingHashesOf blobs store) =? 0).

Definition committedOf : IndexStore :=
  mkStore 1 availableOf (filterFileMap availableOf (snd (hashAll blobs))).

Lemma indexProject_cases :
  indexProject batchSize blobs doc server =
  if List.length blobs =? 0 then
    (mkResult "error" "No text files found in project" None, None)
  else if refuses then
    (mkResult "error" "All batches failed on first indexing" None, None)
  else
    (mkResult
       (if List.length (snd uploadOf) =? 0
        then "success" else "partial_success")
       ("Indexed " +++ Js.ofNat (List.length availableOf) +++
        " blobs (existing: " +++
        Js.ofNat (List.length (existingHashesOf blobs store)) +++
        ", new: " +++ Js.ofNat (List.length (fst uploadOf)) +++ ")")
       (Some (mkStats (List.length availableOf)
                      (List.length (existingHashesOf blobs store))
                      (List.length (fst uploadOf)))),
     Some committedOf).
Proof.
  unfold indexProject, refuses, committedOf, availableOf, uploadOf.
  fold store.
  destruct (List.length blobs =? 0); [reflexivity|].
  destruct (0 <? List.length (blobsToUploadOf blobs store)).
  - destruct (uploadAll batchSize server (blobsToUploadOf blobs store)
                        (newHashesOf blobs store)) as [up failed].
    reflexivity.
  - reflexivity.
Qed.

Lemma indexProject_committed (s : IndexStore) :
  snd (indexProject batchSize blobs doc server) = Some s ->
  s = committedOf /\ blobs <> [] /\ refuses = false.
Proof.
  rewrite indexProject_cases.
  destruct (List.length blobs =? 0) eqn:Eb; [discriminate|].
  destruct refuses; [discriminate|].
  cbn [snd]. intros [= <-]. repeat split.
  intros ->. discriminate.
Qed.

Lemma uploadOf_new (d : string) :
  In d (fst uploadOf) -> In d (newHashesOf blobs store).
Proof.
  unfold uploadOf.
  destruct (0 <? List.length (blobsToUploadOf blobs store));
    [apply uploaded_expected | intros []].
Qed.

Lemma availableOf_In (d : string) :
  In d availableOf <->
  In d (existingHashesOf blobs store) \/ In d (fst uploadOf).
Proof. unfold availableOf. now rewrite mkSet_In, in_app_iff. Qed.

Lemma availableOf_candidate (d : string) :
  In d availableOf -> exists b, In b blobs /\ digestOf b = d.
Proof.
  rewrite availableOf_In. intros [H | H].
  - apply existingHashes_In in H as [H _]. now apply allBlobHashes_In.
  - apply uploadOf_new, newHashes_In in H as [H _].
    now apply allBlobHashes_In.
Qed.

Lemma committedOf_entry (f : string) (hashes : list string) :
  In (f, hashes) (file_map committedOf) ->
  hashes = kept availableOf (snd (hashAll blobs)) f /\ hashes <> [] /\
  exists b, In b blobs /\ sourcePath b = f.
Proof.
  intros H. apply filterFileMap_In in H as (Hk & Hv & Hne).
  repeat split; [exact Hv | exact Hne |].
  unfold Js.keys in Hk. apply in_map_iff in Hk as ([f' hs] & <- & Hin).
  destruct (hashed_entry _ _ _ (hashAll_hashed blobs) _ _ Hin) as [Hn Hall].
  destruct hs as [|d hs]; [congruence|].
  destruct (Hall d (or_introl eq_refl)) as (b & Hb & Hs & _).
  now exists b.
Qed.

Lemma committedOf_consistent (d : string) :
  In d (blob_names committedOf) <->
  exists f hashes, In (f, hashes) (file_map committedOf) /\ In d hashes.
Proof.
  cbn [blob_names committedOf]. split.
  - intros Hd. destruct (availableOf_candidate d Hd) as (b & Hb & Hdig).
    destruct (hashed_blob _ _ _ (hashAll_hashed blobs) b Hb)
      as (hashes & Hget & Hin).
    rewrite Hdig in Hin.
    assert (Hk : In d (kept availableOf (snd (hashAll blobs))
                            (sourcePath b))).
    { unfold kept, getOr. rewrite Hget. apply filter_In.
      split; [exact Hin | now apply has_In]. }
    exists (sourcePath b), (kept availableOf (snd (hashAll blobs))
                                 (sourcePath b)).
    split; [|exact Hk].
    apply filterFileMap_keeps.
    + apply get_In in Hget. apply (in_map fst) in Hget. exact Hget.
    + intros E. rewrite E in Hk. destruct Hk.
  - intros (f & hashes & Hin & Hd).
    apply committedOf_entry in Hin as (-> & _).
    unfold kept in Hd. apply filter_In in Hd as [_ Hd]. now apply has_In.
Qed.

End Project.

(** [blob_names] is exactly the union of the digest lists of
    [file_map]. *)
Definition consistent (s : IndexStore) : Prop :=
  forall d, In d (blob_names s) <->
            exists f hashes, In (f, hashes) (file_map s) /\ In d hashes.

Lemma collected_consistent (fileMap : Js.dict (list string)) :
  consistent (mkStore 1 (collectBlobNames fileMap) fileMap).
Proof. intros d. apply collectBlobNames_In. Qed.

Lemma removeFileFromIndex_committed relativePath reason doc s :
  snd (removeFileFromIndex relativePath reason doc) = Some s ->
  s = mkStore 1
        (collectBlobNames (Js.remove (file_map (loadIndexStore doc))
                                     relativePath))
        (Js.remove (file_map (loadIndexStore doc)) relativePath).
Proof.
  unfold removeFileFromIndex.
  destruct (Js.get (file_map (loadIndexStore doc)) relativePath);
    [|discriminate].
  now intros [= <-].
Qed.

Lemma indexFile_committed batchSize maxLinesPerBlob file doc server s :
  snd (indexFile batchSize maxLinesPerBlob file doc server) = Some s ->
  exists fileMap, s = mkStore 1 (collectBlobNames fileMap) fileMap.
Proof.
  unfold indexFile.
  destruct (toRelativePath (relative file)) as [rel|]; [|discriminate].
  destruct (String.eqb rel ""); [discriminate|].
  destruct (excluded file);
    [intros H; apply removeFileFromIndex_committed in H; eauto|].
  destruct (negb (allowed file));
    [intros H; apply removeFileFromIndex_committed in H; eauto|].
  destruct (negb (isFile file));
    [intros H; apply removeFileFromIndex_committed in H; eauto|].
  destruct (hashFile _) as [hm nextHashes].
  destruct (sameHashes _ _); [discriminate|].
  destruct (0 <? List.length _); [discriminate|].
  intros [= <-]. eauto.
Qed.

(** C1: whenever [indexProject], [indexFile] or [removeFileFromIndex]
    hands a store to [saveIndexStore], its [blob_names] is exactly the
    union of the digest lists of its [file_map]: every name occurs in some
    list and every digest of every list is a name. *)
Theorem C1_commit_consistent (batchSize maxLinesPerBlob : nat) :
  (forall blobs doc server s,
     snd (indexProject batchSize blobs doc server) = Some s ->
     consistent s) /\
  (forall file doc server s,
     snd (indexFile batchSize maxLinesPerBlob file doc server) = Some s ->
     consistent s) /\
  (forall relativePath reason doc s,
     snd (removeFileFromIndex relativePath reason doc) = Some s ->
     consistent s).
Proof.
  split; [|split].
  - intros blobs doc server s H d.
    apply indexProject_committed in H as (-> & _).
    apply committedOf_consistent.
  - intros file doc server s H.
    apply indexFile_committed in H as (fm & ->).
    apply collected_consistent.
  - intros relativePath reason doc s H.
    apply removeFileFromIndex_committed in H as ->.
    apply collected_consistent.
Qed.

(** A remote store that hashes as the engine does and answers with the
    names of the blobs it was sent, and one that is unreachable. *)
Definition echo : Server :=
  fun _ batch =>
    Returned (flat_map (fun b => match b with
                                 | Some b => [digestOf b]
                                 | None => []
                                 end) batch).

Definition down : Server := fun _ _ => Threw.

(** A remote store that takes the first [n] batches and fails after. *)
Definition upTo (n : nat) : Server :=
  fun batchIdx batch => if batchIdx <? n then echo batchIdx batch else Threw.

Lemma C1_commit_consistent_witness :
  exists s,
    snd (indexProject 10 (collectFiles 800 [("a.ts", "x")]) Missing echo)
    = Some s /\ consistent s.
Proof.
  eexists. split; [vm_compute; reflexivity|].
  apply (proj1 (C1_commit_consistent 10 800)
               (collectFiles 800 [("a.ts", "x")]) Missing echo).
  vm_compute. reflexivity.
Defined.

(* ------------------------------------------------------------------ *)
(** ** What a full reindex keeps *)
(* ------------------------------------------------------------------ *)

Lemma splitFileContent_sourcePath (m : nat) (p c : string) (b : Blob) :
  In b (splitFileContent m p c) -> sourcePath b = p.
Proof.
  unfold splitFileContent.
  destruct (List.length (scanLines "" c) <=? m).
  - intros [<- | []]. reflexivity.
  - intros H. apply in_map_iff in H as (i & <- & _). reflexivity.
Qed.

Lemma collectFiles_sourcePath (m : nat) (files : list (string * string))
    (b : Blob) :
  In b (collectFiles m files) -> In (sourcePath b) (map fst files).
Proof.
  unfold collectFiles. intros H.
  apply in_flat_map in H as ([p c] & Hf & Hb).
  apply splitFileContent_sourcePath in Hb. cbn [fst] in Hb. subst p.
  apply (in_map fst) in Hf. exact Hf.
Qed.

(** C10: the store committed by a full reindex has entries only for the
    files collected in that run, and names only digests of blobs collected
    in that run: a file of the previous store that was not collected
    (deleted, excluded, extension no longer allowed) has no entry, and a
    digest that no collected blob has is not in [blob_names]. *)
Theorem C10_full_reindex_drops_stale (batchSize maxLinesPerBlob : nat)
  (files : list (string * string)) (doc : Document) (server : Server)
  (s : IndexStore)
  (Hcommit : snd (indexProject batchSize (collectFiles maxLinesPerBlob files)
                               doc server) = Some s) :
  (forall f, In f (Js.keys (file_map s)) -> In f (map fst files)) /\
  (forall f, ~ In f (map fst files) -> Js.get (file_map s) f = None) /\
  (forall d, In d (blob_names s) ->
     exists b, In b (collectFiles maxLinesPerBlob files) /\
               digestOf b = d /\ In (sourcePath b) (map fst files)) /\
  (forall d,
     (forall b, In b (collectFiles maxLinesPerBlob files) ->
                digestOf b <> d) ->
     ~ In d (blob_names s)).
Proof.
  apply indexProject_committed in Hcommit as (-> & _ & _).
  assert (Hkeys : forall f,
    In f (Js.keys (file_map (committedOf batchSize
             (collectFiles maxLinesPerBlob files) doc server))) ->
    In f (map fst files)).
  { intros f Hf. unfold Js.keys in Hf.
    apply in_map_iff in Hf as ([f' hs] & <- & Hin).
    apply committedOf_entry in Hin as (_ & _ & b & Hb & <-).
    now apply collectFiles_sourcePath in Hb. }
  assert (Hnames : forall d,
    In d (blob_names (committedOf batchSize
            (collectFiles maxLinesPerBlob files) doc server)) ->
    exists b, In b (collectFiles maxLinesPerBlob files) /\ digestOf b = d).
  { intros d Hd. now apply availableOf_candidate in Hd. }
  repeat split.
  - exact Hkeys.
  - intros f Hf. apply get_None. intros Hin. now apply Hf, Hkeys.
  - intros d Hd. destruct (Hnames d Hd) as (b & Hb & Hdig).
    exists b. repeat split; auto. now apply collectFiles_sourcePath in Hb.
  - intros d Hnone Hd. destruct (Hnames d Hd) as (b & Hb & Hdig).
    now apply (Hnone b Hb).
Qed.

Definition staleStore : IndexStore :=
  mkStore 1 [digestOf (mkBlob "old.ts" "gone" "old.ts")]
            [("old.ts", [digestOf (mkBlob "old.ts" "gone" "old.ts")])].

Lemma C10_full_reindex_drops_stale_witness :
  exists s,
    snd (indexProject 10 (collectFiles 800 [("a.ts", "x")])
                      (Stored staleStore) echo) = Some s /\
    Js.get (file_map s) "old.ts" = None.
Proof.
  eexists. split; [vm_compute; reflexivity|].
  refine (proj1 (proj2
    (C10_full_reindex_drops_stale 10 800 [("a.ts", "x")]
       (Stored staleStore) echo _ _)) "old.ts" _).
  - vm_compute. reflexivity.
  - simpl. intros [H | []]. discriminate.
Defined.

(* ------------------------------------------------------------------ *)
(** ** Partial failure of a full reindex *)
(* ------------------------------------------------------------------ *)

Lemma NoDup_app_disjoint {A} (a b : list A) (x : A) :
  NoDup (a ++ b) -> In x a -> In x b -> False.
Proof.
  induction a as [|y a IH]; simpl; [intros _ []|].
  intros Hnd [-> | Ha] Hb.
  - inversion Hnd as [|? ? Hx _]. apply Hx, in_or_app. now right.
  - inversion Hnd. now apply IH.
Qed.

Lemma firstn_le_In {A} (l : list A) (a b : nat) (x : A) :
  a <= b -> In x (firstn a l) -> In x (firstn b l).
Proof.
  intros Hab H. replace b with (a + (b - a)) by lia.
  rewrite firstn_add. apply in_or_app. now left.
Qed.

Lemma skipn_le_In {A} (l : list A) (a b : nat) (x : A) :
  a <= b -> In x (skipn b l) -> In x (skipn a l).
Proof.
  intros Hab H. replace b with ((b - a) + a) in H by lia.
  rewrite <- skipn_skipn in H.
  rewrite <- (firstn_skipn (b - a) (skipn a l)). apply in_or_app. now right.
Qed.

(** Two batches of a list without repetition share no element. *)
Lemma batchOf_disjoint {A} (batchSize : nat) (l : list A)
    (total k k' : nat) (x : A) :
  NoDup l -> k < k' ->
  In x (batchOf batchSize l total k) ->
  In x (batchOf batchSize l total k') -> False.
Proof.
  unfold batchOf, Js.slice. intros Hnd Hlt Hk Hk'.
  set (n := k * batchSize + batchSize).
  assert (H1 : In x (firstn n l)).
  { apply (firstn_le_In l
             (k * batchSize +
              (Nat.min (k * batchSize + batchSize) total - k * batchSize)));
      [subst n; lia|].
    rewrite firstn_add. apply in_or_app. now right. }
  assert (H2 : In x (skipn n l)).
  { apply (skipn_le_In l n (k' * batchSize)); [subst n; nia|].
    rewrite <- (firstn_skipn
      (Nat.min (k' * batchSize + batchSize) total - k' * batchSize)
      (skipn (k' * batchSize) l)).
    apply in_or_app. now left. }
  rewrite <- (firstn_skipn n l) in Hnd.
  exact (NoDup_app_disjoint _ _ x Hnd H1 H2).
Qed.

Lemma newHashes_NoDup blobs store : NoDup (newHashesOf blobs store).
Proof. apply NoDup_filter, allBlobHashes_NoDup. Qed.

Definition bigFile : list Blob :=
  collectFiles 1 [("big.ts", "a" +++ String LF "b")].
Definition hBig1 : string :=
  digestOf (mkBlob "big.ts#chunk1of2" ("a" +++ String LF "") "big.ts").
Definition hBig2 : string :=
  digestOf (mkBlob "big.ts#chunk2of2" "b" "big.ts").

(** C3, as stated, fails: a file some of whose blobs failed to upload is
    kept, with the digests that are available.  Here [big.ts] has two
    chunks, each in a batch of its own; the first batch is accepted and
    the second fails; the committed entry of [big.ts] holds the first
    digest only. *)
Lemma C3_truncated_entry_committed :
  getOr (snd (hashAll bigFile)) "big.ts" = [hBig1; hBig2] /\
  uploadBatch 1 (upTo 1)
    (blobsToUploadOf bigFile (loadIndexStore Missing))
    (newHashesOf bigFile (loadIndexStore Missing)) 1 = None /\
  batchOf 1 (newHashesOf bigFile (loadIndexStore Missing)) 2 1 = [hBig2] /\
  indexProject 1 bigFile Missing (upTo 1) =
  (mkResult "partial_success" "Indexed 1 blobs (existing: 0, new: 1)"
            (Some (mkStats 1 0 1)),
   Some (mkStore 1 [hBig1] [("big.ts", [hBig1])])).
Proof. vm_compute. repeat split. Qed.

(** C3, amended: in the store a full reindex commits, [blob_names] holds
    exactly the candidate digests that were already in the store and the
    names returned for the accepted batches; no digest of a failed batch
    is in it; the entry of a file is the list of its candidate digests
    that are available, in order, and there is no entry when none is: a
    file all of whose blobs failed is absent, and a file only some of
    whose blobs failed is present with the others. *)
Theorem C3_partial_failure_containment (batchSize : nat)
  (blobs : list Blob) (doc : Document) (server : Server) (s : IndexStore)
  (Hcommit : snd (indexProject batchSize blobs doc server) = Some s) :
  let store := loadIndexStore doc in
  let newHashes := newHashesOf blobs store in
  let blobsToUpload := blobsToUploadOf blobs store in
  let attempt := uploadBatch batchSize server blobsToUpload newHashes in
  let total := totalBatches batchSize blobsToUpload in
  let candidates := snd (hashAll blobs) in
  (forall d, In d (blob_names s) <->
     In d (existingHashesOf blobs store) \/
     exists k names, k < total /\ attempt k = Some names /\ In d names) /\
  (forall k d, k < total -> attempt k = None ->
     In d (batchOf batchSize newHashes (List.length blobsToUpload) k) ->
     ~ In d (blob_names s)) /\
  (forall f, Js.get (file_map s) f =
     if 0 <? List.length (kept (blob_names s) candidates f)
     then Some (kept (blob_names s) candidates f) else None) /\
  (forall f, (forall d, In d (getOr candidates f) -> ~ In d (blob_names s)) ->
     Js.get (file_map s) f = None).
Proof.
  intros store newHashes blobsToUpload attempt total candidates.
  apply indexProject_committed in Hcommit as (-> & Hne & _).
  assert (Hup : forall d,
    In d (fst (uploadOf batchSize blobs doc server)) <->
    exists k names, k < total /\ attempt k = Some names /\ In d names).
  { intros d. unfold uploadOf. fold store. fold blobsToUpload.
    destruct (0 <? List.length blobsToUpload) eqn:E.
    - apply uploaded_In.
    - cbn [fst]. split; [intros []|].
      intros (k & names & Hk & _). exfalso.
      apply Nat.ltb_ge in E. unfold total, totalBatches in Hk.
      replace (List.length blobsToUpload) with 0 in Hk by lia.
      unfold Js.ceilDiv in Hk. rewrite Nat.Div0.mod_0_l in Hk.
      simpl in Hk. rewrite Nat.Div0.div_0_l in Hk. lia. }
  assert (Hnames : forall d,
    In d (blob_names (committedOf batchSize blobs doc server)) <->
    In d (existingHashesOf blobs store) \/
    exists k names, k < total /\ attempt k = Some names /\ In d names).
  { intros d. cbn [blob_names committedOf].
    now rewrite availableOf_In, Hup. }
  assert (Hget : forall f,
    Js.get (file_map (committedOf batchSize blobs doc server)) f =
    if 0 <? List.length
         (kept (blob_names (committedOf batchSize blobs doc server))
               candidates f)
    then Some (kept (blob_names (committedOf batchSize blobs doc server))
                    candidates f)
    else None).
  { intros f. apply filterFileMap_get. }
  split; [exact Hnames|]. split; [|split; [exact Hget|]].
  - intros k d Hk Hfail Hd Hin. apply Hnames in Hin as [Hin | Hin].
    + apply existingHashes_In in Hin as [_ Hin].
      apply slice_In, newHashes_In in Hd as [_ Hd]. contradiction.
    + destruct Hin as (k' & names & Hk' & Hok & Hin).
      assert (Hkk : k <> k') by (intros ->; congruence).
      apply (attempt_names batchSize server blobsToUpload newHashes) in Hok
        as [_ Hok].
      apply Hok in Hin.
      pose proof (newHashes_NoDup blobs store) as Hnd.
      destruct (Nat.lt_total k k') as [Hlt | [E | Hlt]].
      * exact (batchOf_disjoint _ _ _ _ _ _ Hnd Hlt Hd Hin).
      * contradiction.
      * exact (batchOf_disjoint _ _ _ _ _ _ Hnd Hlt Hin Hd).
  - intros f Hnone. rewrite Hget.
    replace (kept (blob_names (committedOf batchSize blobs doc server))
                  candidates f) with (@nil string); [reflexivity|].
    symmetry. unfold kept.
    destruct (filter _ (getOr candidates f)) as [|d l] eqn:E; [reflexivity|].
    assert (Hd : In d (filter
      (fun hash => Js.has hash
         (blob_names (committedOf batchSize blobs doc server)))
      (getOr candidates f))) by (rewrite E; now left).
    apply filter_In in Hd as [Hd1 Hd2]. apply has_In in Hd2.
    now apply Hnone in Hd1.
Qed.

Lemma C3_partial_failure_containment_witness :
  exists s,
    snd (indexProject 1 bigFile Missing (upTo 1)) = Some s /\
    ~ In hBig2 (blob_names s).
Proof.
  eexists. split; [vm_compute; reflexivity|].
  refine (proj1 (proj2
    (C3_partial_failure_containment 1 bigFile Missing (upTo 1) _ _))
    1 _ _ _ _).
  - vm_compute. reflexivity.
  - vm_compute. constructor.
  - vm_compute. reflexivity.
  - vm_compute. left. reflexivity.
Defined.

(* ------------------------------------------------------------------ *)
(** ** Single-file reindex *)
(* ------------------------------------------------------------------ *)

Lemma ceilDiv_0 (b : nat) : Js.ceilDiv 0 b = 0.
Proof.
  unfold Js.ceilDiv. rewrite Nat.Div0.mod_0_l. simpl.
  apply Nat.Div0.div_0_l.
Qed.

Lemma totalBatches_pos (batchSize : nat) (blobsToUpload : list (option Blob))
    (k : nat) :
  k < totalBatches batchSize blobsToUpload ->
  (0 <? List.length blobsToUpload) = true.
Proof.
  unfold totalBatches. intros Hk. apply Nat.ltb_lt.
  destruct blobsToUpload; [|simpl; lia].
  simpl in Hk. rewrite ceilDiv_0 in Hk. lia.
Qed.

(** C4: when [indexFile] gets as far as uploading (the path is inside the
    root, the file is there, not excluded, of an allowed extension, and
    its digests differ from the stored ones) and some batch fails, it
    returns status [error] and hands nothing to [saveIndexStore]: the
    document, with the entry of the file and [blob_names], is as
    before. *)
Theorem C4_indexFile_all_or_nothing (batchSize maxLinesPerBlob : nat)
  (file : FileInfo) (doc : Document) (server : Server) :
  let relativePath := relative file in
  let fileBlobs := splitFileContent maxLinesPerBlob relativePath (text file) in
  let nextHashes := snd (hashFile fileBlobs) in
  let store := loadIndexStore doc in
  let hashesToUpload := hashesToUploadOf nextHashes store in
  let blobsToUpload := presentBlobs (fst (hashFile fileBlobs)) hashesToUpload in
  Js.startsWith ".." relativePath = false ->
  relativePath <> "" ->
  excluded file = false ->
  allowed file = true ->
  isFile file = true ->
  sameHashes (getOr (file_map store) relativePath) nextHashes = false ->
  (exists k, k < totalBatches batchSize blobsToUpload /\
     uploadBatch batchSize server blobsToUpload hashesToUpload k = None) ->
  status (fst (indexFile batchSize maxLinesPerBlob file doc server))
    = "error" /\
  snd (indexFile batchSize maxLinesPerBlob file doc server) = None /\
  documentAfter doc (indexFile batchSize maxLinesPerBlob file doc server)
    = doc.
Proof.
  intros relativePath fileBlobs nextHashes store hashesToUpload blobsToUpload
         Hrel Hne Hex Hal Hfile Hsame (k & Hk & Hfail).
  assert (Hout :
    indexFile batchSize maxLinesPerBlob file doc server =
    (mkResult "error" "File indexing failed" None, None)).
  { unfold indexFile, toRelativePath. fold relativePath.
    rewrite Hrel. apply String.eqb_neq in Hne. rewrite Hne.
    rewrite Hex, Hal, Hfile. cbn [negb].
    fold fileBlobs. subst nextHashes hashesToUpload blobsToUpload.
    destruct (hashFile fileBlobs) as [hm nh]. cbn [fst snd] in *.
    fold store. unfold getOr in Hsame. rewrite Hsame.
    rewrite (totalBatches_pos _ _ _ Hk).
    assert (Hin : In (k + 1)
      (snd (uploadAll batchSize server
              (presentBlobs hm (hashesToUploadOf nh store))
              (hashesToUploadOf nh store))))
      by (apply failed_In; now exists k).
    destruct (snd (uploadAll _ _ _ _)); [destruct Hin | reflexivity]. }
  rewrite Hout. unfold documentAfter. repeat split.
Qed.

Definition indexedStore : IndexStore :=
  mkStore 1 [digestOf (mkBlob "a.ts" "x" "a.ts")]
            [("a.ts", [digestOf (mkBlob "a.ts" "x" "a.ts")])].

Lemma C4_indexFile_all_or_nothing_witness :
  documentAfter (Stored indexedStore)
    (indexFile 10 800 (mkFileInfo "a.ts" false true true "y")
               (Stored indexedStore) down)
  = Stored indexedStore.
Proof.
  refine (proj2 (proj2
    (C4_indexFile_all_or_nothing 10 800
       (mkFileInfo "a.ts" false true true "y") (Stored indexedStore) down
       _ _ _ _ _ _ _))).
  - reflexivity.
  - discriminate.
  - reflexivity.
  - reflexivity.
  - reflexivity.
  - vm_compute. reflexivity.
  - exists 0. split; [vm_compute; constructor | reflexivity].
Defined.

(* ------------------------------------------------------------------ *)
(** ** The first-run rule *)
(* ------------------------------------------------------------------ *)

Lemma blobsToUpload_length blobs store :
  List.length (blobsToUploadOf blobs store) =
  List.length (newHashesOf blobs store).
Proof. unfold blobsToUploadOf. apply length_map. Qed.

Lemma length_zero_nil {A} (l : list A) :
  (List.length l =? 0) = true <-> l = [].
Proof.
  rewrite Nat.eqb_eq. destruct l; simpl; split; intros; try lia;
    try reflexivity; discriminate.
Qed.

Lemma allBlobHashes_nonempty (blobs : list Blob) :
  blobs <> [] -> allBlobHashesOf blobs <> [].
Proof.
  destruct blobs as [|b blobs]; [congruence|]. intros _ E.
  assert (H : In (digestOf b) (allBlobHashesOf (b :: blobs)))
    by (apply allBlobHashes_In; exists b; split; [now left | reflexivity]).
  rewrite E in H. destruct H.
Qed.

(** Every candidate digest is either already in the store or new. *)
Lemma candidate_split blobs store d :
  In d (allBlobHashesOf blobs) ->
  In d (existingHashesOf blobs store) \/ In d (newHashesOf blobs store).
Proof.
  intros Hd. rewrite existingHashes_In, newHashes_In.
  destruct (in_dec string_dec d (blob_names store)); [left | right]; auto.
Qed.

Lemma refuses_true batchSize blobs doc server :
  blobs <> [] ->
  (refuses batchSize blobs doc server = true <->
   existingHashesOf blobs (loadIndexStore doc) = [] /\
   forall k,
     k < totalBatches batchSize (blobsToUploadOf blobs (loadIndexStore doc)) ->
     uploadBatch batchSize server
       (blobsToUploadOf blobs (loadIndexStore doc))
       (newHashesOf blobs (loadIndexStore doc)) k = None).
Proof.
  intros Hne. unfold refuses, uploadOf.
  set (store := loadIndexStore doc).
  rewrite !andb_true_iff, !length_zero_nil. split.
  - intros [[Hpos Hup] Hex]. split; [exact Hex|].
    rewrite Hpos in Hup. now apply uploaded_nil.
  - intros [Hex Hall].
    assert (Hpos : (0 <? List.length (blobsToUploadOf blobs store)) = true).
    { rewrite blobsToUpload_length. apply Nat.ltb_lt.
      destruct (allBlobHashesOf blobs) as [|d l] eqn:E;
        [now apply allBlobHashes_nonempty in Hne|].
      assert (Hd : In d (allBlobHashesOf blobs)) by (rewrite E; now left).
      apply (candidate_split blobs store) in Hd as [Hd | Hd].
      - rewrite Hex in Hd. destruct Hd.
      - destruct (newHashesOf blobs store); [destruct Hd | simpl; lia]. }
    rewrite Hpos. repeat split; [|exact Hex].
    now apply uploaded_nil.
Qed.

(** C5, as stated, fails in its second half: on a run that is not the
    first one (the store names a digest), when no candidate digest is in
    the store and every batch fails, the operation returns [error] and
    commits nothing. *)
Lemma C5_later_run_refused :
  blob_names (loadIndexStore (Stored staleStore)) <> [] /\
  indexProject 10 (collectFiles 800 [("a.ts", "x")]) (Stored staleStore) down
  = (mkResult "error" "All batches failed on first indexing" None, None).
Proof. split; [discriminate | vm_compute; reflexivity]. Qed.

(** C5, amended: with at least one blob collected, [indexProject] returns
    [error] and commits nothing exactly when no candidate digest is
    already in the store (as on the very first run, where the store names
    no digest at all) and every upload batch fails; the document is then
    unchanged.  In every other case (a candidate digest already in the
    store, some batch accepted, or nothing new to upload) it commits and
    returns [success] or [partial_success]. *)
Theorem C5_first_run_rule (batchSize : nat) (blobs : list Blob)
  (doc : Document) (server : Server) (Hblobs : blobs <> []) :
  let store := loadIndexStore doc in
  let existingHashes := existingHashesOf blobs store in
  let newHashes := newHashesOf blobs store in
  let blobsToUpload := blobsToUploadOf blobs store in
  let attempt := uploadBatch batchSize server blobsToUpload newHashes in
  let total := totalBatches batchSize blobsToUpload in
  let out := indexProject batchSize blobs doc server in
  (blob_names store = [] -> existingHashes = []) /\
  (existingHashes = [] ->
   (forall k, k < total -> attempt k = None) ->
   status (fst out) = "error" /\ snd out = None /\
   documentAfter doc out = doc) /\
  (existingHashes <> [] \/
   (exists k, k < total /\ attempt k <> None) \/
   newHashes = [] ->
   exists s, snd out = Some s /\
     (status (fst out) = "success" \/
      status (fst out) = "partial_success")).
Proof.
  intros store existingHashes newHashes blobsToUpload attempt total out.
  assert (Hlen : (List.length blobs =? 0) = false).
  { apply Nat.eqb_neq. destruct blobs; [congruence | simpl; lia]. }
  split; [|split].
  - intros Hempty.
    destruct existingHashes as [|d l] eqn:E; [reflexivity|].
    assert (Hd : In d (existingHashesOf blobs store))
      by (fold existingHashes; rewrite E; now left).
    apply existingHashes_In in Hd as [_ Hd].
    rewrite Hempty in Hd. destruct Hd.
  - intros Hex Hall.
    assert (Hr : refuses batchSize blobs doc server = true)
      by (apply refuses_true; [exact Hblobs | now split]).
    subst out. rewrite indexProject_cases, Hlen, Hr.
    unfold documentAfter. repeat split.
  - intros Hcase.
    assert (Hr : refuses batchSize blobs doc server = false).
    { destruct (refuses batchSize blobs doc server) eqn:E; [|reflexivity].
      apply refuses_true in E as [Hex Hall]; [|exact Hblobs].
      exfalso. destruct Hcase as [Hc | [(k & Hk & Hc) | Hc]].
      - now apply Hc.
      - now apply Hc, Hall.
      - destruct (allBlobHashesOf blobs) as [|d l] eqn:Ea;
          [now apply allBlobHashes_nonempty in Hblobs|].
        assert (Hd : In d (allBlobHashesOf blobs)) by (rewrite Ea; now left).
        apply (candidate_split blobs store) in Hd as [Hd | Hd].
        + unfold store in Hd. rewrite Hex in Hd. destruct Hd.
        + fold newHashes in Hd. rewrite Hc in Hd. destruct Hd. }
    subst out. rewrite indexProject_cases, Hlen, Hr. cbn [fst snd status].
    eexists. split; [reflexivity|].
    destruct (List.length (snd (uploadOf batchSize blobs doc server)) =? 0);
      [now left | now right].
Qed.

Lemma C5_first_run_rule_witness :
  documentAfter Missing
    (indexProject 10 (collectFiles 800 [("a.ts", "x"); ("b.ts", "y")])
                  Missing down)
  = Missing.
Proof.
  refine (proj2 (proj2 (proj1 (proj2
    (C5_first_run_rule 10
       (collectFiles 800 [("a.ts", "x"); ("b.ts", "y")]) Missing down _))
    _ _))).
  - discriminate.
  - vm_compute. reflexivity.
  - intros k _. reflexivity.
Defined.

(* ------------------------------------------------------------------ *)
(** ** Running the full reindex again *)
(* ------------------------------------------------------------------ *)

Lemma filter_none {A} (f : A -> bool) (l : list A) :
  (forall x, In x l -> f x = false) -> filter f l = [].
Proof.
  induction l as [|x l IH]; intros H; simpl; [reflexivity|].
  rewrite (H x (or_introl eq_refl)). apply IH. intros y Hy. apply H. now right.
Qed.

Lemma filter_every {A} (f : A -> bool) (l : list A) :
  (forall x, In x l -> f x = true) -> filter f l = l.
Proof.
  intros H. apply forallb_filter_id, forallb_forall. exact H.
Qed.

Lemma candidates_all_available (blobs : list Blob)
    (available : list string) :
  (forall d, In d (allBlobHashesOf blobs) -> In d available) ->
  filterFileMap available (snd (hashAll blobs)) = snd (hashAll blobs).
Proof.
  intros Hall. destruct (hashAll_hashed blobs) as [_ He _ Hn].
  apply filterFileMap_all; [exact Hn|].
  intros f hashes Hin. destruct (He f hashes Hin) as [Hne Hd].
  split; [exact Hne|]. intros d Hdin.
  destruct (Hd d Hdin) as (b & Hb & _ & Hdig).
  apply Hall, allBlobHashes_In. now exists b.
Qed.

(** The store a run commits when every candidate digest is already in the
    store it loads: the candidate digests in candidate order, and the
    candidate map. *)
Definition settledStore (blobs : list Blob) : IndexStore :=
  mkStore 1 (allBlobHashesOf blobs) (snd (hashAll blobs)).

Definition settledResult (blobs : list Blob) : IndexResult :=
  let n := List.length (allBlobHashesOf blobs) in
  mkResult "success"
    ("Indexed " +++ Js.ofNat n +++ " blobs (existing: " +++ Js.ofNat n +++
     ", new: " +++ Js.ofNat 0 +++ ")")
    (Some (mkStats n n 0)).

Lemma settled_run (batchSize : nat) (blobs : list Blob) (doc : Document)
    (server : Server) :
  blobs <> [] ->
  (forall d, In d (allBlobHashesOf blobs) ->
             In d (blob_names (loadIndexStore doc))) ->
  blobsToUploadOf blobs (loadIndexStore doc) = [] /\
  indexProject batchSize blobs doc server =
  (settledResult blobs, Some (settledStore blobs)).
Proof.
  intros Hne Hall. set (store := loadIndexStore doc) in *.
  assert (Hnew : newHashesOf blobs store = []).
  { unfold newHashesOf. apply filter_none. intros d Hd.
    apply negb_false_iff, has_In, mkSet_In. now apply Hall. }
  assert (Hex : existingHashesOf blobs store = allBlobHashesOf blobs).
  { unfold existingHashesOf. rewrite filter_every.
    - apply mkSet_fresh, allBlobHashes_NoDup.
    - intros d Hd. apply has_In, mkSet_In. now apply Hall. }
  assert (Hbtu : blobsToUploadOf blobs store = []).
  { unfold blobsToUploadOf. now rewrite Hnew. }
  split; [exact Hbtu|].
  rewrite indexProject_cases.
  replace (List.length blobs =? 0) with false
    by (symmetry; apply Nat.eqb_neq; destruct blobs;
        [congruence | simpl; lia]).
  unfold refuses, committedOf, availableOf, uploadOf. fold store.
  rewrite Hbtu, Hex. cbn [List.length Nat.ltb Nat.leb andb fst snd Nat.eqb].
  rewrite app_nil_r, (mkSet_fresh _ (allBlobHashes_NoDup blobs)).
  rewrite candidates_all_available by auto.
  reflexivity.
Qed.

(** After a run without a failed batch every candidate digest is
    available. *)
Lemma success_all_available (batchSize : nat) (blobs : list Blob)
    (doc : Document) (server : Server) :
  1 <= batchSize ->
  snd (uploadOf batchSize blobs doc server) = [] ->
  forall d, In d (allBlobHashesOf blobs) ->
            In d (availableOf batchSize blobs doc server).
Proof.
  intros Hb Hfailed d Hd. apply availableOf_In.
  destruct (candidate_split blobs (loadIndexStore doc) d Hd) as [H | H];
    [now left | right].
  unfold uploadOf in *.
  destruct (0 <? List.length (blobsToUploadOf blobs (loadIndexStore doc)))
    eqn:E.
  - destruct (batches_cover batchSize _ _ d Hb
                (eq_sym (blobsToUpload_length blobs (loadIndexStore doc))) H)
      as (k & Hk & Hin).
    pose proof (proj1 (failed_nil batchSize server _ _) Hfailed k Hk) as Hok.
    destruct (uploadBatch batchSize server
                (blobsToUploadOf blobs (loadIndexStore doc))
                (newHashesOf blobs (loadIndexStore doc)) k)
      as [names|] eqn:Ea; [|congruence].
    apply uploaded_In. exists k, names. repeat split; auto.
    now apply (attempt_names _ _ _ _ _ _ Ea).
  - apply Nat.ltb_ge in E. rewrite blobsToUpload_length in E.
    destruct (newHashesOf blobs (loadIndexStore doc));
      [destruct H | simpl in E; lia].
Qed.

Definition hA : string := digestOf (mkBlob "a.ts" "x" "a.ts").
Definition hB : string := digestOf (mkBlob "b.ts" "y" "b.ts").
Definition twoFiles : list Blob :=
  collectFiles 800 [("a.ts", "x"); ("b.ts", "y")].
Definition onlyB : IndexStore := mkStore 1 [hB] [("b.ts", [hB])].

(** C6, as stated, fails on both points.  First, from a store that knows
    [b.ts] only (as a run over that file alone leaves it), a first run
    over [a.ts] and [b.ts] succeeds and writes the names in the order
    (b, a), and the second run writes them in the order (a, b): the two
    documents differ.  Second, after a first run in which a batch failed,
    the second run has a blob to upload. *)
Lemma C6_second_run_differs :
  snd (indexProject 10 (collectFiles 800 [("b.ts", "y")]) Missing echo) =
    Some onlyB /\
  indexProject 10 twoFiles (Stored onlyB) echo =
    (mkResult "success" "Indexed 2 blobs (existing: 1, new: 1)"
              (Some (mkStats 2 1 1)),
     Some (mkStore 1 [hB; hA] [("a.ts", [hA]); ("b.ts", [hB])])) /\
  snd (indexProject 10 twoFiles
         (Stored (mkStore 1 [hB; hA] [("a.ts", [hA]); ("b.ts", [hB])]))
         echo) =
    Some (mkStore 1 [hA; hB] [("a.ts", [hA]); ("b.ts", [hB])]) /\
  mkStore 1 [hB; hA] [("a.ts", [hA]); ("b.ts", [hB])] <>
  mkStore 1 [hA; hB] [("a.ts", [hA]); ("b.ts", [hB])] /\
  (exists s1,
     snd (indexProject 1 bigFile Missing (upTo 1)) = Some s1 /\
     List.length (blobsToUploadOf bigFile s1) = 1 /\
     documentAfter (Stored s1) (indexProject 1 bigFile (Stored s1) echo)
     <> Stored s1).
Proof.
  split; [vm_compute; reflexivity|].
  split; [vm_compute; reflexivity|].
  split; [vm_compute; reflexivity|].
  split; [vm_compute; discriminate|].
  eexists. split; [vm_compute; reflexivity|].
  split; [vm_compute; reflexivity|].
  vm_compute. discriminate.
Qed.

(** C6, amended: after a full reindex that ended with status [success]
    (no batch failed), a second run over the same files uploads nothing,
    ends with [success] and commits a store with the same version, the
    same [file_map] and the same digests in [blob_names] (their order is
    the candidate order and may differ from the first document); every
    further run writes that same document again, byte for byte. *)
Theorem C6_idempotent_reindex (batchSize : nat) (blobs : list Blob)
  (doc : Document) (server1 server2 : Server) (s1 : IndexStore)
  (Hbatch : 1 <= batchSize)
  (Hstatus :
     status (fst (indexProject batchSize blobs doc server1)) = "success")
  (Hcommit : snd (indexProject batchSize blobs doc server1) = Some s1) :
  blobsToUploadOf blobs s1 = [] /\
  exists s2,
    snd (indexProject batchSize blobs (Stored s1) server2) = Some s2 /\
    status (fst (indexProject batchSize blobs (Stored s1) server2))
      = "success" /\
    new_blobs_of (fst (indexProject batchSize blobs (Stored s1) server2))
      = Some 0 /\
    version s2 = version s1 /\
    file_map s2 = file_map s1 /\
    (forall d, In d (blob_names s2) <-> In d (blob_names s1)) /\
    (forall server3,
       indexProject batchSize blobs (Stored s2) server3 =
       indexProject batchSize blobs (Stored s1) server2).
Proof.
  pose proof Hcommit as Hc.
  apply indexProject_committed in Hc as (-> & Hne & Hr).
  assert (Hfailed : snd (uploadOf batchSize blobs doc server1) = []).
  { rewrite indexProject_cases in Hstatus.
    replace (List.length blobs =? 0) with false in Hstatus
      by (symmetry; apply Nat.eqb_neq; destruct blobs;
          [congruence | simpl; lia]).
    rewrite Hr in Hstatus. cbn [fst status] in Hstatus.
    destruct (List.length (snd (uploadOf batchSize blobs doc server1)) =? 0)
      eqn:E; [now apply length_zero_nil in E | discriminate]. }
  pose proof (success_all_available batchSize blobs doc server1
                Hbatch Hfailed) as Hall.
  destruct (settled_run batchSize blobs
              (Stored (committedOf batchSize blobs doc server1)) server2
              Hne Hall) as [Hbtu Hrun2].
  split; [exact Hbtu|].
  exists (settledStore blobs). rewrite Hrun2. cbn [fst snd].
  repeat split.
  - cbn [file_map settledStore committedOf]. symmetry.
    now apply candidates_all_available.
  - cbn [blob_names settledStore committedOf]. apply Hall.
  - cbn [blob_names settledStore committedOf]. intros Hd.
    apply allBlobHashes_In. now apply availableOf_candidate in Hd.
  - intros server3.
    apply (settled_run batchSize blobs (Stored (settledStore blobs)) server3
             Hne).
    auto.
Qed.

Lemma C6_idempotent_reindex_witness :
  blobsToUploadOf twoFiles
    (mkStore 1 [hB; hA] [("a.ts", [hA]); ("b.ts", [hB])]) = [].
Proof.
  refine (proj1 (C6_idempotent_reindex 10 twoFiles (Stored onlyB)
                   echo echo _ _ _ _)).
  - lia.
  - vm_compute. reflexivity.
  - vm_compute. reflexivity.
Defined.

(* ================================================================== *)
(** * Further properties of the index store operations *)
(* ================================================================== *)

Section DictRemove.

Context {V : Type}.

Lemma remove_In (d : Js.dict V) (k k' : string) (v : V) :
  In (k', v) (Js.remove d k) -> In (k', v) d.
Proof.
  induction d as [|[k0 v0] d IH]; simpl; [auto|].
  destruct (String.eqb k k0); [now right|].
  intros [H | H]; [now left | right; now apply IH].
Qed.

Lemma remove_keys_In (d : Js.dict V) (k k' : string) :
  In k' (Js.keys (Js.remove d k)) -> In k' (Js.keys d).
Proof.
  unfold Js.keys. intros H. apply in_map_iff in H as ([k0 v0] & <- & Hin).
  apply remove_In in Hin. now apply (in_map fst) in Hin.
Qed.

Lemma remove_keys_NoDup (d : Js.dict V) (k : string) :
  NoDup (Js.keys d) -> NoDup (Js.keys (Js.remove d k)).
Proof.
  induction d as [|[k0 v0] d IH]; simpl; [auto|].
  intros Hnd. inversion Hnd as [|? ? Hk0 Hd]; subst.
  destruct (String.eqb k k0); [exact Hd|].
  simpl. constructor; [|now apply IH].
  intros Hin. apply Hk0. now apply remove_keys_In in Hin.
Qed.



Lemma remove_absent (d : Js.dict V) (k : string) :
  ~ In k (Js.keys d) -> Js.remove d k = d.
Proof.
  induction d as [|[k0 v0] d IH]; simpl; [auto|].
  intros H. destruct (String.eqb k k0) eqn:E.
  - apply String.eqb_eq in E. subst. intuition.
  - rewrite IH; [reflexivity | intuition].
Qed.

Lemma remove_set_fresh (d : Js.dict V) (k : string) (v : V) :
  ~ In k (Js.keys d) -> Js.remove (Js.set d k v) k = d.
Proof.
  induction d as [|[k0 v0] d IH]; simpl.
  - now rewrite String.eqb_refl.
  - intros H. destruct (String.eqb k k0) eqn:E.
    + apply String.eqb_eq in E. subst. intuition.
    + simpl. rewrite E, IH; [reflexivity | intuition].
Qed.

Lemma get_Some_keys (d : Js.dict V) (k : string) (v : V) :
  Js.get d k = Some v -> In k (Js.keys d).
Proof. intros H. apply get_In in H. now apply (in_map fst) in H. Qed.

End DictRemove.

Lemma collectBlobNames_NoDup (fileMap : Js.dict (list string)) :
  NoDup (collectBlobNames fileMap).
Proof.
  unfold collectBlobNames.
  assert (H : forall l names, NoDup names ->
    NoDup (fold_left (fun names hashes => fold_left Js.add hashes names)
                     l names)).
  { induction l as [|hs l IH]; intros names Hn; simpl; [exact Hn|].
    apply IH, fold_add_NoDup, Hn. }
  apply H. constructor.
Qed.

(** The digests named by the remaining entries of a dictionary with
    distinct keys. *)
Lemma collectBlobNames_get (fileMap : Js.dict (list string)) (d : string) :
  NoDup (Js.keys fileMap) ->
  (In d (collectBlobNames fileMap) <->
   exists f hashes, Js.get fileMap f = Some hashes /\ In d hashes).
Proof.
  intros Hnd. rewrite collectBlobNames_In. split.
  - intros (f & hs & Hin & Hd). exists f, hs. split; [now apply In_get | auto].
  - intros (f & hs & Hg & Hd). exists f, hs. split; [now apply get_In | auto].
Qed.



(* ------------------------------------------------------------------ *)
(** ** The main path of the single-file reindex *)
(* ------------------------------------------------------------------ *)

(** The file passes the checks made before hashing: it is inside the
    root, not excluded, of an allowed extension, and a regular file. *)
Definition indexable (file : FileInfo) : Prop :=
  Js.startsWith ".." (relative file) = false /\
  relative file <> "" /\
  excluded file = false /\ allowed file = true /\ isFile file = true.

(** The file is to be dropped from the index: excluded, of an extension
    that is not allowed, or not a regular file any more. *)
Definition dropped (file : FileInfo) : Prop :=
  Js.startsWith ".." (relative file) = false /\
  relative file <> "" /\
  (excluded file = true \/ allowed file = false \/ isFile file = false).

Definition fileBlobsOf (maxLinesPerBlob : nat) (file : FileInfo)
    : list Blob :=
  splitFileContent maxLinesPerBlob (relative file) (text file).

Definition nextHashesOf (maxLinesPerBlob : nat) (file : FileInfo)
    : list string :=
  snd (hashFile (fileBlobsOf maxLinesPerBlob file)).

Lemma sameHashes_eq (a b : list string) :
  sameHashes a b = true <-> a = b.
Proof.
  unfold sameHashes. rewrite andb_true_iff, Nat.eqb_eq. split.
  - intros [Hlen Hall]. revert b Hlen Hall.
    induction a as [|x a IH]; intros [|y b] Hlen Hall; simpl in *;
      try discriminate; [reflexivity|].
    apply andb_true_iff in Hall as [Hxy Hall].
    apply String.eqb_eq in Hxy. subst y. f_equal.
    apply IH; [lia | exact Hall].
  - intros <-. split; [reflexivity|].
    induction a as [|x a IH]; simpl; [reflexivity|].
    now rewrite String.eqb_refl.
Qed.

Section FileRun.

Variable batchSize maxLinesPerBlob : nat.
Variable file : FileInfo.
Variable doc : Document.
Variable server : Server.

Let store := loadIndexStore doc.
Let relativePath := relative file.
Let nextHashes := nextHashesOf maxLinesPerBlob file.

Definition fileHashesToUpload : list string :=
  hashesToUploadOf nextHashes store.

Definition fileBlobsToUpload : list (option Blob) :=
  presentBlobs (fst (hashFile (fileBlobsOf maxLinesPerBlob file)))
               fileHashesToUpload.

Definition fileFailedBatches : list nat :=
  if 0 <? List.length fileBlobsToUpload
  then snd (uploadAll batchSize server fileBlobsToUpload fileHashesToUpload)
  else [].

Definition fileNextStore : IndexStore :=
  let nextFileMap := Js.set (file_map store) relativePath nextHashes in
  mkStore 1 (collectBlobNames nextFileMap) nextFileMap.

Lemma indexFile_main :
  indexable file ->
  indexFile batchSize maxLinesPerBlob file doc server =
  if sameHashes (getOr (file_map store) relativePath) nextHashes then
    (mkResult "success" "No changes detected" None, None)
  else if 0 <? List.length fileFailedBatches then
    (mkResult "error" "File indexing failed" None, None)
  else
    (mkResult "success" ("Indexed file " +++ relativePath) None,
     Some fileNextStore).
Proof.
  intros (Hrel & Hne & Hex & Hal & Hfile).
  unfold indexFile, toRelativePath. rewrite Hrel.
  apply String.eqb_neq in Hne. rewrite Hne, Hex, Hal, Hfile. cbn [negb].
  unfold fileFailedBatches, fileBlobsToUpload, fileHashesToUpload,
    fileNextStore, nextHashes, nextHashesOf, fileBlobsOf, getOr.
  fold store. fold relativePath.
  destruct (hashFile (splitFileContent maxLinesPerBlob relativePath
                                       (text file))) as [hm nh].
  reflexivity.
Qed.

Lemma indexFile_dropped :
  dropped file ->
  exists reason,
    indexFile batchSize maxLinesPerBlob file doc server =
    removeFileFromIndex relativePath reason doc /\ reason <> "".
Proof.
  intros (Hrel & Hne & Hcase).
  unfold indexFile, toRelativePath. rewrite Hrel.
  apply String.eqb_neq in Hne. rewrite Hne. fold relativePath.
  destruct (excluded file); [eexists; split; [reflexivity | discriminate]|].
  destruct (allowed file);
    [|eexists; split; [reflexivity | discriminate]].
  destruct (isFile file);
    [|eexists; split; [reflexivity | discriminate]].
  destruct Hcase as [H | [H | H]]; discriminate.
Qed.

End FileRun.

(** X2: change detection of [indexFile] is exact.  On a file that passes
    the checks, it answers "No changes detected" (and then contacts no
    remote store and writes nothing) exactly when the digests stored for
    the path are, in order, the digests of the file's blobs.  In
    particular, right after a run that wrote the store, a second run on
    the same file is such a no-op, whatever the remote store would do. *)
Theorem X2_indexFile_change_detection (batchSize maxLinesPerBlob : nat)
  (file : FileInfo) (doc : Document) (server : Server)
  (Hfile : indexable file) :
  (getOr (file_map (loadIndexStore doc)) (relative file) =
     nextHashesOf maxLinesPerBlob file <->
   indexFile batchSize maxLinesPerBlob file doc server =
     (mkResult "success" "No changes detected" None, None)) /\
  (forall s1,
     snd (indexFile batchSize maxLinesPerBlob file doc server) = Some s1 ->
     forall server2,
       indexFile batchSize maxLinesPerBlob file (Stored s1) server2 =
       (mkResult "success" "No changes detected" None, None)).
Proof.
  split.
  - rewrite indexFile_main by exact Hfile.
    destruct (sameHashes _ _) eqn:E.
    + apply sameHashes_eq in E. split; auto.
    + split.
      * intros H. apply sameHashes_eq in H. congruence.
      * destruct (0 <? List.length _); intros H; discriminate H.
  - intros s1 Hs1 server2.
    rewrite indexFile_main in Hs1 by exact Hfile.
    destruct (sameHashes _ _); [discriminate|].
    destruct (0 <? List.length _); [discriminate|].
    cbn [snd] in Hs1. injection Hs1 as <-.
    rewrite indexFile_main by exact Hfile.
    cbn [loadIndexStore]. unfold fileNextStore. cbn [file_map].
    unfold getOr. rewrite get_set_same.
    now rewrite (proj2 (sameHashes_eq _ _) eq_refl).
Qed.

Definition sourceFile : FileInfo := mkFileInfo "a.ts" false true true "x".

Lemma X2_indexFile_change_detection_witness :
  indexFile 10 800 sourceFile (Stored indexedStore) down =
  (mkResult "success" "No changes detected" None, None).
Proof.
  refine (proj1 (proj1 (X2_indexFile_change_detection 10 800 sourceFile
                          (Stored indexedStore) down _)) _).
  - repeat split; try reflexivity. discriminate.
  - vm_compute. reflexivity.
Defined.

(** X3: when [indexFile] gets as far as uploading and no batch fails (or
    there is nothing to upload), it writes a store in which the path maps
    to the digests of the file's blobs in order, every other path keeps
    its digests, and [blob_names] holds exactly those digests and the
    digests of the other paths. *)
Theorem X3_indexFile_commit (batchSize maxLinesPerBlob : nat)
  (file : FileInfo) (doc : Document) (server : Server)
  (Hfile : indexable file)
  (Hkeys : NoDup (Js.keys (file_map (loadIndexStore doc))))
  (Hchanged : getOr (file_map (loadIndexStore doc)) (relative file) <>
              nextHashesOf maxLinesPerBlob file)
  (Hok : forall k,
     k < totalBatches batchSize
           (fileBlobsToUpload maxLinesPerBlob file doc) ->
     uploadBatch batchSize server
       (fileBlobsToUpload maxLinesPerBlob file doc)
       (fileHashesToUpload maxLinesPerBlob file doc) k <> None) :
  exists s,
    indexFile batchSize maxLinesPerBlob file doc server =
    (mkResult "success" ("Indexed file " +++ relative file) None, Some s) /\
    Js.get (file_map s) (relative file) =
      Some (nextHashesOf maxLinesPerBlob file) /\
    (forall f, f <> relative file ->
       Js.get (file_map s) f = Js.get (file_map (loadIndexStore doc)) f) /\
    (forall d, In d (blob_names s) <->
       In d (nextHashesOf maxLinesPerBlob file) \/
       exists f hs, f <> relative file /\
         Js.get (file_map (loadIndexStore doc)) f = Some hs /\ In d hs).
Proof.
  exists (fileNextStore maxLinesPerBlob file doc).
  split; [|split; [|split]].
  - rewrite indexFile_main by exact Hfile.
    destruct (sameHashes _ _) eqn:E;
      [apply sameHashes_eq in E; contradiction|].
    replace (fileFailedBatches batchSize maxLinesPerBlob file doc server)
      with (@nil nat); [reflexivity|].
    symmetry. unfold fileFailedBatches.
    destruct (0 <? List.length _); [|reflexivity].
    now apply failed_nil.
  - unfold fileNextStore. cbn [file_map]. apply get_set_same.
  - intros f Hf. unfold fileNextStore. cbn [file_map].
    now apply get_set_other.
  - intros d. unfold fileNextStore. cbn [blob_names].
    rewrite collectBlobNames_get by now apply set_keys_NoDup.
    split.
    + intros (f & hs & Hg & Hd).
      destruct (string_dec f (relative file)) as [-> | Hne].
      * rewrite get_set_same in Hg. injection Hg as <-. now left.
      * rewrite get_set_other in Hg by exact Hne. right. now exists f, hs.
    + intros [Hd | (f & hs & Hne & Hg & Hd)].
      * exists (relative file), (nextHashesOf maxLinesPerBlob file).
        split; [apply get_set_same | exact Hd].
      * exists f, hs. rewrite get_set_other by exact Hne. auto.
Qed.

Definition editedFile : FileInfo := mkFileInfo "a.ts" false true true "y".

Lemma X3_indexFile_commit_witness :
  exists s,
    indexFile 10 800 editedFile (Stored indexedStore) echo =
    (mkResult "success" "Indexed file a.ts" None, Some s) /\
    Js.get (file_map s) "a.ts" = Some (nextHashesOf 800 editedFile).
Proof.
  assert (Hfile : indexable editedFile)
    by (repeat split; try reflexivity; discriminate).
  assert (Hkeys : NoDup (Js.keys (file_map
                    (loadIndexStore (Stored indexedStore)))))
    by (repeat constructor; intros []).
  assert (Hchanged :
    getOr (file_map (loadIndexStore (Stored indexedStore)))
          (relative editedFile) <> nextHashesOf 800 editedFile)
    by (vm_compute; discriminate).
  assert (Hok : forall k,
    k < totalBatches 10 (fileBlobsToUpload 800 editedFile
                           (Stored indexedStore)) ->
    uploadBatch 10 echo
      (fileBlobsToUpload 800 editedFile (Stored indexedStore))
      (fileHashesToUpload 800 editedFile (Stored indexedStore)) k <> None).
  { intros k Hk. vm_compute in Hk.
    assert (k = 0) as -> by lia. vm_compute. discriminate. }
  destruct (X3_indexFile_commit 10 800 editedFile (Stored indexedStore) echo
              Hfile Hkeys Hchanged Hok) as (s & Hrun & Hget & _).
  exists s. split; [exact Hrun | exact Hget].
Defined.

(** X4: indexing a file that had no entry and then dropping it (it
    became excluded, its extension is no longer allowed, or it is gone
    from disk) gives back the [file_map] the store had before, with
    [blob_names] recomputed from it. *)
Theorem X4_index_then_drop (batchSize maxLinesPerBlob : nat)
  (file file' : FileInfo) (doc : Document) (server server' : Server)
  (s1 : IndexStore)
  (Hfile : indexable file)
  (Hdropped : dropped file')
  (Hsame : relative file' = relative file)
  (Hnew : Js.get (file_map (loadIndexStore doc)) (relative file) = None)
  (Hrun : snd (indexFile batchSize maxLinesPerBlob file doc server)
          = Some s1) :
  exists reason,
    indexFile batchSize maxLinesPerBlob file' (Stored s1) server' =
    (mkResult "success" reason None,
     Some (mkStore 1 (collectBlobNames (file_map (loadIndexStore doc)))
                     (file_map (loadIndexStore doc)))).
Proof.
  rewrite indexFile_main in Hrun by exact Hfile.
  destruct (sameHashes _ _); [discriminate|].
  destruct (0 <? List.length _); [discriminate|].
  cbn [snd] in Hrun. injection Hrun as <-.
  destruct (indexFile_dropped batchSize maxLinesPerBlob file'
              (Stored (fileNextStore maxLinesPerBlob file doc)) server'
              Hdropped) as (reason & -> & Hreason).
  exists reason. rewrite Hsame.
  unfold removeFileFromIndex, fileNextStore. cbn [loadIndexStore file_map].
  rewrite get_set_same.
  rewrite remove_set_fresh by now apply get_None.
  unfold orElse. apply String.eqb_neq in Hreason. now rewrite Hreason.
Qed.

Lemma X4_index_then_drop_witness :
  exists reason,
    indexFile 10 800 (mkFileInfo "b.ts" true true true "y")
      (Stored (fileNextStore 800 (mkFileInfo "b.ts" false true true "y")
                 (Stored indexedStore))) down =
    (mkResult "success" reason None,
     Some (mkStore 1 (collectBlobNames (file_map indexedStore))
                     (file_map indexedStore))).
Proof.
  refine (X4_index_then_drop 10 800
            (mkFileInfo "b.ts" false true true "y")
            (mkFileInfo "b.ts" true true true "y")
            (Stored indexedStore) echo down _ _ _ _ _ _).
  - repeat split; try reflexivity. discriminate.
  - repeat split; try discriminate. now left.
  - reflexivity.
  - reflexivity.
  - vm_compute. reflexivity.
Defined.

(* ------------------------------------------------------------------ *)
(** ** Shape of the stores written *)
(* ------------------------------------------------------------------ *)

(** The paths of the map are distinct and none maps to an empty list. *)
Definition wellKeyed (s : IndexStore) : Prop :=
  NoDup (Js.keys (file_map s)) /\
  forall f hashes, In (f, hashes) (file_map s) -> hashes <> [].

Definition wellFormed (s : IndexStore) : Prop :=
  version s = 1 /\ NoDup (blob_names s) /\ wellKeyed s.

Lemma splitFileContent_nonempty (m : nat) (p c : string) :
  splitFileContent m p c <> [].
Proof.
  unfold splitFileContent.
  destruct (List.length (scanLines "" c) <=? m) eqn:E; [discriminate|].
  apply Nat.leb_gt in E.
  assert (H : 1 <= Js.ceilDiv (List.length (scanLines "" c)) m).
  { unfold Js.ceilDiv.
    destruct (Nat.eqb (List.length (scanLines "" c) mod m) 0) eqn:Em;
      [|lia].
    destruct m as [|m]; [simpl in Em; apply Nat.eqb_eq in Em; lia|].
    apply Nat.div_str_pos. lia. }
  destruct (Js.ceilDiv (List.length (scanLines "" c)) m); [lia|].
  discriminate.
Qed.

Lemma hashFile_snd (fileBlobs : list Blob) :
  snd (hashFile fileBlobs) = map digestOf fileBlobs.
Proof.
  unfold hashFile.
  assert (H : forall l st,
    snd (fold_left
           (fun (st : Js.dict Blob * list string) blob =>
              let blobHash := calculateBlobName (path blob) (content blob) in
              (Js.set (fst st) blobHash blob, snd st ++ [blobHash]))
           l st) = snd st ++ map digestOf l).
  { induction l as [|b l IH]; intros st; simpl.
    - now rewrite app_nil_r.
    - rewrite IH. cbn [snd]. now rewrite <- app_assoc. }
  apply H.
Qed.

Lemma nextHashesOf_nonempty (m : nat) (file : FileInfo) :
  nextHashesOf m file <> [].
Proof.
  unfold nextHashesOf, fileBlobsOf. rewrite hashFile_snd.
  pose proof (splitFileContent_nonempty m (relative file) (text file)).
  destruct (splitFileContent m (relative file) (text file));
    [congruence | discriminate].
Qed.

Lemma removed_wellKeyed (s : IndexStore) (k : string) :
  wellKeyed s ->
  wellKeyed (mkStore 1 (collectBlobNames (Js.remove (file_map s) k))
                     (Js.remove (file_map s) k)).
Proof.
  intros [Hnd Hne]. split; cbn [file_map].
  - now apply remove_keys_NoDup.
  - intros f hs Hin. apply remove_In in Hin. now apply (Hne f hs).
Qed.

(** X5: every store the three operations write has version 1, names no
    digest twice, and has a [file_map] with distinct paths and no empty
    digest list; for [indexFile] and [removeFileFromIndex] provided the
    [file_map] they loaded had distinct paths and no empty list (as every
    store written here has, and the empty store of a missing document). *)
Theorem X5_commits_well_formed (batchSize maxLinesPerBlob : nat) :
  (forall blobs doc server s,
     snd (indexProject batchSize blobs doc server) = Some s ->
     wellFormed s) /\
  (forall file doc server s,
     wellKeyed (loadIndexStore doc) ->
     snd (indexFile batchSize maxLinesPerBlob file doc server) = Some s ->
     wellFormed s) /\
  (forall relativePath reason doc s,
     wellKeyed (loadIndexStore doc) ->
     snd (removeFileFromIndex relativePath reason doc) = Some s ->
     wellFormed s) /\
  wellKeyed (loadIndexStore Missing).
Proof.
  split; [|split; [|split]].
  - intros blobs doc server s H.
    apply indexProject_committed in H as (-> & _).
    split; [reflexivity|]. split; [apply mkSet_NoDup|].
    split; [apply filterFileMap_NoDup|].
    intros f hs Hin. now apply committedOf_entry in Hin.
  - intros file doc server s Hwk H. unfold indexFile in H.
    destruct (toRelativePath (relative file)) as [rel|]; [|discriminate].
    destruct (String.eqb rel ""); [discriminate|].
    assert (Hrem : forall reason,
      snd (removeFileFromIndex rel reason doc) = Some s -> wellFormed s).
    { intros reason Hr. apply removeFileFromIndex_committed in Hr as ->.
      split; [reflexivity|]. split; [apply collectBlobNames_NoDup|].
      now apply removed_wellKeyed. }
    destruct (excluded file); [now apply Hrem in H|].
    destruct (negb (allowed file)); [now apply Hrem in H|].
    destruct (negb (isFile file)); [now apply Hrem in H|].
    pose proof (hashFile_snd (splitFileContent maxLinesPerBlob rel
                                               (text file))) as Hsnd.
    pose proof (splitFileContent_nonempty maxLinesPerBlob rel (text file))
      as Hne.
    destruct (hashFile _) as [hm nh]. cbn [snd] in Hsnd.
    destruct (sameHashes _ _); [discriminate|].
    destruct (0 <? List.length _); [discriminate|].
    cbn [snd] in H. injection H as <-.
    destruct Hwk as [Hnd Hlists].
    split; [reflexivity|]. split; [apply collectBlobNames_NoDup|].
    split; cbn [file_map].
    + now apply set_keys_NoDup.
    + intros f hs Hin. apply set_In_inv in Hin as [[= -> ->] | Hin].
      * rewrite Hsnd.
        destruct (splitFileContent maxLinesPerBlob rel (text file));
          [congruence | discriminate].
      * now apply (Hlists f hs).
  - intros relativePath reason doc s Hwk H.
    apply removeFileFromIndex_committed in H as ->.
    split; [reflexivity|]. split; [apply collectBlobNames_NoDup|].
    now apply removed_wellKeyed.
  - split; [constructor | intros f hs []].
Qed.

Lemma X5_commits_well_formed_witness :
  exists s,
    snd (indexFile 10 800 editedFile (Stored indexedStore) echo) = Some s /\
    wellFormed s.
Proof.
  eexists. split; [vm_compute; reflexivity|].
  apply (proj1 (proj2 (X5_commits_well_formed 10 800))
               editedFile (Stored indexedStore) echo).
  - split; [repeat constructor; intros [] |].
    intros f hs [[= <- <-] | []]. discriminate.
  - vm_compute. reflexivity.
Defined.

Lemma committed_names_nonempty (batchSize : nat) (blobs : list Blob) (doc : Document)
    (server : Server) (s : IndexStore) :
  snd (indexProject batchSize blobs doc server) = Some s ->
  blob_names s <> [].
Proof.
  intros Hcommit.
  apply indexProject_committed in Hcommit as (-> & Hne & Hr).
  cbn [blob_names committedOf]. unfold availableOf.
  rewrite mkSet_nil. intros E. apply app_eq_nil in E as [Hex Hup].
  unfold refuses in Hr. rewrite Hex, Hup in Hr.
  cbn [List.length Nat.eqb andb] in Hr. rewrite !andb_true_r in Hr.
  apply Nat.ltb_ge in Hr. rewrite blobsToUpload_length in Hr.
  destruct (allBlobHashesOf blobs) as [|d l] eqn:Ea;
    [now apply allBlobHashes_nonempty in Hne|].
  assert (Hd : In d (allBlobHashesOf blobs)) by (rewrite Ea; now left).
  apply (candidate_split blobs (loadIndexStore doc)) in Hd as [Hd | Hd].
  - rewrite Hex in Hd. destruct Hd.
  - destruct (newHashesOf blobs (loadIndexStore doc));
      [destruct Hd | simpl in Hr; lia].
Qed.

(** X6: a full reindex never writes an empty store: the store it commits
    names at least one digest and has at least one file entry. *)
Theorem X6_indexProject_commit_nonempty (batchSize : nat)
  (blobs : list Blob) (doc : Document) (server : Server) (s : IndexStore)
  (Hcommit : snd (indexProject batchSize blobs doc server) = Some s) :
  blob_names s <> [] /\ file_map s <> [].
Proof.
  apply indexProject_committed in Hcommit as (-> & Hne & Hr).
  assert (Hnames : blob_names (committedOf batchSize blobs doc server)
                   <> []).
  { cbn [blob_names committedOf]. unfold availableOf.
    rewrite mkSet_nil. intros E. apply app_eq_nil in E as [Hex Hup].
    unfold refuses in Hr. rewrite Hex, Hup in Hr.
    cbn [List.length Nat.eqb andb] in Hr. rewrite !andb_true_r in Hr.
    apply Nat.ltb_ge in Hr. rewrite blobsToUpload_length in Hr.
    destruct (allBlobHashesOf blobs) as [|d l] eqn:Ea;
      [now apply allBlobHashes_nonempty in Hne|].
    assert (Hd : In d (allBlobHashesOf blobs)) by (rewrite Ea; now left).
    apply (candidate_split blobs (loadIndexStore doc)) in Hd as [Hd | Hd].
    - rewrite Hex in Hd. destruct Hd.
    - destruct (newHashesOf blobs (loadIndexStore doc));
        [destruct Hd | simpl in Hr; lia]. }
  split; [exact Hnames|].
  destruct (blob_names (committedOf batchSize blobs doc server))
    as [|d l] eqn:E; [congruence|].
  assert (Hd : In d (blob_names (committedOf batchSize blobs doc server)))
    by (rewrite E; now left).
  apply committedOf_consistent in Hd as (f & hs & Hin & _).
  intros Hnil. rewrite Hnil in Hin. destruct Hin.
Qed.

Lemma X6_indexProject_commit_nonempty_witness :
  exists s,
    snd (indexProject 1 bigFile Missing (upTo 1)) = Some s /\
    blob_names s <> [].
Proof.
  eexists. split; [vm_compute; reflexivity|].
  refine (proj1 (X6_indexProject_commit_nonempty 1 bigFile Missing
                   (upTo 1) _ _)).
  vm_compute. reflexivity.
Defined.

(* ------------------------------------------------------------------ *)
(** ** What is uploaded *)
(* ------------------------------------------------------------------ *)

Lemma hashAll_get (blobs : list Blob) (d : string) (b : Blob) :
  Js.get (fst (hashAll blobs)) d = Some b -> digestOf b = d /\ In b blobs.
Proof.
  revert b. induction blobs as [|blob blobs IH] using rev_ind; intros b.
  - discriminate.
  - rewrite hashAll_snoc. destruct (hashAll blobs) as [hm fm].
    rewrite hashBlob_fst. cbn [fst] in IH.
    destruct (string_dec d (digestOf blob)) as [-> | Hne].
    + rewrite get_set_same. intros [= <-].
      split; [reflexivity | apply in_or_app; right; now left].
    + rewrite get_set_other by exact Hne. intros H.
      destruct (IH b H) as [Hd Hin].
      split; [exact Hd | apply in_or_app; now left].
Qed.

Lemma hashAll_get_digest (blobs : list Blob) (d : string) :
  In d (allBlobHashesOf blobs) ->
  option_map digestOf (Js.get (fst (hashAll blobs)) d) = Some d.
Proof.
  intros Hd. unfold allBlobHashesOf in Hd. rewrite mkSet_In in Hd.
  destruct (Js.get (fst (hashAll blobs)) d) as [b|] eqn:E.
  - apply hashAll_get in E as [E _]. simpl. now rewrite E.
  - apply get_None in E. contradiction.
Qed.

Lemma slice_map {A B} (f : A -> B) (l : list A) (a b : nat) :
  Js.slice (map f l) a b = map f (Js.slice l a b).
Proof. unfold Js.slice. now rewrite skipn_map, firstn_map. Qed.

Lemma batchOf_length {A} (batchSize : nat) (l : list A) (k : nat) :
  1 <= batchSize ->
  k < Js.ceilDiv (List.length l) batchSize ->
  1 <= List.length (batchOf batchSize l (List.length l) k) <= batchSize.
Proof.
  intros Hb Hk. unfold batchOf. rewrite slice_chunk.
  rewrite length_firstn, length_skipn.
  pose proof (ceilDiv_bounds (List.length l) batchSize Hb) as [_ Hu].
  nia.
Qed.

Lemma verifyBatch_same (names : list string) :
  names <> [] -> verifyBatch names names = true.
Proof.
  intros Hne. unfold verifyBatch.
  destruct names as [|n names]; [congruence|].
  cbn [List.length Nat.eqb]. rewrite Nat.eqb_refl. cbn [negb].
  apply forallb_forall. intros d Hd. now apply has_In.
Qed.

Lemma echo_names (batch : list (option Blob)) (names : list string) :
  map (option_map digestOf) batch = map Some names ->
  echo 0 batch = Returned names.
Proof.
  unfold echo. intros H. f_equal. revert names H.
  induction batch as [|[b|] batch IH]; intros [|n names] H; simpl in *;
    try discriminate; [reflexivity|].
  injection H as Hn H. subst n. f_equal. now apply IH.
Qed.

(** The blobs of a batch and the names expected for it. *)
Lemma batch_parts (batchSize : nat) (blobs : list Blob)
    (store : IndexStore) (k : nat) :
  1 <= batchSize ->
  k < totalBatches batchSize (blobsToUploadOf blobs store) ->
  1 <= List.length
         (batchOf batchSize (blobsToUploadOf blobs store)
                  (List.length (blobsToUploadOf blobs store)) k)
    <= batchSize /\
  map (option_map digestOf)
      (batchOf batchSize (blobsToUploadOf blobs store)
               (List.length (blobsToUploadOf blobs store)) k) =
  map Some (batchOf batchSize (newHashesOf blobs store)
                    (List.length (blobsToUploadOf blobs store)) k).
Proof.
  intros Hb Hk. split; [now apply batchOf_length|].
  unfold batchOf. rewrite <- !slice_map. f_equal.
  unfold blobsToUploadOf. rewrite map_map. apply map_ext_in.
  intros d Hd. apply hashAll_get_digest. now apply newHashes_In in Hd.
Qed.

(** X7: the upload stage of a full reindex sends each new digest once.
    The digests to upload are the candidate digests that the store does
    not name, without repetition; with a batch size of at least 1 the
    batches are consecutive pieces that add up to the whole list, each of
    1 to [batchSize] blobs; and the names expected for a batch are, in
    order, the digests of the blobs sent in it. *)
Theorem X7_upload_batches (batchSize : nat) (blobs : list Blob)
  (store : IndexStore) (Hbatch : 1 <= batchSize) :
  let newHashes := newHashesOf blobs store in
  let blobsToUpload := blobsToUploadOf blobs store in
  let total := totalBatches batchSize blobsToUpload in
  let sent := batchOf batchSize blobsToUpload (List.length blobsToUpload) in
  let expected := batchOf batchSize newHashes (List.length blobsToUpload) in
  NoDup newHashes /\
  (forall d, In d newHashes <->
     (exists b, In b blobs /\ digestOf b = d) /\
     ~ In d (blob_names store)) /\
  List.concat (map sent (seq 0 total)) = blobsToUpload /\
  List.concat (map expected (seq 0 total)) = newHashes /\
  (forall k, k < total ->
     1 <= List.length (sent k) <= batchSize /\
     map (option_map digestOf) (sent k) = map Some (expected k)).
Proof.
  intros newHashes blobsToUpload total sent expected.
  assert (Hlen : List.length blobsToUpload = List.length newHashes)
    by apply blobsToUpload_length.
  assert (Hdig : map (option_map digestOf) blobsToUpload
                 = map Some newHashes).
  { unfold blobsToUpload, blobsToUploadOf. fold newHashes.
    rewrite map_map. apply map_ext_in. intros d Hd.
    apply hashAll_get_digest. now apply newHashes_In in Hd. }
  split; [apply newHashes_NoDup|]. split; [|split; [|split]].
  - intros d. unfold newHashes. now rewrite newHashes_In, allBlobHashes_In.
  - unfold sent, total, totalBatches, batchOf. rewrite chunks_concat.
    apply firstn_all2. now apply ceilDiv_bounds.
  - unfold expected, total, totalBatches, batchOf. rewrite Hlen.
    rewrite chunks_concat.
    apply firstn_all2. now apply ceilDiv_bounds.
  - intros k Hk. split.
    + now apply batchOf_length.
    + unfold sent, expected, batchOf.
      now rewrite <- !slice_map, Hdig.
Qed.

Lemma X7_upload_batches_witness :
  List.concat
    (map (batchOf 1 (newHashesOf bigFile (loadIndexStore Missing)) 2)
         (seq 0 2)) =
  newHashesOf bigFile (loadIndexStore Missing).
Proof.
  assert (H : 1 <= 1) by lia.
  exact (proj1 (proj2 (proj2 (proj2
    (X7_upload_batches 1 bigFile (loadIndexStore Missing) H))))).
Defined.

(* ------------------------------------------------------------------ *)
(** ** The store after a full reindex without failure *)
(* ------------------------------------------------------------------ *)

Lemma hashAll_getOr (blobs : list Blob) (f : string) :
  getOr (snd (hashAll blobs)) f =
  map digestOf (filter (fun b => String.eqb (sourcePath b) f) blobs).
Proof.
  induction blobs as [|blob blobs IH] using rev_ind; [reflexivity|].
  rewrite hashAll_snoc, filter_app, map_app, <- IH.
  destruct (hashAll blobs) as [hm fm]. rewrite hashBlob_snd. cbn [snd].
  unfold getOr at 1. cbn [filter].
  destruct (String.eqb (sourcePath blob) f) eqn:E.
  - apply String.eqb_eq in E. subst f. now rewrite get_set_same.
  - apply String.eqb_neq in E.
    rewrite get_set_other by congruence.
    cbn [map]. rewrite app_nil_r. reflexivity.
Qed.

Lemma mkSet_snoc (l : list string) (x : string) :
  Js.mkSet (l ++ [x]) = Js.add (Js.mkSet l) x.
Proof. unfold Js.mkSet. now rewrite fold_left_app. Qed.

Lemma hashAll_keys (blobs : list Blob) :
  Js.keys (snd (hashAll blobs)) = Js.mkSet (map sourcePath blobs).
Proof.
  induction blobs as [|blob blobs IH] using rev_ind; [reflexivity|].
  rewrite hashAll_snoc, map_app. cbn [map]. rewrite mkSet_snoc, <- IH.
  destruct (hashAll blobs) as [hm fm]. rewrite hashBlob_snd. cbn [snd].
  now rewrite set_keys.
Qed.

Lemma add_member (s : list string) (x : string) :
  In x s -> Js.add s x = s.
Proof. intros H. unfold Js.add. apply has_In in H. now rewrite H. Qed.

Lemma fold_add_same (l s : list string) (x : string) :
  l <> [] -> (forall y, In y l -> y = x) ->
  fold_left Js.add l s = Js.add s x.
Proof.
  intros Hne Hall. destruct l as [|y l]; [congruence|].
  rewrite (Hall y (or_introl eq_refl)). simpl.
  assert (H : forall l acc, In x acc -> (forall y, In y l -> y = x) ->
                            fold_left Js.add l acc = acc).
  { clear. induction l as [|y l IH]; intros acc Hx Hall; simpl;
      [reflexivity|].
    rewrite (Hall y (or_introl eq_refl)), add_member by exact Hx.
    apply IH; [exact Hx | intros z Hz; apply Hall; now right]. }
  apply H; [apply add_In; now right | intros z Hz; apply Hall; now right].
Qed.

Lemma collectFiles_paths (m : nat) (files : list (string * string)) :
  NoDup (map fst files) ->
  Js.mkSet (map sourcePath (collectFiles m files)) = map fst files.
Proof.
  intros Hnd. unfold Js.mkSet.
  assert (H : forall l acc,
    NoDup (acc ++ map fst l) ->
    fold_left Js.add (map sourcePath (collectFiles m l)) acc
    = acc ++ map fst l).
  { induction l as [|[p c] l IH]; intros acc Hn; simpl.
    - now rewrite app_nil_r.
    - rewrite map_app, fold_left_app.
      rewrite (fold_add_same _ acc p).
      + unfold Js.add.
        replace (Js.has p acc) with false.
        * rewrite IH; rewrite <- app_assoc; [reflexivity | exact Hn].
        * symmetry. apply has_false. intros Hin.
          simpl in Hn. apply NoDup_remove_2 in Hn.
          apply Hn, in_or_app. now left.
      + pose proof (splitFileContent_nonempty m p c).
        destruct (splitFileContent m p c); [congruence | discriminate].
      + intros y Hy. apply in_map_iff in Hy as (b & <- & Hb).
        now apply splitFileContent_sourcePath in Hb. }
  apply (H files []). exact Hnd.
Qed.

Lemma collectFiles_of_path (m : nat) (files : list (string * string))
    (p c : string) :
  NoDup (map fst files) -> In (p, c) files ->
  filter (fun b => String.eqb (sourcePath b) p) (collectFiles m files)
  = splitFileContent m p c.
Proof.
  induction files as [|[p0 c0] files IH]; intros Hnd Hin; [destruct Hin|].
  simpl in Hnd. inversion Hnd as [|? ? Hp0 Hnd']; subst.
  unfold collectFiles. cbn [flat_map fst snd]. rewrite filter_app.
  fold (collectFiles m files).
  destruct Hin as [[= -> ->] | Hin].
  - rewrite filter_every, filter_none; [apply app_nil_r | |].
    + intros b Hb. apply collectFiles_sourcePath in Hb.
      apply String.eqb_neq. congruence.
    + intros b Hb. apply splitFileContent_sourcePath in Hb.
      now apply String.eqb_eq.
  - rewrite filter_none; [now apply IH|].
    intros b Hb. apply splitFileContent_sourcePath in Hb.
    apply String.eqb_neq. intros E. apply Hp0.
    apply (in_map fst) in Hin. cbn [fst] in Hin. congruence.
Qed.

Lemma success_committed (batchSize : nat) (blobs : list Blob)
    (doc : Document) (server : Server) (s : IndexStore) :
  1 <= batchSize ->
  status (fst (indexProject batchSize blobs doc server)) = "success" ->
  snd (indexProject batchSize blobs doc server) = Some s ->
  file_map s = snd (hashAll blobs) /\
  forall d, In d (blob_names s) <-> In d (allBlobHashesOf blobs).
Proof.
  intros Hb Hstatus Hcommit.
  pose proof Hcommit as Hc.
  apply indexProject_committed in Hc as (-> & Hne & Hr).
  assert (Hfailed : snd (uploadOf batchSize blobs doc server) = []).
  { rewrite indexProject_cases in Hstatus.
    replace (List.length blobs =? 0) with false in Hstatus
      by (symmetry; apply Nat.eqb_neq; destruct blobs;
          [congruence | simpl; lia]).
    rewrite Hr in Hstatus. cbn [fst status] in Hstatus.
    destruct (List.length (snd (uploadOf batchSize blobs doc server)) =? 0)
      eqn:E; [now apply length_zero_nil in E | discriminate]. }
  pose proof (success_all_available batchSize blobs doc server Hb Hfailed)
    as Hall.
  split.
  - cbn [file_map committedOf]. now apply candidates_all_available.
  - intros d. cbn [blob_names committedOf]. split; [|apply Hall].
    intros Hd. apply allBlobHashes_In. now apply availableOf_candidate in Hd.
Qed.

(** X8: after a full reindex that ends with status [success], over files
    with distinct paths, the committed [file_map] lists the collected
    files in walk order, each file maps to the digests of its blobs in
    chunk order, and [blob_names] holds exactly the digests of the
    collected blobs. *)
Theorem X8_indexProject_success_store (batchSize maxLinesPerBlob : nat)
  (files : list (string * string)) (doc : Document) (server : Server)
  (s : IndexStore)
  (Hbatch : 1 <= batchSize)
  (Hpaths : NoDup (map fst files))
  (Hstatus :
     status (fst (indexProject batchSize
                    (collectFiles maxLinesPerBlob files) doc server))
     = "success")
  (Hcommit :
     snd (indexProject batchSize
            (collectFiles maxLinesPerBlob files) doc server) = Some s) :
  Js.keys (file_map s) = map fst files /\
  (forall p c, In (p, c) files ->
     Js.get (file_map s) p =
     Some (map digestOf (splitFileContent maxLinesPerBlob p c))) /\
  (forall d, In d (blob_names s) <->
     exists b, In b (collectFiles maxLinesPerBlob files) /\ digestOf b = d).
Proof.
  destruct (success_committed _ _ _ _ _ Hbatch Hstatus Hcommit)
    as [Hmap Hnames].
  rewrite Hmap. split; [|split].
  - rewrite hashAll_keys. now apply collectFiles_paths.
  - intros p c Hin.
    pose proof (hashAll_getOr (collectFiles maxLinesPerBlob files) p) as Hg.
    rewrite (collectFiles_of_path _ _ p c Hpaths Hin) in Hg.
    unfold getOr in Hg.
    destruct (Js.get (snd (hashAll (collectFiles maxLinesPerBlob files))) p)
      as [hs|] eqn:E; [now rewrite Hg|].
    exfalso. apply get_None in E. apply E.
    rewrite hashAll_keys, collectFiles_paths by exact Hpaths.
    apply (in_map fst) in Hin. exact Hin.
  - intros d. now rewrite Hnames, allBlobHashes_In.
Qed.

Lemma X8_indexProject_success_store_witness :
  exists s,
    snd (indexProject 10 twoFiles (Stored onlyB) echo) = Some s /\
    Js.keys (file_map s) = ["a.ts"; "b.ts"].
Proof.
  eexists. split; [vm_compute; reflexivity|].
  refine (proj1 (X8_indexProject_success_store 10 800
                   [("a.ts", "x"); ("b.ts", "y")] (Stored onlyB) echo
                   _ _ _ _ _)).
  - lia.
  - repeat constructor; simpl; intuition discriminate.
  - vm_compute. reflexivity.
  - vm_compute. reflexivity.
Defined.

(** X9: with a remote store that hashes as the engine does and answers
    each batch with the names of the blobs it received, a full reindex of
    a non-empty collection never fails: every batch passes the check, the
    status is [success] and a store is written. *)
Theorem X9_honest_remote_succeeds (batchSize : nat) (blobs : list Blob)
  (doc : Document)
  (Hbatch : 1 <= batchSize) (Hblobs : blobs <> []) :
  (forall k,
     k < totalBatches batchSize (blobsToUploadOf blobs (loadIndexStore doc)) ->
     uploadBatch batchSize echo (blobsToUploadOf blobs (loadIndexStore doc))
       (newHashesOf blobs (loadIndexStore doc)) k =
     Some (batchOf batchSize (newHashesOf blobs (loadIndexStore doc))
             (List.length (blobsToUploadOf blobs (loadIndexStore doc))) k)) /\
  status (fst (indexProject batchSize blobs doc echo)) = "success" /\
  exists s, snd (indexProject batchSize blobs doc echo) = Some s.
Proof.
  assert (Hacc : forall k,
    k < totalBatches batchSize (blobsToUploadOf blobs (loadIndexStore doc)) ->
    uploadBatch batchSize echo (blobsToUploadOf blobs (loadIndexStore doc))
      (newHashesOf blobs (loadIndexStore doc)) k =
    Some (batchOf batchSize (newHashesOf blobs (loadIndexStore doc))
            (List.length (blobsToUploadOf blobs (loadIndexStore doc))) k)).
  { intros k Hk.
    destruct (batch_parts batchSize blobs (loadIndexStore doc) k Hbatch Hk)
      as [Hlen Hdig].
    unfold uploadBatch.
    change (echo k) with (echo 0). rewrite (echo_names _ _ Hdig).
    rewrite verifyBatch_same; [reflexivity|].
    intros E. apply (f_equal (@List.length _)) in E.
    rewrite <- (length_map Some), <- Hdig, length_map in E.
    simpl in E. lia. }
  split; [exact Hacc|].
  assert (Hfailed : snd (uploadOf batchSize blobs doc echo) = []).
  { unfold uploadOf. destruct (0 <? List.length _); [|reflexivity].
    apply failed_nil. intros k Hk. rewrite (Hacc k Hk). discriminate. }
  assert (Hr : refuses batchSize blobs doc echo = false).
  { destruct (refuses batchSize blobs doc echo) eqn:E; [|reflexivity].
    apply refuses_true in E as [Hex Hall]; [|exact Hblobs].
    destruct (allBlobHashesOf blobs) as [|d l] eqn:Ea;
      [now apply allBlobHashes_nonempty in Hblobs|].
    assert (Hd : In d (allBlobHashesOf blobs)) by (rewrite Ea; now left).
    apply (candidate_split blobs (loadIndexStore doc)) in Hd as [Hd | Hd].
    - rewrite Hex in Hd. destruct Hd.
    - destruct (batches_cover batchSize _ _ d Hbatch
                  (eq_sym (blobsToUpload_length blobs (loadIndexStore doc)))
                  Hd) as (k & Hk & _).
      specialize (Hall k Hk). rewrite (Hacc k Hk) in Hall. discriminate. }
  rewrite indexProject_cases.
  replace (List.length blobs =? 0) with false
    by (symmetry; apply Nat.eqb_neq; destruct blobs;
        [congruence | simpl; lia]).
  rewrite Hr, Hfailed. cbn [fst snd status List.length Nat.eqb].
  split; [reflexivity | eauto].
Qed.

Lemma X9_honest_remote_succeeds_witness :
  status (fst (indexProject 1 bigFile Missing echo)) = "success".
Proof.
  refine (proj1 (proj2
    (X9_honest_remote_succeeds 1 bigFile Missing _ _))).
  - lia.
  - vm_compute. discriminate.
Defined.

(* ================================================================== *)
(** * Further properties of the retry policy *)
(* ================================================================== *)

(** The number of calls of [fn] and the total time slept in a run. *)
Fixpoint calls (tr : list Retry.Event) : nat :=
  match tr with
  | [] => 0
  | Retry.Invoke _ :: tr' => S (calls tr')
  | Retry.Wait _ :: tr' => calls tr'
  end.

Fixpoint waited (tr : list Retry.Event) : nat :=
  match tr with
  | [] => 0
  | Retry.Invoke _ :: tr' => waited tr'
  | Retry.Wait ms :: tr' => ms + waited tr'
  end.

Lemma calls_app (a b : list Retry.Event) :
  calls (a ++ b) = calls a + calls b.
Proof.
  induction a as [|[j|ms] a IH]; simpl; [reflexivity | now rewrite IH | exact IH].
Qed.

Lemma waited_app (a b : list Retry.Event) :
  waited (a ++ b) = waited a + waited b.
Proof.
  induction a as [|[j|ms] a IH]; simpl;
    [reflexivity | exact IH | rewrite IH; lia].
Qed.

Lemma backoff_S (retryDelay k : nat) :
  Retry.backoff retryDelay (S k) =
  Retry.backoff retryDelay k ++
  [Retry.Invoke k; Retry.Wait (retryDelay * Nat.pow 2 k)].
Proof.
  unfold Retry.backoff. now rewrite seq_S, flat_map_app.
Qed.

Lemma backoff_calls (retryDelay k : nat) :
  calls (Retry.backoff retryDelay k) = k.
Proof.
  induction k as [|k IH]; [reflexivity|].
  rewrite backoff_S, calls_app, IH. simpl. lia.
Qed.

Lemma backoff_waited (retryDelay k : nat) :
  waited (Retry.backoff retryDelay k) = retryDelay * (Nat.pow 2 k - 1).
Proof.
  induction k as [|k IH]; [simpl; lia|].
  rewrite backoff_S, waited_app, IH. cbn [waited].
  pose proof (Nat.pow_nonzero 2 k ltac:(lia)).
  rewrite Nat.pow_succ_r'. nia.
Qed.

Section RetryShape.

Context {T : Type}.
Variable fn : nat -> Retry.Outcome T.
Variable maxRetries retryDelay : nat.

Let step (j : nat) : list Retry.Event :=
  [Retry.Invoke j; Retry.Wait (retryDelay * Nat.pow 2 j)].

Lemma retryLoop_shape (remaining : nat) :
  forall attempt lastError,
    1 <= remaining -> attempt + remaining = maxRetries ->
    exists k,
      attempt <= k < maxRetries /\
      Retry.trace (Retry.retryLoop fn maxRetries retryDelay remaining
                                   attempt lastError) =
        flat_map step (seq attempt (k - attempt)) ++ [Retry.Invoke k] /\
      (forall j, attempt <= j < k ->
         exists e, fn j = Retry.Rejected e /\ Retry.transient e = true) /\
      (forall v,
         Retry.result (Retry.retryLoop fn maxRetries retryDelay remaining
                                       attempt lastError) = inl v <->
         fn k = Retry.Resolved v).
Proof.
  induction remaining as [|remaining IH]; intros attempt lastError Hr Hsum;
    [lia|].
  cbn [Retry.retryLoop].
  destruct (fn attempt) as [v0|e] eqn:Hfn.
  { exists attempt. split; [lia|]. rewrite Nat.sub_diag, Hfn.
    split; [reflexivity|]. split; [intros j Hj; lia|].
    intros v. cbn [Retry.emit Retry.result]. split; intros H; congruence. }
  assert (Hstop : forall m,
    exists k,
      attempt <= k < maxRetries /\
      Retry.trace (Retry.emit T (Retry.Invoke attempt)
                              (Retry.mkRun (inr m) [])) =
        flat_map step (seq attempt (k - attempt)) ++ [Retry.Invoke k] /\
      (forall j, attempt <= j < k ->
         exists e, fn j = Retry.Rejected e /\ Retry.transient e = true) /\
      (forall v,
         Retry.result (Retry.emit T (Retry.Invoke attempt)
                                  (Retry.mkRun (inr m) [])) = inl v <->
         fn k = Retry.Resolved v)).
  { intros m. exists attempt. split; [lia|]. rewrite Nat.sub_diag, Hfn.
    split; [reflexivity|]. split; [intros j Hj; lia|].
    intros v. cbn [Retry.emit Retry.result]. split; intros H; discriminate. }
  destruct (Retry.statusIs e 401) eqn:E1; [apply Hstop|].
  destruct (Retry.statusIs e 403) eqn:E2; [apply Hstop|].
  destruct (Retry.isCertificateError e) eqn:E3; [apply Hstop|].
  destruct (negb (Retry.isRetryable e) || (attempt =? maxRetries - 1))
    eqn:E4; [apply Hstop|].
  apply orb_false_iff in E4 as [E4 E5].
  apply negb_false_iff in E4. apply Nat.eqb_neq in E5.
  destruct (IH (S attempt) (Some e)) as (k & Hk & Htr & Hprev & Hres);
    [lia | lia |].
  exists k. split; [lia|]. split; [|split].
  - cbn [Retry.emit Retry.trace Retry.result]. rewrite Htr.
    replace (k - attempt) with (S (k - S attempt)) by lia.
    reflexivity.
  - intros j Hj. destruct (Nat.eq_dec j attempt) as [-> | Hne].
    + exists e. split; [exact Hfn|].
      unfold Retry.transient. now rewrite E1, E2, E3, E4.
    + apply Hprev. lia.
  - exact Hres.
Qed.

End RetryShape.

(** X10: a run of [retryRequest] with [maxRetries >= 1] is a row of
    [k] transient failures, each followed by its wait, and one last call
    of index [k < maxRetries]: [fn] is called [k + 1] times, at most
    [maxRetries]; no wait follows the last call; the time slept is
    [retryDelay * (2^k - 1)]; and the run returns a value exactly when the
    last call resolved with it.  With [maxRetries = 0], [fn] is not called
    and 'All retries failed' is thrown. *)
Theorem X10_retryRequest_shape {T : Type}
  (fn : nat -> Retry.Outcome T) (maxRetries retryDelay : nat) :
  (maxRetries = 0 ->
   Retry.retryRequest fn maxRetries retryDelay =
   Retry.mkRun (inr Retry.AllRetriesFailed) []) /\
  (1 <= maxRetries ->
   exists k,
     k < maxRetries /\
     Retry.trace (Retry.retryRequest fn maxRetries retryDelay) =
       Retry.backoff retryDelay k ++ [Retry.Invoke k] /\
     (forall j, j < k ->
        exists e, fn j = Retry.Rejected e /\ Retry.transient e = true) /\
     (forall v,
        Retry.result (Retry.retryRequest fn maxRetries retryDelay) = inl v
        <-> fn k = Retry.Resolved v) /\
     calls (Retry.trace (Retry.retryRequest fn maxRetries retryDelay))
       = k + 1 /\
     waited (Retry.trace (Retry.retryRequest fn maxRetries retryDelay))
       = retryDelay * (Nat.pow 2 k - 1)).
Proof.
  split; [now intros ->|].
  intros Hmax.
  destruct (retryLoop_shape fn maxRetries retryDelay maxRetries 0 None
              Hmax eq_refl) as (k & Hk & Htr & Hprev & Hres).
  rewrite Nat.sub_0_r in Htr.
  exists k. unfold Retry.retryRequest.
  split; [lia|]. split; [exact Htr|].
  split; [intros j Hj; apply Hprev; lia|]. split; [exact Hres|].
  rewrite Htr. fold (Retry.backoff retryDelay k).
  rewrite calls_app, waited_app, backoff_calls, backoff_waited.
  simpl. lia.
Qed.

Lemma X10_retryRequest_shape_witness :
  exists k,
    k < 3 /\
    calls (Retry.trace (Retry.retryRequest Retry.alwaysRefused 3 1000))
      = k + 1.
Proof.
  destruct (proj2 (X10_retryRequest_shape Retry.alwaysRefused 3 1000)
              ltac:(lia)) as (k & Hk & _ & _ & _ & Hcalls & _).
  exists k. split; [exact Hk | exact Hcalls].
Defined.

(* ================================================================== *)
(** * The query client *)
(* ================================================================== *)

(** The retrieval service: what attempt [k] of the request carrying the
    digests [added_blobs] does; a resolved attempt gives the
    [formatted_retrieval] of the body (an absent one reads as the empty
    string). *)
Definition Retrieval : Type := list string -> nat -> Retry.Outcome string.

(** What [searchCodebase] returns, by the place it returns from: the text
    of the service; "No relevant code context found for your query.";
    "Error: Failed to index project. " followed by the message of the
    index result; "Error: No blobs found after indexing."; or, from its
    [catch], "Error: " followed by the message of the error
    [retryRequest] threw. *)
Inductive Reply : Type :=
| Retrieved (formattedRetrieval : string)
| NothingFound
| IndexFailed (indexMessage : string)
| NoBlobs
| Failure (m : Retry.Message).

Record Search : Type := mkSearch {
  reply : Reply;
  documentLeft : Document;
  request : option (list string)
}.

Section QueryClient.

Variable batchSize : nat.

(** [searchCodebase] on the blobs [collectFiles] would return, the
    document of the store, the remote blob store and the retrieval
    service.  [request] is the [added_blobs] of the request made, if
    any. *)
Definition searchCodebase (blobs : list Blob) (doc : Document)
    (server : Server) (retrieval : Retrieval) : Search :=
  let blobNames := blob_names (loadIndexStore doc) in
  let indexed :=
    if List.length blobNames =? 0 then
      let indexResult := indexProject batchSize blobs doc server in
      if String.eqb (status (fst indexResult)) "error" then
        inl (message (fst indexResult))
      else inr (documentAfter doc indexResult)
    else inr doc in
  match indexed with
  | inl indexMessage => mkSearch (IndexFailed indexMessage) doc None
  | inr doc' =>
      let blobNames := blob_names (loadIndexStore doc') in
      if List.length blobNames =? 0 then
        mkSearch NoBlobs doc' None
      else
        let run := Retry.retryRequest (retrieval blobNames) 3 2000 in
        match Retry.result run with
        | inl formattedRetrieval =>
            if String.eqb formattedRetrieval "" then
              mkSearch NothingFound doc' (Some blobNames)
            else
              mkSearch (Retrieved formattedRetrieval) doc' (Some blobNames)
        | inr m => mkSearch (Failure m) doc' (Some blobNames)
        end
  end.

End QueryClient.

Lemma indexProject_status (batchSize : nat) (blobs : list Blob)
    (doc : Document) (server : Server) :
  (status (fst (indexProject batchSize blobs doc server)) = "error" /\
   snd (indexProject batchSize blobs doc server) = None) \/
  (status (fst (indexProject batchSize blobs doc server)) <> "error" /\
   exists s, snd (indexProject batchSize blobs doc server) = Some s).
Proof.
  rewrite indexProject_cases.
  destruct (List.length blobs =? 0); [left; now split|].
  destruct (refuses batchSize blobs doc server); [left; now split|].
  right. cbn [fst snd status]. split; [|eauto].
  destruct (List.length _ =? 0); discriminate.
Qed.

(** X11: [searchCodebase] asks the retrieval service only with a
    non-empty list of digests, and that list is the [blob_names] of the
    document as the call leaves it.  When the store already names
    digests, nothing is indexed and the document is untouched.  When it
    names none, a full reindex runs first; if that fails, the service is
    not asked and the document is untouched.  The reply "No blobs found
    after indexing" never occurs. *)
Theorem X11_searchCodebase_request (batchSize : nat) (blobs : list Blob)
  (doc : Document) (server : Server) (retrieval : Retrieval) :
  let search := searchCodebase batchSize blobs doc server retrieval in
  (forall names, request search = Some names ->
     names <> [] /\
     names = blob_names (loadIndexStore (documentLeft search))) /\
  (blob_names (loadIndexStore doc) <> [] ->
   documentLeft search = doc /\
   request search = Some (blob_names (loadIndexStore doc)) /\
   forall blobs' server',
     searchCodebase batchSize blobs' doc server' retrieval = search) /\
  (blob_names (loadIndexStore doc) = [] ->
   status (fst (indexProject batchSize blobs doc server)) = "error" ->
   search =
   mkSearch
     (IndexFailed (message (fst (indexProject batchSize blobs doc server))))
     doc None) /\
  reply search <> NoBlobs.
Proof.
  intros search. subst search. unfold searchCodebase.
  destruct (List.length (blob_names (loadIndexStore doc)) =? 0) eqn:E0.
  - apply length_zero_nil in E0.
    destruct (indexProject_status batchSize blobs doc server)
      as [[Hs Hn] | [Hs (s & Hc)]].
    + rewrite Hs. cbn [String.eqb].
      replace (String.eqb "error" "error") with true by reflexivity.
      cbn [request reply documentLeft].
      repeat split; try discriminate; try congruence.
    + apply String.eqb_neq in Hs. rewrite Hs.
      unfold documentAfter. rewrite Hc. cbn [loadIndexStore].
      pose proof (committed_names_nonempty batchSize blobs doc server s Hc)
        as Hne.
      destruct (List.length (blob_names s) =? 0) eqn:E1;
        [apply length_zero_nil in E1; congruence|].
      apply String.eqb_neq in Hs.
      destruct (Retry.result _) as [text|m];
        [destruct (String.eqb text "")|];
        cbn [request reply documentLeft loadIndexStore];
        (split; [intros names [= <-]; now split|]);
        (split; [congruence|]);
        (split; [congruence | discriminate]).
  - assert (Hne : blob_names (loadIndexStore doc) <> [])
      by (intros H; rewrite H in E0; discriminate).
    rewrite E0.
    destruct (Retry.result _) as [text|m];
      [destruct (String.eqb text "")|];
      cbn [request reply documentLeft];
      (split; [intros names [= <-]; now split|]);
      (split; [intros _; now repeat split|]);
      (split; [congruence | discriminate]).
Qed.

Lemma X11_searchCodebase_request_witness :
  request (searchCodebase 10 [] (Stored indexedStore) down
             (fun _ _ => Retry.Rejected Retry.refused)) =
  Some (blob_names indexedStore).
Proof.
  refine (proj1 (proj2 (proj1 (proj2
    (X11_searchCodebase_request 10 [] (Stored indexedStore) down
       (fun _ _ => Retry.Rejected Retry.refused))) _))).
  discriminate.
Defined.

(* ================================================================== *)
(** * Further properties of the content splitter *)
(* ================================================================== *)

Lemma scanLines_body (body : string) :
  forall line rest,
    noBreak body = true ->
    scanLines line (body +++ rest) = scanLines (line +++ body) rest.
Proof.
  induction body as [|c body IH]; intros line rest Hb.
  - now rewrite append_nil_r.
  - cbn [noBreak] in Hb. apply andb_true_iff in Hb as [Hc Hb].
    apply negb_true_iff in Hc. unfold isBreak in Hc.
    apply orb_false_iff in Hc as [Hlf Hcr].
    cbn [String.append scanLines]. rewrite Hlf, Hcr.
    rewrite IH by exact Hb. now rewrite append_assoc.
Qed.

Lemma lineSplit_tail (l : string) (ls : list string) :
  lineSplit (l :: ls) -> l <> "" /\ lineSplit ls.
Proof.
  intros H.
  inversion H as [| body Hb Hne | body ls' Hb Hs | body ls' Hb Hs
                  | body ls' Hb Hs Hh]; subst.
  - split; [assumption | constructor].
  - split; [destruct body; discriminate | assumption].
  - split; [destruct body; discriminate | assumption].
  - split; [destruct body; discriminate | assumption].
Qed.

Lemma join_head (ls : list string) (c : ascii) (r : string) :
  lineSplit ls -> Js.join ls = String c r -> headLF ls = Ascii.eqb c LF.
Proof.
  intros Hs Hj. destruct ls as [|l ls]; [discriminate|].
  apply lineSplit_tail in Hs as [Hne _]. rewrite join_cons in Hj.
  destruct l as [|c0 l]; [congruence|].
  simpl in Hj. injection Hj as -> _. reflexivity.
Qed.

(** Scanning the lines put together gives the lines back. *)
Lemma lineSplit_scan (ls : list string) :
  lineSplit ls -> scanLines "" (Js.join ls) = ls.
Proof.
  induction 1 as [| body Hb Hne | body ls Hb Hs IH | body ls Hb Hs IH
                  | body ls Hb Hs IH Hhead].
  - reflexivity.
  - change (Js.join [body]) with body.
    pose proof (scanLines_body body "" "" Hb) as H.
    rewrite append_nil_r in H. rewrite H. simpl.
    apply String.eqb_neq in Hne. now rewrite Hne.
  - rewrite join_cons, append_assoc, scanLines_body by exact Hb.
    simpl. now rewrite IH.
  - rewrite join_cons, append_assoc, scanLines_body by exact Hb.
    simpl. now rewrite IH.
  - rewrite join_cons, append_assoc, scanLines_body by exact Hb.
    cbn [String.append scanLines].
    replace (Ascii.eqb CR LF) with false by reflexivity.
    replace (Ascii.eqb CR CR) with true by reflexivity.
    destruct (Js.join ls) as [|c r] eqn:Ej.
    + now rewrite IH.
    + rewrite <- (join_head ls c r Hs Ej), Hhead. now rewrite IH.
Qed.

Lemma lineSplit_skipn (n : nat) (ls : list string) :
  lineSplit ls -> lineSplit (skipn n ls).
Proof.
  revert ls. induction n as [|n IH]; intros ls Hs; [exact Hs|].
  destruct ls as [|l ls]; [exact Hs|].
  apply lineSplit_tail in Hs as [_ Hs]. now apply IH.
Qed.

Lemma headLF_firstn (n : nat) (ls : list string) :
  headLF ls = false -> headLF (firstn n ls) = false.
Proof. destruct n, ls; simpl; auto. Qed.

Lemma lineSplit_firstn (n : nat) (ls : list string) :
  lineSplit ls -> lineSplit (firstn n ls).
Proof.
  intros Hs. revert n.
  induction Hs as [| body Hb Hne | body ls Hb Hs IH | body ls Hb Hs IH
                   | body ls Hb Hs IH Hhead]; intros [|n];
    try (simpl; constructor; fail).
  - simpl. rewrite firstn_nil. now constructor.
  - simpl. apply split_lf; auto.
  - simpl. apply split_crlf; auto.
  - simpl. apply split_cr; auto. now apply headLF_firstn.
Qed.

Lemma lineSplit_slice (ls : list string) (a b : nat) :
  lineSplit ls -> lineSplit (Js.slice ls a b).
Proof.
  intros Hs. unfold Js.slice. now apply lineSplit_firstn, lineSplit_skipn.
Qed.

(** X12: with a threshold of at least 1, no blob of [splitFileContent]
    has more than [maxLinesPerBlob] lines, counted as the splitter counts
    them; a chunk of a split file has exactly the lines of its slice (at
    least one); and splitting the content of a blob again leaves it in
    one piece. *)
Theorem X12_blob_line_bound (maxLinesPerBlob : nat) (p c : string)
  (Hmax : 1 <= maxLinesPerBlob) :
  let lines := scanLines "" c in
  let total := List.length lines in
  (forall b, In b (splitFileContent maxLinesPerBlob p c) ->
     List.length (scanLines "" (content b)) <= maxLinesPerBlob /\
     forall p', splitFileContent maxLinesPerBlob p' (content b) =
                [mkBlob p' (content b) p']) /\
  (maxLinesPerBlob < total ->
   forall i b,
     nth_error (splitFileContent maxLinesPerBlob p c) i = Some b ->
     scanLines "" (content b) =
       Js.slice lines (i * maxLinesPerBlob)
                (Nat.min (i * maxLinesPerBlob + maxLinesPerBlob) total) /\
     1 <= List.length (scanLines "" (content b))).
Proof.
  intros lines total.
  destruct (scanLines_spec c "" eq_refl) as [Hs _]. fold lines in Hs.
  assert (Hchunk : forall i,
    scanLines "" (Js.join (Js.slice lines (i * maxLinesPerBlob)
       (Nat.min (i * maxLinesPerBlob + maxLinesPerBlob) total))) =
    Js.slice lines (i * maxLinesPerBlob)
       (Nat.min (i * maxLinesPerBlob + maxLinesPerBlob) total)).
  { intros i. apply lineSplit_scan. now apply lineSplit_slice. }
  assert (Hsingle : forall b,
    List.length (scanLines "" (content b)) <= maxLinesPerBlob ->
    forall p', splitFileContent maxLinesPerBlob p' (content b) =
               [mkBlob p' (content b) p']).
  { intros b Hle p'. unfold splitFileContent.
    apply Nat.leb_le in Hle. now rewrite Hle. }
  split.
  - intros b Hb.
    assert (Hle : List.length (scanLines "" (content b))
                  <= maxLinesPerBlob).
    { unfold splitFileContent in Hb. fold lines in Hb. fold total in Hb.
      destruct (total <=? maxLinesPerBlob) eqn:E.
      - destruct Hb as [<- | []]. cbn [content]. now apply Nat.leb_le.
      - apply in_map_iff in Hb as (i & <- & _). cbn [content].
        rewrite Hchunk. unfold total. rewrite slice_chunk, length_firstn.
        lia. }
    split; [exact Hle | now apply Hsingle].
  - intros Hlt i b Hnth.
    unfold splitFileContent in Hnth. fold lines in Hnth. fold total in Hnth.
    apply Nat.leb_gt in Hlt. rewrite Hlt in Hnth.
    assert (Hi : i < Js.ceilDiv total maxLinesPerBlob).
    { assert (H : i < List.length
        (map (fun chunkIdx : nat =>
                mkBlob
                  (p +++ "#chunk" +++ Js.ofNat (chunkIdx + 1) +++ "of" +++
                   Js.ofNat (Js.ceilDiv total maxLinesPerBlob))
                  (Js.join (Js.slice lines (chunkIdx * maxLinesPerBlob)
                     (Nat.min (chunkIdx * maxLinesPerBlob + maxLinesPerBlob)
                              total)))
                  p)
             (seq 0 (Js.ceilDiv total maxLinesPerBlob))))
        by (apply nth_error_Some; rewrite Hnth; discriminate).
      now rewrite length_map, length_seq in H. }
    rewrite nth_error_map_seq in Hnth by exact Hi.
    injection Hnth as <-. cbn [content]. rewrite Hchunk.
    split; [reflexivity|].
    apply (batchOf_length maxLinesPerBlob lines i Hmax Hi).
Qed.

Lemma X12_blob_line_bound_witness :
  1 <= 2 /\
  List.length
    (scanLines "" (content (hd (mkBlob "" "" "")
                               (splitFileContent 2 "f.ts" mixed)))) <= 2.
Proof.
  split; [lia|].
  refine (proj1 (proj1 (X12_blob_line_bound 2 "f.ts" mixed _) _ _)).
  - lia.
  - vm_compute. left. reflexivity.
Defined.

Lemma append_inv_head (a x y : string) : a +++ x = a +++ y -> x = y.
Proof.
  induction a as [|c a IH]; simpl; [auto|]. intros [= H]. now apply IH.
Qed.

Lemma string_of_list_of_string (s : string) :
  string_of_list_ascii (list_ascii_of_string s) = s.
Proof. apply string_of_list_ascii_of_string. Qed.

Lemma append_inv_tail (x y z : string) : x +++ z = y +++ z -> x = y.
Proof.
  intros H. apply (f_equal list_ascii_of_string) in H.
  rewrite !list_of_append in H. apply app_inv_tail in H.
  rewrite <- (string_of_list_of_string x), <- (string_of_list_of_string y).
  now rewrite H.
Qed.

Lemma to_uint_not_nil (n : nat) : Nat.to_uint n <> Decimal.Nil.
Proof.
  intros H. pose proof (Unsigned.of_to n) as Hn.
  rewrite H in Hn. simpl in Hn. subst n. discriminate.
Qed.

Lemma ofNat_inj (a b : nat) : Js.ofNat a = Js.ofNat b -> a = b.
Proof.
  unfold Js.ofNat. intros H.
  apply (f_equal NilZero.uint_of_string) in H.
  rewrite !NilZero.usu in H by apply to_uint_not_nil.
  injection H as H. now apply Unsigned.to_uint_inj.
Qed.

Lemma NoDup_map_on {A B} (f : A -> B) (l : list A) :
  (forall x y, In x l -> In y l -> f x = f y -> x = y) ->
  NoDup l -> NoDup (map f l).
Proof.
  intros Hinj Hnd. induction Hnd as [|x l Hx Hnd IH]; simpl; constructor.
  - intros Hin. apply in_map_iff in Hin as (y & Hxy & Hy).
    assert (y = x) by (apply Hinj; [now right | now left | exact Hxy]).
    subst y. contradiction.
  - apply IH. intros a b Ha Hb. apply Hinj; now right.
Qed.

(** X13: the logical paths of the blobs of one file are pairwise
    distinct, and when the file is split none of them is the path of the
    file itself. *)
Theorem X13_logical_paths_distinct (maxLinesPerBlob : nat) (p c : string) :
  NoDup (map path (splitFileContent maxLinesPerBlob p c)) /\
  (maxLinesPerBlob < List.length (scanLines "" c) ->
   forall b, In b (splitFileContent maxLinesPerBlob p c) -> path b <> p).
Proof.
  unfold splitFileContent.
  destruct (List.length (scanLines "" c) <=? maxLinesPerBlob) eqn:E.
  - split; [repeat constructor; intros [] |].
    intros Hlt. apply Nat.leb_le in E. lia.
  - split.
    + rewrite map_map. cbn [path]. apply NoDup_map_on; [|apply seq_NoDup].
      intros i j _ _ H.
      apply append_inv_head, (append_inv_head "#chunk") in H.
      apply append_inv_tail, ofNat_inj in H. lia.
    + intros _ b Hb. apply in_map_iff in Hb as (i & <- & _). cbn [path].
      intros H. apply (f_equal String.length) in H.
      rewrite length_append in H. simpl in H. lia.
Qed.

Lemma X13_logical_paths_distinct_witness :
  path (hd (mkBlob "" "" "") (splitFileContent 2 "f.ts" mixed)) <> "f.ts".
Proof.
  refine (proj2 (X13_logical_paths_distinct 2 "f.ts" mixed) _ _ _).
  - vm_compute. lia.
  - vm_compute. left. reflexivity.
Defined.

(* ================================================================== *)
(** * Further properties of the ignore filter *)
(* ================================================================== *)





(* ================================================================== *)
(** * The save listener: debounce and single flight *)
(* ================================================================== *)

(** The module state [indexFileWithDebounce] works on: the flag
    [isIndexing], the paths that have a pending timer in
    [indexDebounceTimers], and the calls of [indexFile] that have started
    and not yet settled. *)
Module Scheduler.

Record State : Type := mkState {
  isIndexing : bool;
  timers : list string;
  inFlight : list string
}.

Definition initial : State := mkState false [] [].

(** What can happen, one at a time as the event loop runs callbacks to
    completion: a document is saved; the timer of a path fires (with or
    without a workspace folder open); a started [indexFile] settles. *)
Inductive Event : Type :=
| Saved (filePath : string)
| Fired (filePath : string) (hasRoot : bool)
| Settled (filePath : string).

Definition without (filePath : string) (l : list string) : list string :=
  filter (fun p => negb (String.eqb p filePath)) l.

(** One event; [None] when it cannot happen in the state (no such timer,
    no such call). *)
Definition step (st : State) (ev : Event) : option State :=
  match ev with
  | Saved filePath =>
      (* the old timer of the path is cleared and a new one is set *)
      Some (mkState (isIndexing st)
                    (without filePath (timers st) ++ [filePath])
                    (inFlight st))
  | Fired filePath hasRoot =>
      if Js.has filePath (timers st) then
        let timers' := without filePath (timers st) in
        if isIndexing st then
          (* skipped: another run is going on *)
          Some (mkState true timers' (inFlight st))
        else if hasRoot then
          (* the flag is set and [indexFile] starts *)
          Some (mkState true timers' (filePath :: inFlight st))
        else
          (* no folder: [finally] resets the flag at once *)
          Some (mkState false timers' (inFlight st))
      else None
  | Settled filePath =>
      if Js.has filePath (inFlight st) then
        (* [finally]: the flag is reset *)
        Some (mkState false (timers st) (without filePath (inFlight st)))
      else None
  end.

Fixpoint run (st : State) (evs : list Event) : option State :=
  match evs with
  | [] => Some st
  | ev :: evs' =>
      match step st ev with
      | Some st' => run st' evs'
      | None => None
      end
  end.

(** At most one call in flight, the flag is up exactly while there is
    one, and no path has two timers. *)
Definition safe (st : State) : Prop :=
  List.length (inFlight st) <= 1 /\
  (isIndexing st = true <-> inFlight st <> []) /\
  NoDup (timers st).

End Scheduler.

Lemma without_In (filePath p : string) (l : list string) :
  In p (Scheduler.without filePath l) <-> In p l /\ p <> filePath.
Proof.
  unfold Scheduler.without. rewrite filter_In, negb_true_iff.
  now rewrite String.eqb_neq.
Qed.

Lemma without_NoDup (filePath : string) (l : list string) :
  NoDup l -> NoDup (Scheduler.without filePath l).
Proof. apply NoDup_filter. Qed.

Lemma step_safe (st st' : Scheduler.State) (ev : Scheduler.Event) :
  Scheduler.safe st -> Scheduler.step st ev = Some st' -> Scheduler.safe st'.
Proof.
  intros (Hlen & Hflag & Hnd) Hstep. destruct ev as [p | p hasRoot | p];
    simpl in Hstep.
  - injection Hstep as <-. split; [exact Hlen|]. split; [exact Hflag|].
    cbn [Scheduler.timers]. apply NoDup_app.
    + now apply without_NoDup.
    + repeat constructor. intros [].
    + intros x Hx [<- | []]. apply without_In in Hx. now destruct Hx.
  - destruct (Js.has p (Scheduler.timers st)); [|discriminate].
    destruct (Scheduler.isIndexing st) eqn:Ei.
    + injection Hstep as <-. split; [exact Hlen|].
      split; [exact Hflag | now apply without_NoDup].
    + assert (Hnil : Scheduler.inFlight st = []).
      { destruct (Scheduler.inFlight st) as [|x l]; [reflexivity|].
        assert (false = true) by (apply Hflag; discriminate).
        discriminate. }
      destruct hasRoot; injection Hstep as <-;
        cbn [Scheduler.safe Scheduler.inFlight Scheduler.isIndexing
             Scheduler.timers]; unfold Scheduler.safe;
        cbn [Scheduler.inFlight Scheduler.isIndexing Scheduler.timers];
        rewrite Hnil.
      * split; [simpl; lia|]. split; [|now apply without_NoDup].
        split; [discriminate | reflexivity].
      * split; [simpl; lia|]. split; [|now apply without_NoDup].
        split; [discriminate | congruence].
  - destruct (Js.has p (Scheduler.inFlight st)) eqn:Eh; [|discriminate].
    injection Hstep as <-.
    destruct (Scheduler.inFlight st) as [|x [|y l]] eqn:El.
    + discriminate.
    + unfold Js.has in Eh. simpl in Eh. rewrite orb_false_r in Eh.
      unfold Scheduler.safe.
      cbn [Scheduler.inFlight Scheduler.isIndexing Scheduler.timers].
      unfold Scheduler.without. simpl.
      rewrite String.eqb_sym, Eh. simpl.
      split; [lia|]. split; [|exact Hnd].
      split; [discriminate | congruence].
    + simpl in Hlen. lia.
Qed.

(** X15: however saves, timers and settling runs interleave, starting
    from the initial state, at most one [indexFile] call is in flight at
    any time, the flag [isIndexing] is up exactly while one is, and no
    path ever has two pending timers.  A timer that fires while a run is
    in flight starts nothing and leaves no timer for its path. *)
Theorem X15_single_flight (evs : list Scheduler.Event) (st : Scheduler.State)
  (Hrun : Scheduler.run Scheduler.initial evs = Some st) :
  Scheduler.safe st /\
  forall filePath hasRoot st',
    Scheduler.isIndexing st = true ->
    Scheduler.step st (Scheduler.Fired filePath hasRoot) = Some st' ->
    Scheduler.inFlight st' = Scheduler.inFlight st /\
    ~ In filePath (Scheduler.timers st').
Proof.
  assert (Hsafe : forall evs st0 st1,
    Scheduler.safe st0 -> Scheduler.run st0 evs = Some st1 ->
    Scheduler.safe st1).
  { clear. induction evs as [|ev evs IH]; intros st0 st1 Hs Hr; simpl in Hr.
    - now injection Hr as <-.
    - destruct (Scheduler.step st0 ev) as [st'|] eqn:E; [|discriminate].
      apply (IH st' st1); [|exact Hr]. now apply (step_safe st0 st' ev). }
  split.
  - apply (Hsafe evs Scheduler.initial st); [|exact Hrun].
    split; [simpl; lia|]. split; [|constructor].
    simpl. split; [discriminate | congruence].
  - intros p hasRoot st' Hflag Hstep. simpl in Hstep.
    destruct (Js.has p (Scheduler.timers st)); [|discriminate].
    rewrite Hflag in Hstep. injection Hstep as <-.
    cbn [Scheduler.inFlight Scheduler.timers]. split; [reflexivity|].
    intros Hin. apply without_In in Hin. now destruct Hin.
Qed.

Lemma X15_single_flight_witness :
  Scheduler.safe
    (Scheduler.mkState true [] ["a.ts"]).
Proof.
  refine (proj1 (X15_single_flight
    [Scheduler.Saved "a.ts"; Scheduler.Saved "b.ts"; Scheduler.Saved "a.ts";
     Scheduler.Fired "b.ts" false; Scheduler.Fired "a.ts" true]
    (Scheduler.mkState true [] ["a.ts"]) _)).
  reflexivity.
Defined.

(* ================================================================== *)
(** * The project directory helpers *)
(* ================================================================== *)

Module Project.

(** [s.endsWith(suffix)]. *)
Fixpoint endsWith (suffix s : string) : bool :=
  String.eqb suffix s ||
  match s with
  | EmptyString => false
  | String _ s' => endsWith suffix s'
  end.

Definition entry : string := ".ace-tool/" +++ String LF "".

(** What [addToGitignore] writes to the ignore file, given its content
    ([None]: there is no such file); [None] when it writes nothing. *)
Definition addToGitignore (gitignore : option string) : option string :=
  let content :=
    match gitignore with
    | Some content => content
    | None => ""
    end in
  let mentioned :=
    match gitignore with
    | Some content => Js.includes ".ace-tool" content
    | None => false
    end in
  if mentioned then None
  else
    let newContent :=
      if endsWith (String LF "") content || String.eqb content ""
      then content +++ entry
      else content +++ String LF "" +++ entry in
    Some newContent.

(** The part of the project directory the helpers touch: whether the
    [.ace-tool] directory is there, the content of [.gitignore], and
    whether that file can be read and written (a failure there is
    swallowed and leaves the file as it is). *)
Record Files : Type := mkFiles {
  aceDir : bool;
  gitignore : option string;
  writable : bool
}.

(** [getAceDir] (and so [getIndexFilePath], which every [IndexManager]
    runs when it is built): the files after a call that returns. *)
Definition getAceDir (fs : Files) : Files :=
  if aceDir fs then fs
  else
    mkFiles true
      match addToGitignore (gitignore fs) with
      | Some newContent =>
          if writable fs then Some newContent else gitignore fs
      | None => gitignore fs
      end
      (writable fs).

(** A directory as the list of its segments, innermost first, so that the
    parent of a directory is the tail and the root is the empty list. *)
Definition Dir : Type := list string.

Section Detect.

(** [.ace-tool] exists there and is a directory; [.git] exists there. *)
Variable hasAceDir : Dir -> bool.
Variable hasGit : Dir -> bool.

Definition marked (dir : Dir) : bool := hasAceDir dir || hasGit dir.

(** The loop of [detectProjectRoot]: the first marked directory on the
    way up, if there is one. *)
Fixpoint climb (currentDir : Dir) : option Dir :=
  if hasAceDir currentDir then Some currentDir
  else if hasGit currentDir then Some currentDir
  else
    match currentDir with
    | [] => None
    | _ :: parentDir => climb parentDir
    end.

Definition detectProjectRoot (workspacePath : Dir) : Dir :=
  match climb workspacePath with
  | Some dir => dir
  | None => workspacePath
  end.

End Detect.

End Project.

Lemma prefix_append (p b : string) : String.prefix p (p +++ b) = true.
Proof.
  induction p as [|c p IH]; simpl; [now destruct b|].
  destruct (ascii_dec c c); [exact IH | congruence].
Qed.

Lemma includes_append (a p b : string) :
  Js.includes p (a +++ p +++ b) = true.
Proof.
  induction a as [|c a IH].
  - change ("" +++ p +++ b) with (p +++ b).
    pose proof (prefix_append p b) as H.
    destruct (p +++ b); cbn [Js.includes]; rewrite H; reflexivity.
  - cbn [String.append Js.includes]. rewrite IH. apply orb_true_r.
Qed.

Lemma includes_prefix_closed (p a b : string) :
  Js.includes p a = true -> Js.includes p (a +++ b) = true.
Proof.
  assert (Hpre : forall p a b, String.prefix p a = true ->
                               String.prefix p (a +++ b) = true).
  { clear. induction p as [|c p IH]; intros [|d a] b; simpl; auto;
      try discriminate.
    - now destruct b.
    - destruct (ascii_dec c d); [apply IH | discriminate]. }
  induction a as [|c a IH]; intros H.
  - simpl in H. rewrite orb_false_r in H.
    destruct p; [|discriminate].
    destruct b; reflexivity.
  - cbn [String.append Js.includes]. cbn [Js.includes] in H.
    apply orb_true_iff in H as [H | H]; apply orb_true_iff.
    + left. now apply (Hpre p (String c a) b).
    + right. now apply IH.
Qed.

Lemma endsWith_append (a suffix : string) :
  Project.endsWith suffix (a +++ suffix) = true.
Proof.
  induction a as [|c a IH].
  - simpl. destruct suffix; simpl; rewrite ?Ascii.eqb_refl, ?String.eqb_refl;
      reflexivity.
  - cbn [String.append Project.endsWith]. rewrite IH. apply orb_true_r.
Qed.

Lemma addToGitignore_written (gitignore : option string) (c' : string) :
  Project.addToGitignore gitignore = Some c' ->
  Js.includes ".ace-tool" c' = true /\
  Project.endsWith (String LF "") c' = true /\
  exists sep, c' = match gitignore with Some c => c | None => "" end
                   +++ sep +++ Project.entry.
Proof.
  unfold Project.addToGitignore.
  set (content := match gitignore with Some c => c | None => "" end).
  destruct (match gitignore with
            | Some c => Js.includes ".ace-tool" c
            | None => false
            end); [discriminate|].
  destruct (Project.endsWith (String LF "") content || String.eqb content "");
    intros [= <-].
  - split; [|split].
    + change Project.entry with (".ace-tool" +++ "/" +++ String LF "").
      apply includes_append.
    + change Project.entry with (".ace-tool/" +++ String LF "").
      rewrite <- append_assoc. apply endsWith_append.
    + exists "". reflexivity.
  - split; [|split].
    + change (content +++ String LF Project.entry)
        with (content +++ String LF "" +++ ".ace-tool" +++ "/" +++ String LF "").
      rewrite <- (append_assoc content). apply includes_append.
    + change (content +++ String LF Project.entry)
        with (content +++ String LF "" +++ ".ace-tool/" +++ String LF "").
      rewrite <- !append_assoc. apply endsWith_append.
    + exists (String LF ""). reflexivity.
Qed.

(** X16: [getAceDir] leaves the [.ace-tool] directory in place and is
    idempotent: a second call changes nothing.  When it creates the
    directory and the ignore file can be written, the ignore file
    afterwards mentions [.ace-tool], keeps all of its old content at the
    front, and ends with a line feed; when the old content mentions
    [.ace-tool] anywhere it is left as it is. *)
Theorem X16_getAceDir (fs : Project.Files) :
  Project.aceDir (Project.getAceDir fs) = true /\
  Project.getAceDir (Project.getAceDir fs) = Project.getAceDir fs /\
  (Project.aceDir fs = false -> Project.writable fs = true ->
   exists c',
     Project.gitignore (Project.getAceDir fs) = Some c' /\
     Js.includes ".ace-tool" c' = true /\
     (forall c, Project.gitignore fs = Some c -> String.prefix c c' = true) /\
     (forall c, Project.gitignore fs = Some c ->
                Js.includes ".ace-tool" c = true -> c' = c) /\
     (forall c, Project.gitignore fs = Some c ->
                Js.includes ".ace-tool" c = false ->
                Project.endsWith (String LF "") c' = true) /\
     (Project.gitignore fs = None -> c' = Project.entry)).
Proof.
  split; [|split].
  - unfold Project.getAceDir. destruct (Project.aceDir fs) eqn:E;
      [exact E | reflexivity].
  - destruct (Project.aceDir fs) eqn:E;
      unfold Project.getAceDir; rewrite E; [now rewrite E | reflexivity].
  - intros Hdir Hw. unfold Project.getAceDir. rewrite Hdir, Hw.
    cbn [Project.gitignore].
    destruct (Project.addToGitignore (Project.gitignore fs)) as [c'|] eqn:E.
    + destruct (addToGitignore_written _ _ E) as (Hinc & Hend & sep & Hc').
      exists c'. split; [reflexivity|]. split; [exact Hinc|].
      split; [|split; [|split]].
      * intros c Hc. rewrite Hc in Hc'. rewrite Hc'. apply prefix_append.
      * intros c Hc Hm. unfold Project.addToGitignore in E.
        rewrite Hc, Hm in E. discriminate.
      * intros c _ _. exact Hend.
      * intros Hnone. rewrite Hnone in E. now injection E as <-.
    + unfold Project.addToGitignore in E.
      destruct (Project.gitignore fs) as [c|] eqn:Eg; [|discriminate].
      destruct (Js.includes ".ace-tool" c) eqn:Em; [|discriminate].
      exists c. split; [reflexivity|]. split; [exact Em|].
      split; [|split; [|split]].
      * intros c0 [= <-]. rewrite <- (append_nil_r c) at 2.
        apply prefix_append.
      * now intros c0 [= <-].
      * intros c0 [= <-] H. congruence.
      * discriminate.
Qed.

Lemma X16_getAceDir_witness :
  exists c',
    Project.gitignore
      (Project.getAceDir (Project.mkFiles false (Some "node_modules") true))
    = Some c' /\
    Js.includes ".ace-tool" c' = true.
Proof.
  destruct (proj2 (proj2 (X16_getAceDir
              (Project.mkFiles false (Some "node_modules") true)))
              eq_refl eq_refl) as (c' & Hc & Hinc & _).
  exists c'. split; [exact Hc | exact Hinc].
Defined.

(** X17: [detectProjectRoot] returns the workspace directory or one of
    its ancestors: the nearest one, the workspace directory included, that
    holds a [.ace-tool] directory or a [.git] entry; and the workspace
    directory itself when no directory up to the root holds one. *)
Theorem X17_detectProjectRoot (hasAceDir hasGit : Project.Dir -> bool)
  (workspacePath : Project.Dir) :
  exists k,
    k <= List.length workspacePath /\
    (forall j, j < k ->
       Project.marked hasAceDir hasGit (skipn j workspacePath) = false) /\
    ((Project.marked hasAceDir hasGit (skipn k workspacePath) = true /\
      Project.detectProjectRoot hasAceDir hasGit workspacePath
      = skipn k workspacePath) \/
     (k = List.length workspacePath /\
      Project.marked hasAceDir hasGit [] = false /\
      Project.detectProjectRoot hasAceDir hasGit workspacePath
      = workspacePath)).
Proof.
  unfold Project.detectProjectRoot.
  induction workspacePath as [|seg dir IH].
  - exists 0. split; [lia|]. split; [intros j Hj; lia|].
    unfold Project.marked. simpl.
    destruct (hasAceDir []); [left; now split|].
    destruct (hasGit []); [left; now split|].
    right. now repeat split.
  - cbn [Project.climb].
    destruct (hasAceDir (seg :: dir)) eqn:Ea.
    { exists 0. split; [lia|]. split; [intros j Hj; lia|].
      left. unfold Project.marked. simpl. now rewrite Ea. }
    destruct (hasGit (seg :: dir)) eqn:Eg.
    { exists 0. split; [lia|]. split; [intros j Hj; lia|].
      left. unfold Project.marked. simpl. now rewrite Ea, Eg. }
    destruct IH as (k & Hk & Hbelow & Hcase). exists (S k).
    split; [simpl; lia|]. split.
    + intros [|j] Hj.
      * unfold Project.marked. simpl. now rewrite Ea, Eg.
      * simpl. apply Hbelow. lia.
    + destruct Hcase as [[Hm Hr] | (Hkl & Hroot & Hr)].
      * left. split; [exact Hm|]. simpl.
        destruct (Project.climb hasAceDir hasGit dir) as [r|] eqn:Ec.
        -- exact Hr.
        -- exfalso. clear - Ec Hm Hk.
           revert k Hm Hk. induction dir as [|s d IHd]; intros k Hm Hk.
           ++ simpl in Hk. assert (k = 0) as -> by lia.
              unfold Project.marked in Hm. simpl in *.
              destruct (hasAceDir []); [discriminate|].
              destruct (hasGit []); discriminate.
           ++ cbn [Project.climb] in Ec.
              destruct (hasAceDir (s :: d)) eqn:E1; [discriminate|].
              destruct (hasGit (s :: d)) eqn:E2; [discriminate|].
              destruct k as [|k].
              ** unfold Project.marked in Hm. simpl in Hm.
                 rewrite E1, E2 in Hm. discriminate.
              ** apply (IHd Ec k); [exact Hm | simpl in Hk; lia].
      * destruct (Project.climb hasAceDir hasGit dir) as [r|] eqn:Ec.
        -- exfalso. clear - Ec Hbelow Hroot Hkl. subst k.
           revert Hbelow. induction dir as [|s d IHd]; intros Hbelow.
           ++ unfold Project.marked in Hroot. simpl in *.
              destruct (hasAceDir []); [discriminate|].
              destruct (hasGit []); discriminate.
           ++ cbn [Project.climb] in Ec.
              pose proof (Hbelow 0 ltac:(simpl; lia)) as H0.
              unfold Project.marked in H0. simpl in H0.
              apply orb_false_iff in H0 as [H1 H2].
              rewrite H1, H2 in Ec.
              apply (IHd Ec). intros j Hj.
              apply (Hbelow (S j)). simpl. lia.
        -- right. simpl. now repeat split; [f_equal|].
Qed.

Lemma X17_detectProjectRoot_witness :
  Project.detectProjectRoot
    (fun _ => false) (fun dir => List.length dir =? 1) ["src"; "pkg"; "repo"]
  = ["repo"].
Proof.
  destruct (X17_detectProjectRoot
              (fun _ => false) (fun dir => List.length dir =? 1)
              ["src"; "pkg"; "repo"])
    as (k & Hk & Hbelow & [[Hm Hr] | (Hkl & _ & _)]).
  - rewrite Hr. clear Hr.
    destruct k as [|[|[|[|k]]]]; try discriminate Hm.
    reflexivity.
  - subst k. specialize (Hbelow 2 ltac:(simpl; lia)). discriminate Hbelow.
Defined.

(* ================================================================== *)
(** * The walk over the project tree *)
(* ================================================================== *)

Module Walk.

(** What [readdir] with file types shows of a directory: regular files
    with their decoded content ([None] when reading fails), directories
    with their own listing ([None] when [readdir] throws there), and
    entries that are neither.  Names hold no separator, so the path of an
    entry relative to the root is the path of its directory, a slash, and
    its name. *)
#[warnings="-register-all"] Inductive Entry : Type :=
| File (name : string) (body : option string)
| Dir (name : string) (listing : option (list Entry))
| Other (name : string).

Definition joinPath (dirPath name : string) : string :=
  if String.eqb dirPath "" then name else dirPath +++ "/" +++ name.

(** The blobs pushed by a run of calls, or [None] when one of them threw. *)
Definition pushAll (results : list (option (list Blob)))
    : option (list Blob) :=
  fold_right
    (fun result rest =>
       match result, rest with
       | Some blobs, Some blobs' => Some (blobs ++ blobs')
       | _, _ => None
       end)
    (Some []) results.

Section Walker.

Variable maxLinesPerBlob : nat.

(** [shouldExclude(fullPath, gitignoreSpec)] on a relative path, and
    [textExtensions.has(path.extname(name).toLowerCase())] on a name. *)
Variable excludedAt : string -> bool.
Variable allowedName : string -> bool.

(** The body of the loop of [walkDir] for one entry of the directory
    [dirPath]; [None] when the walk throws. *)
Fixpoint walkEntry (dirPath : string) (entry : Entry)
    : option (list Blob) :=
  match entry with
  | Dir name listing =>
      let fullPath := joinPath dirPath name in
      if excludedAt fullPath then Some []
      else
        match listing with
        | Some entries => pushAll (map (walkEntry fullPath) entries)
        | None => None
        end
  | File name body =>
      let fullPath := joinPath dirPath name in
      if excludedAt fullPath then Some []
      else if negb (allowedName name) then Some []
      else if Js.startsWith ".." fullPath then Some []
      else
        match body with
        | Some content =>
            Some (splitFileContent maxLinesPerBlob fullPath content)
        | None => Some []
        end
  | Other _ => Some []
  end.

Definition walkDir (dirPath : string) (listing : option (list Entry))
    : option (list Blob) :=
  match listing with
  | Some entries => pushAll (map (walkEntry dirPath) entries)
  | None => None
  end.

(** [collectFiles] on the listing of the project root. *)
Definition collectFiles (root : option (list Entry)) : option (list Blob) :=
  walkDir "" root.

(** The files the walk keeps below an entry, in walk order, each with its
    relative path and content. *)
Fixpoint keptFiles (dirPath : string) (entry : Entry)
    : list (string * string) :=
  match entry with
  | Dir name listing =>
      let fullPath := joinPath dirPath name in
      if excludedAt fullPath then []
      else
        match listing with
        | Some entries => flat_map (keptFiles fullPath) entries
        | None => []
        end
  | File name body =>
      let fullPath := joinPath dirPath name in
      if excludedAt fullPath then []
      else if negb (allowedName name) then []
      else if Js.startsWith ".." fullPath then []
      else
        match body with
        | Some content => [(fullPath, content)]
        | None => []
        end
  | Other _ => []
  end.

(** A readable file of an allowed extension that is not excluded, whose
    path does not start with two dots, and all of whose directories up to
    [dirPath] are not excluded. *)
Inductive reach : string -> Entry -> string -> string -> Prop :=
| reach_file (dirPath name content : string) :
    excludedAt (joinPath dirPath name) = false ->
    allowedName name = true ->
    Js.startsWith ".." (joinPath dirPath name) = false ->
    reach dirPath (File name (Some content)) (joinPath dirPath name) content
| reach_dir (dirPath name : string) (entries : list Entry) (entry : Entry)
    (relativePath content : string) :
    excludedAt (joinPath dirPath name) = false ->
    In entry entries ->
    reach (joinPath dirPath name) entry relativePath content ->
    reach dirPath (Dir name (Some entries)) relativePath content.

(** A directory that cannot be listed, none of whose directories up to
    [dirPath], itself included, is excluded. *)
Inductive blocked : string -> Entry -> Prop :=
| blocked_here (dirPath name : string) :
    excludedAt (joinPath dirPath name) = false ->
    blocked dirPath (Dir name None)
| blocked_below (dirPath name : string) (entries : list Entry)
    (entry : Entry) :
    excludedAt (joinPath dirPath name) = false ->
    In entry entries ->
    blocked (joinPath dirPath name) entry ->
    blocked dirPath (Dir name (Some entries)).

End Walker.


End Walk.


Lemma pushAll_Some (results : list (option (list Blob)))
  (blobs : list Blob) :
  Walk.pushAll results = Some blobs ->
  blobs = flat_map (fun r => match r with Some bs => bs | None => [] end)
                   results.
Proof.
  revert blobs. induction results as [|r results IH]; simpl; intros blobs H.
  - now injection H as <-.
  - destruct r as [bs|]; [|discriminate].
    destruct (Walk.pushAll results) as [bs'|]; [|discriminate].
    injection H as <-. now rewrite (IH bs' eq_refl).
Qed.

Section WalkFacts.

Variable maxLinesPerBlob : nat.
Variable excludedAt : string -> bool.
Variable allowedName : string -> bool.

Let walkEntry := Walk.walkEntry maxLinesPerBlob excludedAt allowedName.
Let keptFiles := Walk.keptFiles excludedAt allowedName.
Let reach := Walk.reach excludedAt allowedName.
Let blocked := Walk.blocked excludedAt.






End WalkFacts.



(* ================================================================== *)
(** * Reading the enhanced prompt out of a reply *)
(* ================================================================== *)

Module Prompt.

(** The white space and line terminators [trim] strips, among the code
    units below U+0100: U+0009 to U+000D, the space and U+00A0. *)
Definition isSpace (c : ascii) : bool :=
  let n := nat_of_ascii c in
  ((9 <=? n) && (n <=? 13)) || (n =? 32) || (n =? 160).

Fixpoint trimStart (s : string) : string :=
  match s with
  | EmptyString => EmptyString
  | String c s' => if isSpace c then trimStart s' else s
  end.

Fixpoint trimEnd (s : string) : string :=
  match s with
  | EmptyString => EmptyString
  | String c s' =>
      match trimEnd s' with
      | EmptyString => if isSpace c then EmptyString else String c EmptyString
      | t => String c t
      end
  end.

(** [s.trim()]. *)
Definition trim (s : string) : string := trimEnd (trimStart s).

(** A string in a condition: true unless empty. *)
Definition truthy (s : string) : bool := negb (String.eqb s "").

Fixpoint drop (n : nat) (s : string) : string :=
  match n, s with
  | S n', String _ s' => drop n' s'
  | _, _ => s
  end.

(** The text before and after the first occurrence of [needle]. *)
Fixpoint splitAt (needle s : string) : option (string * string) :=
  if String.prefix needle s
  then Some (EmptyString, drop (String.length needle) s)
  else
    match s with
    | EmptyString => None
    | String c s' =>
        match splitAt needle s' with
        | Some (before, after) => Some (String c before, after)
        | None => None
        end
    end.

(** The first group of a match of [open([\s\S]*?)close]: the match
    starts at the first [open] that has a [close] after it, which is the
    first [open] of all, since a [close] after a later one also comes after
    the first; and the group runs up to the first [close] from there. *)
Definition capture (open close content : string) : option string :=
  match splitAt open content with
  | Some (_, rest) =>
      match splitAt close rest with
      | Some (inner, _) => Some inner
      | None => None
      end
  | None => None
  end.

Definition openTag : string := "<augment-enhanced-prompt>".
Definition closeTag : string := "</augment-enhanced-prompt>".
Definition beginMark : string := "### BEGIN RESPONSE ###".
Definition endMark : string := "### END RESPONSE ###".

(** How the promise settles: resolved with a prompt, or rejected with a
    message that ends with the given excerpt of the reply. *)
Inductive Outcome : Type :=
| Resolved (prompt : string)
| Rejected (excerpt : string).

Definition extractEnhancedPromptFromText (content : string) : Outcome :=
  let rejected := Rejected (String.substring 0 500 content) in
  let second :=
    match capture beginMark endMark content with
    | Some inner =>
        if truthy inner then
          let responseContent := trim inner in
          match capture openTag closeTag responseContent with
          | Some tagInner =>
              if truthy tagInner then
                let enhancedPrompt := trim tagInner in
                if truthy enhancedPrompt then Resolved enhancedPrompt
                else rejected
              else if truthy responseContent then Resolved responseContent
              else rejected
          | None =>
              if truthy responseContent then Resolved responseContent
              else rejected
          end
        else rejected
    | None => rejected
    end in
  match capture openTag closeTag content with
  | Some inner =>
      if truthy inner then
        let enhancedPrompt := trim inner in
        if truthy enhancedPrompt then Resolved enhancedPrompt else second
      else second
  | None => second
  end.

(** A node of the reply: its type and its content (empty when absent). *)
Record Node : Type := mkNode {
  type : nat;
  nodeContent : string
}.

(** A line of the stream that parsed: its [text] (empty when absent) and
    its [nodes] (empty when absent or not an array). *)
Record Line : Type := mkLine {
  text : string;
  nodes : list Node
}.

(** The match [processStreamResponse] tries in three places: the trimmed
    group, when the tags are there and the group is not blank. *)
Definition tagged (content : string) : option string :=
  match capture openTag closeTag content with
  | Some inner =>
      if truthy inner && truthy (trim inner) then Some (trim inner)
      else None
  | None => None
  end.

(** The state of the [data] handler: [accumulatedText] and [lastNodes]. *)
Definition accumulate (st : string * list Node) (line : Line)
    : string * list Node :=
  (fst st +++ text line,
   match nodes line with
   | [] => snd st
   | _ => nodes line
   end).

(** The [data] handler over the parsed lines in order: [inl] when it
    resolves early, [inr] with the state otherwise. *)
Fixpoint onData (st : string * list Node) (lines : list Line)
    : string + string * list Node :=
  match lines with
  | [] => inr st
  | line :: lines' =>
      let st' := accumulate st line in
      if Js.includes closeTag (fst st') then
        match tagged (fst st') with
        | Some prompt => inl prompt
        | None => onData st' lines'
        end
      else onData st' lines'
  end.

(** The loop of the [end] handler over [lastNodes]. *)
Fixpoint fromNodes (lastNodes : list Node) : option string :=
  match lastNodes with
  | [] => None
  | node :: lastNodes' =>
      if (type node =? 0) && truthy (nodeContent node) then
        match tagged (nodeContent node) with
        | Some prompt => Some prompt
        | None => fromNodes lastNodes'
        end
      else fromNodes lastNodes'
  end.

(** [processStreamResponse] on a stream that ends without an error:
    [lines] are the complete lines that parsed, [rest] what was left in the
    buffer at the end, when it parsed. *)
Definition processStreamResponse (lines : list Line) (rest : option Line)
    : Outcome :=
  match onData (EmptyString, []) lines with
  | inl prompt => Resolved prompt
  | inr st =>
      let st' :=
        match rest with
        | Some line => accumulate st line
        | None => st
        end in
      match fromNodes (snd st') with
      | Some prompt => Resolved prompt
      | None => extractEnhancedPromptFromText (fst st')
      end
  end.

End Prompt.

Lemma prefix_app_closed (p a b : string) :
  String.prefix p a = true -> String.prefix p (a +++ b) = true.
Proof.
  revert a. induction p as [|c p IH]; intros [|d a]; simpl; auto;
    try discriminate.
  - now destruct b.
  - destruct (ascii_dec c d); [apply IH | discriminate].
Qed.

Lemma prefix_split (p s : string) :
  String.prefix p s = true ->
  s = p +++ Prompt.drop (String.length p) s.
Proof.
  revert s. induction p as [|c p IH]; intros [|d s]; simpl; auto;
    try discriminate.
  destruct (ascii_dec c d) as [->|]; [|discriminate].
  intros H. now rewrite <- (IH s H).
Qed.

Lemma prefix_drop_app (p s t : string) :
  String.prefix p s = true ->
  Prompt.drop (String.length p) (s +++ t)
  = Prompt.drop (String.length p) s +++ t.
Proof.
  revert s. induction p as [|c p IH]; intros [|d s]; simpl; auto;
    try discriminate.
  destruct (ascii_dec c d); [apply IH | discriminate].
Qed.

Lemma prefix_within (p s t : string) :
  String.length p <= String.length s ->
  String.prefix p (s +++ t) = String.prefix p s.
Proof.
  revert s. induction p as [|c p IH]; intros [|d s] Hl; simpl in *;
    try lia; try (now destruct t).
  destruct (ascii_dec c d); [apply IH; lia | reflexivity].
Qed.

Lemma drop_append (p b : string) :
  Prompt.drop (String.length p) (p +++ b) = b.
Proof. induction p as [|c p IH]; simpl; [now destruct b | exact IH]. Qed.

Lemma splitAt_spec (needle s before after : string) :
  Prompt.splitAt needle s = Some (before, after) ->
  s = before +++ needle +++ after.
Proof.
  revert before. induction s as [|c s IH]; intros before.
  - cbn [Prompt.splitAt]. destruct (String.prefix needle "") eqn:E;
      [|discriminate].
    intros [= <- <-]. now apply prefix_split.
  - cbn [Prompt.splitAt]. destruct (String.prefix needle (String c s)) eqn:E.
    + intros [= <- <-]. now apply prefix_split.
    + destruct (Prompt.splitAt needle s) as [[b a]|]; [|discriminate].
      intros [= <- <-]. simpl. now rewrite <- (IH b eq_refl).
Qed.

Lemma splitAt_absent (needle s : string) :
  Js.includes needle s = false -> Prompt.splitAt needle s = None.
Proof.
  induction s as [|c s IH]; cbn [Js.includes Prompt.splitAt]; intros H;
    apply orb_false_iff in H as [-> H]; [reflexivity|].
  now rewrite (IH H).
Qed.

Lemma splitAt_append (needle s t before after : string) :
  Prompt.splitAt needle s = Some (before, after) ->
  Prompt.splitAt needle (s +++ t) = Some (before, after +++ t).
Proof.
  revert before. induction s as [|c s IH]; intros before.
  - cbn [Prompt.splitAt]. destruct (String.prefix needle "") eqn:E;
      [|discriminate].
    intros [= <- <-]. destruct needle; [|discriminate]. simpl.
    destruct t; reflexivity.
  - cbn [Prompt.splitAt String.append].
    destruct (String.prefix needle (String c s)) eqn:E.
    + intros [= <- <-].
      change (String c (s +++ t)) with (String c s +++ t).
      cbn [Prompt.splitAt].
      rewrite (prefix_app_closed _ _ t E).
      now rewrite (prefix_drop_app _ _ t E).
    + destruct (Prompt.splitAt needle s) as [[b a]|] eqn:Es; [|discriminate].
      intros [= <- <-].
      change (String c (s +++ t)) with (String c s +++ t).
      pose proof (splitAt_spec _ _ _ _ Es) as Hs.
      assert (Hl : String.length needle <= String.length (String c s)).
      { rewrite Hs. simpl. rewrite !length_append. lia. }
      cbn [Prompt.splitAt]. rewrite (prefix_within _ _ t Hl), E.
      change (String c s +++ t) with (String c (s +++ t)).
      now rewrite (IH b eq_refl).
Qed.

Lemma splitAt_fresh (c : ascii) (needle a b : string) :
  Js.includes (String c "") a = false ->
  Prompt.splitAt (String c needle) (a +++ String c needle +++ b)
  = Some (a, b).
Proof.
  induction a as [|d a IH]; intros H.
  - change ("" +++ String c needle +++ b) with (String c needle +++ b).
    pose proof (prefix_append (String c needle) b) as Hp.
    pose proof (drop_append (String c needle) b) as Hd.
    destruct (String c needle +++ b) eqn:E; [discriminate|].
    cbn [Prompt.splitAt]. rewrite Hp. now rewrite Hd.
  - cbn [Js.includes] in H. apply orb_false_iff in H as [Hp H].
    cbn [String.append] in IH |- *. cbn [Prompt.splitAt].
    simpl String.prefix in *.
    destruct (ascii_dec c d).
    + destruct a; discriminate.
    + now rewrite (IH H).
Qed.

(** [p] occurs in [s]. *)
Definition part (p s : string) : Prop :=
  exists a b, s = a +++ p +++ b.

Lemma part_refl (s : string) : part s s.
Proof. exists "", "". simpl. now rewrite append_nil_r. Qed.

Lemma part_trans (p q s : string) : part p q -> part q s -> part p s.
Proof.
  intros (a & b & ->) (a' & b' & ->). exists (a' +++ a), (b +++ b').
  now rewrite !append_assoc.
Qed.

Lemma part_includes (p s : string) : part p s -> Js.includes p s = true.
Proof. intros (a & b & ->). apply includes_append. Qed.

Lemma capture_part (open close content inner : string) :
  Prompt.capture open close content = Some inner -> part inner content.
Proof.
  unfold Prompt.capture.
  destruct (Prompt.splitAt open content) as [[a rest]|] eqn:E1;
    [|discriminate].
  destruct (Prompt.splitAt close rest) as [[i b]|] eqn:E2; [|discriminate].
  intros [= <-]. apply splitAt_spec in E1, E2. subst.
  exists (a +++ open), (close +++ b). now rewrite !append_assoc.
Qed.

Lemma capture_append (open close content t inner : string) :
  Prompt.capture open close content = Some inner ->
  Prompt.capture open close (content +++ t) = Some inner.
Proof.
  unfold Prompt.capture.
  destruct (Prompt.splitAt open content) as [[a rest]|] eqn:E1;
    [|discriminate].
  destruct (Prompt.splitAt close rest) as [[i b]|] eqn:E2; [|discriminate].
  intros [= <-].
  rewrite (splitAt_append _ _ t _ _ E1), (splitAt_append _ _ t _ _ E2).
  reflexivity.
Qed.

Lemma trimStart_part (s : string) :
  exists a, s = a +++ Prompt.trimStart s.
Proof.
  induction s as [|c s (a & IH)]; [now exists ""|].
  simpl. destruct (Prompt.isSpace c).
  - exists (String c a). simpl. now rewrite <- IH.
  - now exists "".
Qed.

Lemma trimEnd_part (s : string) :
  exists b, s = Prompt.trimEnd s +++ b.
Proof.
  induction s as [|c s (b & IH)]; [now exists ""|].
  simpl. destruct (Prompt.trimEnd s) as [|d t] eqn:E.
  - destruct (Prompt.isSpace c).
    + exists (String c s). reflexivity.
    + exists b. simpl. now rewrite IH at 1.
  - exists b. simpl. now rewrite IH at 1.
Qed.

Lemma trim_part (s : string) : part (Prompt.trim s) s.
Proof.
  unfold Prompt.trim.
  destruct (trimStart_part s) as (a & Ha).
  destruct (trimEnd_part (Prompt.trimStart s)) as (b & Hb).
  exists a, b. now rewrite <- Hb.
Qed.

Lemma trimEnd_idem (s : string) :
  Prompt.trimEnd (Prompt.trimEnd s) = Prompt.trimEnd s.
Proof.
  induction s as [|c s IH]; [reflexivity|].
  simpl. destruct (Prompt.trimEnd s) as [|d t] eqn:E.
  - destruct (Prompt.isSpace c) eqn:Ec; [reflexivity|].
    simpl. now rewrite Ec.
  - remember (String d t) as u eqn:Eu. cbn [Prompt.trimEnd].
    rewrite IH. subst u. reflexivity.
Qed.

Lemma trimEnd_head (c : ascii) (s : string) :
  Prompt.isSpace c = false ->
  exists t, Prompt.trimEnd (String c s) = String c t.
Proof.
  intros Hc. simpl. destruct (Prompt.trimEnd s) as [|d t].
  - rewrite Hc. now exists "".
  - now exists (String d t).
Qed.

Lemma trim_idem (s : string) : Prompt.trim (Prompt.trim s) = Prompt.trim s.
Proof.
  unfold Prompt.trim.
  assert (H : Prompt.trimStart (Prompt.trimEnd (Prompt.trimStart s))
              = Prompt.trimEnd (Prompt.trimStart s)).
  { induction s as [|c s IH]; [reflexivity|].
    cbn [Prompt.trimStart]. destruct (Prompt.isSpace c) eqn:Ec; [exact IH|].
    destruct (trimEnd_head c s Ec) as (t & ->).
    cbn [Prompt.trimStart]. now rewrite Ec. }
  rewrite H. apply trimEnd_idem.
Qed.

Lemma truthy_nonempty (s : string) : Prompt.truthy s = true <-> s <> "".
Proof.
  unfold Prompt.truthy. rewrite negb_true_iff. split.
  - intros H ->. discriminate.
  - intros H. now apply String.eqb_neq.
Qed.

Lemma tagged_spec (content prompt : string) :
  Prompt.tagged content = Some prompt ->
  prompt <> "" /\ Prompt.trim prompt = prompt /\ part prompt content.
Proof.
  unfold Prompt.tagged.
  destruct (Prompt.capture _ _ content) as [inner|] eqn:E; [|discriminate].
  destruct (Prompt.truthy inner); [|discriminate]. cbn [andb].
  destruct (Prompt.truthy (Prompt.trim inner)) eqn:Et; [|discriminate].
  intros [= <-]. split; [now apply truthy_nonempty|].
  split; [apply trim_idem|].
  apply (part_trans _ inner); [apply trim_part | now apply capture_part in E].
Qed.

Lemma tagged_append (content t prompt : string) :
  Prompt.tagged content = Some prompt ->
  Prompt.tagged (content +++ t) = Some prompt.
Proof.
  unfold Prompt.tagged.
  destruct (Prompt.capture _ _ content) as [inner|] eqn:E; [|discriminate].
  now rewrite (capture_append _ _ _ t _ E).
Qed.

Lemma tagged_extract (content prompt : string) :
  Prompt.tagged content = Some prompt ->
  Prompt.extractEnhancedPromptFromText content = Prompt.Resolved prompt.
Proof.
  unfold Prompt.tagged, Prompt.extractEnhancedPromptFromText.
  destruct (Prompt.capture Prompt.openTag _ content) as [inner|];
    [|discriminate].
  destruct (Prompt.truthy inner); [|discriminate]. cbn [andb].
  destruct (Prompt.truthy (Prompt.trim inner)); [|discriminate].
  now intros [= <-].
Qed.

Lemma extract_resolved (content prompt : string) :
  Prompt.extractEnhancedPromptFromText content = Prompt.Resolved prompt ->
  prompt <> "" /\ Prompt.trim prompt = prompt /\ part prompt content.
Proof.
  assert (Hsecond :
    match Prompt.capture Prompt.beginMark Prompt.endMark content with
    | Some inner =>
        if Prompt.truthy inner then
          match Prompt.capture Prompt.openTag Prompt.closeTag
                  (Prompt.trim inner) with
          | Some tagInner =>
              if Prompt.truthy tagInner then
                if Prompt.truthy (Prompt.trim tagInner)
                then Prompt.Resolved (Prompt.trim tagInner)
                else Prompt.Rejected (String.substring 0 500 content)
              else if Prompt.truthy (Prompt.trim inner)
                   then Prompt.Resolved (Prompt.trim inner)
                   else Prompt.Rejected (String.substring 0 500 content)
          | None =>
              if Prompt.truthy (Prompt.trim inner)
              then Prompt.Resolved (Prompt.trim inner)
              else Prompt.Rejected (String.substring 0 500 content)
          end
        else Prompt.Rejected (String.substring 0 500 content)
    | None => Prompt.Rejected (String.substring 0 500 content)
    end = Prompt.Resolved prompt ->
    prompt <> "" /\ Prompt.trim prompt = prompt /\ part prompt content).
  { destruct (Prompt.capture Prompt.beginMark _ content) as [inner|] eqn:E;
      [|discriminate].
    apply capture_part in E.
    pose proof (part_trans _ _ _ (trim_part inner) E) as Hresp.
    destruct (Prompt.truthy inner); [|discriminate].
    assert (Hwhole :
      (if Prompt.truthy (Prompt.trim inner)
       then Prompt.Resolved (Prompt.trim inner)
       else Prompt.Rejected (String.substring 0 500 content))
      = Prompt.Resolved prompt ->
      prompt <> "" /\ Prompt.trim prompt = prompt /\ part prompt content).
    { destruct (Prompt.truthy (Prompt.trim inner)) eqn:Et; [|discriminate].
      intros [= <-]. split; [now apply truthy_nonempty|].
      split; [apply trim_idem | exact Hresp]. }
    destruct (Prompt.capture Prompt.openTag _ (Prompt.trim inner))
      as [tagInner|] eqn:E2; [|exact Hwhole].
    destruct (Prompt.truthy tagInner); [|exact Hwhole].
    destruct (Prompt.truthy (Prompt.trim tagInner)) eqn:Et; [|discriminate].
    intros [= <-]. split; [now apply truthy_nonempty|].
    split; [apply trim_idem|].
    apply capture_part in E2.
    apply (part_trans _ tagInner); [apply trim_part|].
    now apply (part_trans _ (Prompt.trim inner)). }
  unfold Prompt.extractEnhancedPromptFromText. cbv zeta.
  destruct (Prompt.capture Prompt.openTag _ content) as [inner|] eqn:E;
    [|exact Hsecond].
  destruct (Prompt.truthy inner); [|exact Hsecond].
  destruct (Prompt.truthy (Prompt.trim inner)) eqn:Et; [|exact Hsecond].
  intros [= <-]. split; [now apply truthy_nonempty|].
  split; [apply trim_idem|].
  apply capture_part in E.
  now apply (part_trans _ inner); [apply trim_part|].
Qed.

(** X19: [extractEnhancedPromptFromText].  A prompt it resolves with is
    not empty, has no white space at either end, and occurs in the reply
    as it stands.  A reply that holds neither the opening tag nor the
    begin marker is rejected, with its first 500 characters as the
    excerpt.  A reply that wraps a body in the two tags, with no [<]
    before the opening tag and none in the body, and a body that is not
    blank, resolves with the trimmed body. *)
Theorem X19_extractEnhancedPrompt (content : string) :
  (forall prompt,
     Prompt.extractEnhancedPromptFromText content = Prompt.Resolved prompt ->
     prompt <> "" /\ Prompt.trim prompt = prompt /\
     Js.includes prompt content = true) /\
  (Js.includes Prompt.openTag content = false ->
   Js.includes Prompt.beginMark content = false ->
   Prompt.extractEnhancedPromptFromText content
   = Prompt.Rejected (String.substring 0 500 content)) /\
  (forall before body after,
     content = before +++ Prompt.openTag +++ body +++ Prompt.closeTag
               +++ after ->
     Js.includes "<" before = false ->
     Js.includes "<" body = false ->
     Prompt.trim body <> "" ->
     Prompt.extractEnhancedPromptFromText content
     = Prompt.Resolved (Prompt.trim body)).
Proof.
  split; [|split].
  - intros prompt Hr. destruct (extract_resolved _ _ Hr) as (H1 & H2 & H3).
    repeat split; auto. now apply part_includes.
  - intros Ho Hb. unfold Prompt.extractEnhancedPromptFromText, Prompt.capture.
    now rewrite (splitAt_absent _ _ Ho), (splitAt_absent _ _ Hb).
  - intros before body after -> Hbefore Hbody Hblank.
    apply tagged_extract. unfold Prompt.tagged, Prompt.capture.
    pose proof (splitAt_fresh "<" "augment-enhanced-prompt>" before
                  (body +++ Prompt.closeTag +++ after) Hbefore) as H1.
    pose proof (splitAt_fresh "<" "/augment-enhanced-prompt>" body after
                  Hbody) as H2.
    change (String "<" "augment-enhanced-prompt>")
      with Prompt.openTag in H1.
    change (String "<" "/augment-enhanced-prompt>")
      with Prompt.closeTag in H2.
    rewrite H1, H2.
    apply truthy_nonempty in Hblank. rewrite Hblank, andb_true_r.
    assert (Hinner : Prompt.truthy body = true).
    { apply truthy_nonempty. intros ->. now apply truthy_nonempty in Hblank. }
    now rewrite Hinner.
Qed.

Lemma X19_extractEnhancedPrompt_witness :
  Prompt.extractEnhancedPromptFromText
    ("Here you go: " +++ Prompt.openTag +++ " add tests " +++ Prompt.closeTag
     +++ " done")
  = Prompt.Resolved (Prompt.trim " add tests ").
Proof.
  refine (proj2 (proj2 (X19_extractEnhancedPrompt _))
            "Here you go: " " add tests " " done" eq_refl _ _ _).
  - reflexivity.
  - reflexivity.
  - discriminate.
Defined.

(** All the text of a stream: the [text] of its lines in order. *)
Definition streamText (lines : list Prompt.Line) (rest : option Prompt.Line)
    : string :=
  Js.join (map Prompt.text lines) +++
  match rest with
  | Some line => Prompt.text line
  | None => ""
  end.

Lemma onData_texts (lines : list Prompt.Line) :
  forall st,
    (forall line, In line lines -> Prompt.nodes line = []) ->
    match Prompt.onData st lines with
    | inl prompt =>
        forall more,
          Prompt.tagged (fst st +++ Js.join (map Prompt.text lines) +++ more)
          = Some prompt
    | inr st' => st' = (fst st +++ Js.join (map Prompt.text lines), snd st)
    end.
Proof.
  induction lines as [|line lines IH]; intros [acc lastNodes] Hn.
  - simpl. now rewrite append_nil_r.
  - cbn [Prompt.onData map]. rewrite join_cons.
    assert (Hst : Prompt.accumulate (acc, lastNodes) line
                  = (acc +++ Prompt.text line, lastNodes)).
    { unfold Prompt.accumulate. now rewrite (Hn line (or_introl eq_refl)). }
    rewrite Hst. cbn [fst snd].
    specialize (IH (acc +++ Prompt.text line, lastNodes)
                  (fun l Hl => Hn l (or_intror Hl))).
    cbn [fst snd] in IH.
    assert (Hre : forall more,
      acc +++ (Prompt.text line +++ Js.join (map Prompt.text lines)) +++ more
      = (acc +++ Prompt.text line) +++
        Js.join (map Prompt.text lines) +++ more).
    { intros more. now rewrite !append_assoc. }
    assert (Hre' :
      acc +++ Prompt.text line +++ Js.join (map Prompt.text lines)
      = (acc +++ Prompt.text line) +++ Js.join (map Prompt.text lines)).
    { now rewrite !append_assoc. }
    destruct (Js.includes Prompt.closeTag (acc +++ Prompt.text line)).
    + destruct (Prompt.tagged (acc +++ Prompt.text line)) as [prompt|] eqn:Et.
      * intros more. rewrite Hre. now apply tagged_append.
      * destruct (Prompt.onData _ lines).
        -- intros more. rewrite Hre. apply IH.
        -- now rewrite Hre'.
    + destruct (Prompt.onData _ lines).
      * intros more. rewrite Hre. apply IH.
      * now rewrite Hre'.
Qed.

Lemma onData_resolved (lines : list Prompt.Line) :
  forall st prompt,
    Prompt.onData st lines = inl prompt ->
    exists content, Prompt.tagged content = Some prompt.
Proof.
  induction lines as [|line lines IH]; intros st prompt; [discriminate|].
  cbn [Prompt.onData].
  destruct (Js.includes Prompt.closeTag _); [|apply IH].
  destruct (Prompt.tagged (fst (Prompt.accumulate st line))) as [p|] eqn:E;
    [|apply IH].
  intros [= <-]. now exists (fst (Prompt.accumulate st line)).
Qed.

Lemma fromNodes_resolved (lastNodes : list Prompt.Node) (prompt : string) :
  Prompt.fromNodes lastNodes = Some prompt ->
  exists node,
    In node lastNodes /\ Prompt.type node = 0 /\
    Prompt.tagged (Prompt.nodeContent node) = Some prompt.
Proof.
  induction lastNodes as [|node lastNodes IH]; [discriminate|].
  cbn [Prompt.fromNodes].
  assert (Hrest : Prompt.fromNodes lastNodes = Some prompt ->
                  exists n, In n (node :: lastNodes) /\ Prompt.type n = 0 /\
                            Prompt.tagged (Prompt.nodeContent n) = Some prompt).
  { intros H. destruct (IH H) as (n & Hn & Ht). exists n.
    split; [now right | exact Ht]. }
  destruct (Prompt.type node =? 0) eqn:E0; [|exact Hrest]. cbn [andb].
  destruct (Prompt.truthy _); [|exact Hrest].
  destruct (Prompt.tagged (Prompt.nodeContent node)) as [p|] eqn:E;
    [|exact Hrest].
  intros [= <-]. exists node. split; [now left|].
  split; [now apply Nat.eqb_eq | exact E].
Qed.

(** X20: [processStreamResponse] on a stream that ends.  A prompt it
    resolves with is never empty and has no white space at either end.
    When no line of the stream carries nodes, the answer is the one
    [extractEnhancedPromptFromText] gives on the whole text of the stream:
    resolving early, as soon as the accumulated text holds a tagged prompt,
    changes nothing. *)
Theorem X20_processStreamResponse (lines : list Prompt.Line)
  (rest : option Prompt.Line) :
  (forall prompt,
     Prompt.processStreamResponse lines rest = Prompt.Resolved prompt ->
     prompt <> "" /\ Prompt.trim prompt = prompt) /\
  ((forall line, In line lines -> Prompt.nodes line = []) ->
   (forall line, rest = Some line -> Prompt.nodes line = []) ->
   Prompt.processStreamResponse lines rest
   = Prompt.extractEnhancedPromptFromText (streamText lines rest)).
Proof.
  split.
  - intros prompt. unfold Prompt.processStreamResponse.
    destruct (Prompt.onData _ lines) as [p | st] eqn:E.
    + intros [= <-]. destruct (onData_resolved _ _ _ E) as (c & Hc).
      apply tagged_spec in Hc as (H1 & H2 & _). now split.
    + destruct (Prompt.fromNodes _) as [p|] eqn:En.
      * intros [= <-].
        destruct (fromNodes_resolved _ _ En) as (n & _ & _ & Hc).
        apply tagged_spec in Hc as (H1 & H2 & _). now split.
      * intros Hr. apply extract_resolved in Hr as (H1 & H2 & _). now split.
  - intros Hlines Hrest. unfold Prompt.processStreamResponse, streamText.
    pose proof (onData_texts lines ("", []) Hlines) as H.
    destruct (Prompt.onData _ lines) as [p | st].
    + symmetry. apply tagged_extract. exact (H _).
    + subst st. cbn [fst snd String.append].
      destruct rest as [line|].
      * unfold Prompt.accumulate. rewrite (Hrest line eq_refl).
        reflexivity.
      * cbn [fst snd Prompt.fromNodes]. now rewrite append_nil_r.
Qed.

Lemma X20_processStreamResponse_witness :
  Prompt.processStreamResponse
    [Prompt.mkLine "<augment-enhanced-prompt>fix " [];
     Prompt.mkLine "it</augment-enhanced-prompt>" [];
     Prompt.mkLine " trailing" []] None
  = Prompt.extractEnhancedPromptFromText
      (streamText
         [Prompt.mkLine "<augment-enhanced-prompt>fix " [];
          Prompt.mkLine "it</augment-enhanced-prompt>" [];
          Prompt.mkLine " trailing" []] None).
Proof.
  refine (proj2 (X20_processStreamResponse _ None) _ _).
  - intros line [<- | [<- | [<- | []]]]; reflexivity.
  - discriminate.
Defined.

(* ================================================================== *)
(** * Reading the settings *)
(* ================================================================== *)

Module Settings.

(** The values [config.get] hands out, a missing string being empty. *)
Record Raw : Type := mkRaw {
  rawBaseUrl : string;
  rawToken : string;
  rawBatchSize : nat;
  rawMaxLinesPerBlob : nat;
  rawTextExtensions : list string;
  rawExcludePatterns : list string;
  rawEnableLog : bool;
  rawUserGuidelines : string
}.

Record Config : Type := mkConfig {
  baseUrl : string;
  token : string;
  batchSize : nat;
  maxLinesPerBlob : nat;
  textExtensions : list string;
  excludePatterns : list string;
  enableLog : bool;
  userGuidelines : option string
}.

(** The three errors thrown. *)
Inductive Error : Type :=
| EmptyBaseUrl
| EmptyToken
| BadBaseUrl.

(** [s.replace(/\/$/, '')]: without one slash at the very end. *)
Fixpoint stripSlash (s : string) : string :=
  match s with
  | EmptyString => EmptyString
  | String c s' =>
      if Ascii.eqb c "/" && String.eqb s' "" then EmptyString
      else String c (stripSlash s')
  end.

(** [item.trim()] over a list, keeping what is not empty. *)
Definition cleaned (items : list string) : list string :=
  filter (fun item => negb (String.length item =? 0))
         (map Prompt.trim items).

Section Reader.

(** [new URL(s)] succeeds, with the protocol [http:] or [https:] and a
    host name that is not empty. *)
Variable parses : string -> bool.

Definition getVSCodeConfig (raw : Raw) : Error + Config :=
  let baseUrlInput := Prompt.trim (rawBaseUrl raw) in
  let token := Prompt.trim (rawToken raw) in
  if negb (Prompt.truthy baseUrlInput) then inl EmptyBaseUrl
  else if negb (Prompt.truthy token) then inl EmptyToken
  else
    let normalizedBaseUrl :=
      if negb (Js.startsWith "http://" baseUrlInput) &&
         negb (Js.startsWith "https://" baseUrlInput)
      then "https://" +++ baseUrlInput
      else baseUrlInput in
    let normalizedBaseUrl := stripSlash normalizedBaseUrl in
    if parses normalizedBaseUrl then
      inr (mkConfig normalizedBaseUrl token
             (rawBatchSize raw) (rawMaxLinesPerBlob raw)
             (Js.mkSet (cleaned (rawTextExtensions raw)))
             (cleaned (rawExcludePatterns raw))
             (rawEnableLog raw)
             (let guidelines := Prompt.trim (rawUserGuidelines raw) in
              if Prompt.truthy guidelines then Some guidelines else None))
    else inl BadBaseUrl.

End Reader.

End Settings.

Lemma cleaned_In (items : list string) (item : string) :
  In item (Settings.cleaned items) ->
  item <> "" /\ Prompt.trim item = item /\
  exists raw, In raw items /\ item = Prompt.trim raw.
Proof.
  unfold Settings.cleaned. rewrite filter_In, in_map_iff.
  intros ((raw & <- & Hraw) & Hlen). split; [|split].
  - intros E. rewrite E in Hlen. discriminate.
  - apply trim_idem.
  - now exists raw.
Qed.

Lemma stripSlash_prefix (p s : string) :
  String.prefix p s = true ->
  String.length p < String.length s ->
  String.prefix p (Settings.stripSlash s) = true.
Proof.
  revert s. induction p as [|c p IH]; intros [|d s] Hp Hl; simpl in *;
    try lia; try discriminate.
  - now destruct (_ && _).
  - destruct (ascii_dec c d) as [->|]; [|discriminate].
    destruct (Ascii.eqb d "/" && String.eqb s "") eqn:E.
    + apply andb_true_iff in E as [_ E]. apply String.eqb_eq in E. subst s.
      simpl in Hl. lia.
    + simpl. destruct (ascii_dec d d); [|congruence].
      apply IH; [exact Hp | lia].
Qed.

Lemma stripSlash_short (p s : string) :
  String.prefix p s = true ->
  String.length s <= String.length p ->
  s = p.
Proof.
  revert s. induction p as [|c p IH]; intros [|d s] Hp Hl; simpl in *;
    try lia; try discriminate; auto.
  destruct (ascii_dec c d) as [->|]; [|discriminate].
  f_equal. apply IH; [exact Hp | lia].
Qed.

(** X21: a configuration [getVSCodeConfig] returns.  The token is not
    empty and carries no white space at either end; the base address is
    one the address parser accepts, and it starts with [http://] or
    [https://] as soon as the parser refuses the two bare schemes
    [http:/] and [https:/]; every exclude pattern and every text
    extension is the trimmed form of a configured item, not empty, and
    the extensions are distinct; the guidelines, when present, are not
    empty; the batch size and the line limit are passed on as they are
    configured. *)
Theorem X21_getVSCodeConfig (parses : string -> bool)
  (raw : Settings.Raw) (config : Settings.Config) :
  Settings.getVSCodeConfig parses raw = inr config ->
  (Settings.token config <> "" /\
   Prompt.trim (Settings.token config) = Settings.token config) /\
  parses (Settings.baseUrl config) = true /\
  (parses "http:/" = false -> parses "https:/" = false ->
   Js.startsWith "http://" (Settings.baseUrl config) = true \/
   Js.startsWith "https://" (Settings.baseUrl config) = true) /\
  (forall item,
     In item (Settings.excludePatterns config) ->
     item <> "" /\ Prompt.trim item = item /\
     exists r, In r (Settings.rawExcludePatterns raw) /\
               item = Prompt.trim r) /\
  (NoDup (Settings.textExtensions config) /\
   forall item,
     In item (Settings.textExtensions config) ->
     item <> "" /\ Prompt.trim item = item /\
     exists r, In r (Settings.rawTextExtensions raw) /\
               item = Prompt.trim r) /\
  (forall guidelines,
     Settings.userGuidelines config = Some guidelines -> guidelines <> "") /\
  Settings.batchSize config = Settings.rawBatchSize raw /\
  Settings.maxLinesPerBlob config = Settings.rawMaxLinesPerBlob raw.
Proof.
  unfold Settings.getVSCodeConfig.
  destruct (Prompt.truthy (Prompt.trim (Settings.rawBaseUrl raw))) eqn:Eb;
    [|discriminate].
  destruct (Prompt.truthy (Prompt.trim (Settings.rawToken raw))) eqn:Et;
    [|discriminate].
  cbn [negb].
  set (input := Prompt.trim (Settings.rawBaseUrl raw)) in *.
  set (url := if negb (Js.startsWith "http://" input) &&
                 negb (Js.startsWith "https://" input)
              then "https://" +++ input else input).
  destruct (parses (Settings.stripSlash url)) eqn:Ep; [|discriminate].
  intros [= <-]. cbn.
  split; [split; [now apply truthy_nonempty | apply trim_idem]|].
  split; [exact Ep|].
  split.
  { intros H1 H2.
    assert (Hurl : Js.startsWith "http://" url = true \/
                   Js.startsWith "https://" url = true).
    { unfold url. destruct (Js.startsWith "http://" input) eqn:E1;
        [now left|].
      destruct (Js.startsWith "https://" input) eqn:E2; [now right|].
      right. cbn [negb andb]. apply prefix_append. }
    unfold Js.startsWith in *.
    destruct Hurl as [Hurl | Hurl].
    - destruct (Nat.ltb (String.length "http://") (String.length url)) eqn:El.
      + left. apply stripSlash_prefix; [exact Hurl|].
        now apply Nat.ltb_lt in El.
      + apply Nat.ltb_ge in El.
        rewrite (stripSlash_short _ _ Hurl El) in Ep.
        simpl in Ep. congruence.
    - destruct (Nat.ltb (String.length "https://") (String.length url))
        eqn:El.
      + right. apply stripSlash_prefix; [exact Hurl|].
        now apply Nat.ltb_lt in El.
      + apply Nat.ltb_ge in El.
        rewrite (stripSlash_short _ _ Hurl El) in Ep.
        simpl in Ep. congruence. }
  split; [intros item; apply cleaned_In|].
  split.
  { split; [apply mkSet_NoDup|].
    intros item Hi. rewrite mkSet_In in Hi. now apply cleaned_In. }
  split; [|split; reflexivity].
  intros guidelines.
  destruct (Prompt.truthy (Prompt.trim (Settings.rawUserGuidelines raw)))
    eqn:Eg; [|discriminate].
  intros [= <-]. now apply truthy_nonempty.
Qed.

Lemma X21_getVSCodeConfig_witness :
  Js.startsWith "http://"
    (Settings.baseUrl
       (Settings.mkConfig "https://api.example.com" "secret" 10 800
          [".py"] ["node_modules"] false None)) = true \/
  Js.startsWith "https://"
    (Settings.baseUrl
       (Settings.mkConfig "https://api.example.com" "secret" 10 800
          [".py"] ["node_modules"] false None)) = true.
Proof.
  refine (proj1 (proj2 (proj2
    (X21_getVSCodeConfig
       (fun u => negb (String.length u <=? 7))
       (Settings.mkRaw " api.example.com/ " " secret" 10 800
          [".py "; " "; ".py"] ["node_modules"; ""] false "  ")
       (Settings.mkConfig "https://api.example.com" "secret" 10 800
          [".py"] ["node_modules"] false None)
       _))) _ _); reflexivity.
Defined.
